(** * Composite loss and alternating optimisation of [discriminator/train.py]

    A shallow embedding of [Trainer.__init__], [Trainer.compute_discriminator_loss],
    [Trainer.forward_discriminator] and of the body of the batch loop of
    [Trainer.train], together with the small fixture [discriminator/test/test.py].

    Tensors are lists (a matrix is the list of its rows, a batch the list of
    its examples).  Floating-point tensors are read over an abstract scalar
    interface [Scalar]; the arithmetic facts are proved for its instance on
    the real numbers (exact arithmetic, no rounding), and the instance
    [NanReal] adds a not-a-number value for the one place where the source
    tests [torch.isnan].  Moving a tensor to a device ([.to], [.cuda])
    changes no value and is left out; an exception the source can raise on
    the data of a batch is a result [Raise] of the function that raises
    it. *)

From Stdlib Require Import String Reals Lra Lia ZArith Bool List Psatz.
Import ListNotations.

Set Implicit Arguments.

(** ** The scalar interface of floating-point tensors *)

Class Scalar (T : Type) : Type := {
  tzero : T;
  tone : T;
  tadd : T -> T -> T;
  tsub : T -> T -> T;
  tmul : T -> T -> T;
  tdiv : T -> T -> T;
  tmax : T -> T -> T;
  texp : T -> T;
  tlog : T -> T;
  of_int : Z -> T;
  tgtb : T -> T -> bool;
  isnan : T -> bool
}.

(** Exact real arithmetic: nothing is ever not-a-number. *)
#[export] Instance RealScalar : Scalar R := {|
  tzero := 0%R;
  tone := 1%R;
  tadd := Rplus;
  tsub := Rminus;
  tmul := Rmult;
  tdiv := Rdiv;
  tmax := Rmax;
  texp := exp;
  tlog := ln;
  of_int := IZR;
  tgtb := fun a b => if Rlt_dec b a then true else false;
  isnan := fun _ => false
|}.

(** Reals with one extra not-a-number value [None], which every operation
    propagates and every comparison answers [false] on. *)
Definition NanReal : Type := option R.

Definition nan_lift1 (f : R -> R) (a : NanReal) : NanReal :=
  match a with Some x => Some (f x) | None => None end.

Definition nan_lift2 (f : R -> R -> R) (a b : NanReal) : NanReal :=
  match a, b with Some x, Some y => Some (f x y) | _, _ => None end.

#[export] Instance NanScalar : Scalar NanReal := {|
  tzero := Some 0%R;
  tone := Some 1%R;
  tadd := nan_lift2 Rplus;
  tsub := nan_lift2 Rminus;
  tmul := nan_lift2 Rmult;
  tdiv := nan_lift2 Rdiv;
  tmax := nan_lift2 Rmax;
  texp := nan_lift1 exp;
  tlog := nan_lift1 ln;
  of_int := fun z => Some (IZR z);
  tgtb := fun a b =>
    match a, b with
    | Some x, Some y => if Rlt_dec y x then true else false
    | _, _ => false
    end;
  isnan := fun a => match a with Some _ => false | None => true end
|}.

(** ** Tensor primitives *)

Section Tensor.
Context {T : Type} `{Scalar T}.

(** [torch.sum] of a vector. *)
Definition tsum (v : list T) : T := fold_right tadd tzero v.

(** [torch.ones(rows, cols)]. *)
Definition ones (rows cols : nat) : list (list T) :=
  repeat (repeat tone cols) rows.

(** A Python slice bound on a sequence of length [n]: negative bounds
    count from the end, and the result is clipped to [0, n]. *)
Definition slice_bound (n : nat) (z : Z) : nat :=
  if (z <? 0)%Z then Z.to_nat (Z.max (z + Z.of_nat n) 0)
  else Nat.min (Z.to_nat z) n.

(** [row[lo:hi] = v] on a one-dimensional tensor. *)
Definition slice_fill (lo hi : Z) (v : T) (row : list T) : list T :=
  let n := length row in
  let a := slice_bound n lo in
  let b := slice_bound n hi in
  map (fun px => if (a <=? fst px)%nat && (fst px <? b)%nat then v else snd px)
      (combine (seq 0 n) row).

(** [m[i] <- f m[i]]; an index past the end leaves [m] unchanged (the
    source only uses indices below the number of rows). *)
Fixpoint update_row (i : nat) (f : list T -> list T) (m : list (list T))
  : list (list T) :=
  match m, i with
  | [], _ => []
  | r :: rest, O => f r :: rest
  | r :: rest, S i' => r :: update_row i' f rest
  end.

Definition ncols (m : list (list T)) : nat := length (hd [] m).

(** [m[i][j]]. *)
Definition entry (m : list (list T)) (i j : nat) : T :=
  nth j (nth i m []) tzero.

Definition column (j : nat) (m : list (list T)) : list T :=
  map (fun row => nth j row tzero) m.

(** [torch.t]. *)
Definition transpose (m : list (list T)) : list (list T) :=
  map (fun j => column j m) (seq 0 (ncols m)).

Definition dot (a b : list T) : T :=
  tsum (map (fun xy => tmul (fst xy) (snd xy)) (combine a b)).

(** [torch.matmul] of two matrices (inner dimensions agree in the source). *)
Definition matmul (a b : list (list T)) : list (list T) :=
  map (fun row => map (fun j => dot row (column j b)) (seq 0 (ncols b))) a.

(** [torch.diagonal] of a matrix. *)
Definition diagonal (m : list (list T)) : list T :=
  map (fun i => nth i (nth i m []) tzero)
      (seq 0 (Nat.min (length m) (ncols m))).

(** [nn.Softmax] along the position axis of one example. *)
Definition softmax (v : list T) : list T :=
  let z := tsum (map texp v) in
  map (fun x => tdiv (texp x) z) v.

(** [torch.unsqueeze(_, 2)] and [torch.unsqueeze(_, 1)] on one example of
    a batch: a column vector and a row vector. *)
Definition unsqueeze_col (v : list T) : list (list T) := map (fun x => [x]) v.
Definition unsqueeze_row (v : list T) : list (list T) := [v].

(** [torch.transpose(_, dim0=1, dim1=1)]: both dimensions are the same,
    so the tensor is returned as it is. *)
Definition transpose_1_1 (m : list (list T)) : list (list T) := m.

(** *** [Trainer.__init__], lines 166-169, and [test.py], lines 4-9 *)

(** The loop of lines 167-168: row [i] of the all-ones matrix gets the
    slice [i : i + length_k + 1] zeroed. *)
Definition filled_rows (L : nat) (length_k : Z) : list (list T) :=
  fold_left
    (fun m i =>
       update_row i
         (slice_fill (Z.of_nat i) (Z.of_nat i + length_k + 1) tzero) m)
    (seq 0 L) (ones L L).

Definition length_mask (L : nat) (length_k : Z) : list (list T) :=
  transpose (filled_rows L length_k).

(** The trainer's mask has the model's sequence length, 384; the fixture
    in [test.py] has 5. *)
Definition Trainer_length_mask (length_k : Z) : list (list T) :=
  length_mask 384 length_k.

Definition test_length_mask (length_k : Z) : list (list T) :=
  length_mask 5 length_k.

End Tensor.

Arguments tsum {T H} v : simpl never.

(** ** Raised exceptions *)

Inductive error : Type :=
| IndexError          (* an index or a class target outside its range *)
| RuntimeError        (* tensor sizes that do not broadcast *)
| ValueError          (* batch sizes of input and target differ *)
| ZeroDivisionError.

Inductive result (A : Type) : Type :=
| Ok (a : A)
| Raise (e : error).

Arguments Ok {A} a.
Arguments Raise {A} e.

Definition rbind {A B : Type} (r : result A) (k : A -> result B) : result B :=
  match r with
  | Ok a => k a
  | Raise e => Raise e
  end.

Fixpoint rmap {A B : Type} (f : A -> result B) (l : list A) : result (list B) :=
  match l with
  | [] => Ok []
  | x :: rest =>
      rbind (f x) (fun y => rbind (rmap f rest) (fun ys => Ok (y :: ys)))
  end.

Definition zip_with {A B C : Type} (f : A -> B -> C) (a : list A) (b : list B)
  : list C :=
  map (fun xy => f (fst xy) (snd xy)) (combine a b).

(** Broadcasting of two sizes along one dimension: equal sizes pair up, a
    size of one is repeated, anything else raises. *)
Definition broadcast {A B : Type} (a : list A) (b : list B)
  : result (list (A * B)) :=
  if (length a =? length b)%nat then Ok (combine a b)
  else match a, b with
       | [x], _ => Ok (map (fun y => (x, y)) b)
       | _, [y] => Ok (map (fun x => (x, y)) a)
       | _, _ => Raise RuntimeError
       end.

(** Boolean-mask indexing [t[mask, :]] along the batch dimension. *)
Definition mask_select {A : Type} (mask : list bool) (t : list A)
  : result (list A) :=
  if (length mask =? length t)%nat
  then Ok (map snd (filter fst (combine mask t)))
  else Raise IndexError.

(** [Tensor.clamp_(lo, hi)] on an integer. *)
Definition clamp (lo hi z : Z) : Z := Z.min (Z.max z lo) hi.

(** ** Loss functions of [torch.nn] *)

Section Losses.
Context {T : Type} `{Scalar T}.

Definition tneg (x : T) : T := tsub tzero x.

(** [torch.argmax]: the index of the first maximal entry. *)
Fixpoint argmax_from (best_i : nat) (best : T) (i : nat) (v : list T) : nat :=
  match v with
  | [] => best_i
  | x :: rest =>
      if tgtb x best then argmax_from i x (S i) rest
      else argmax_from best_i best (S i) rest
  end.

Definition argmax (v : list T) : Z :=
  match v with
  | [] => 0
  | x :: rest => Z.of_nat (argmax_from 0 x 1 rest)
  end.

(** [torch.where(cond, a, b)] on vectors. *)
Definition where_ (cond : list bool) (a b : list T) : list T :=
  zip_with (fun c ab => if c : bool then fst ab else snd ab)
           cond (combine a b).

Definition log_softmax (v : list T) : list T :=
  let z := tlog (tsum (map texp v)) in
  map (fun x => tsub x z) v.

(** One example of [nn.CrossEntropyLoss(ignore_index=_, reduce=False)]:
    the negated log-softmax at the target, zero at the ignored index, and
    an error for any other target outside the classes. *)
Definition cross_entropy_example (ignore_index : Z) (logits : list T)
           (target : Z) : result T :=
  if (target =? ignore_index)%Z then Ok tzero
  else if (0 <=? target)%Z && (target <? Z.of_nat (length logits))%Z
       then Ok (tneg (nth (Z.to_nat target) (log_softmax logits) tzero))
       else Raise IndexError.

Definition cross_entropy_none (ignore_index : Z) (logits : list (list T))
           (targets : list Z) : result (list T) :=
  if (length logits =? length targets)%nat
  then rmap (fun lt => cross_entropy_example ignore_index (fst lt) (snd lt))
            (combine logits targets)
  else Raise ValueError.

(** The pointwise term of [torch.kl_div] for a target given as a
    probability and an input given as a log-probability. *)
Definition kl_point (input target : T) : T :=
  if tgtb target tzero then tmul target (tsub (tlog target) input)
  else tzero.

(** [nn.KLDivLoss(reduction="batchmean")]: the pointwise terms of the
    broadcast operands are summed and divided by the number of rows of
    [input]. *)
Definition kl_div_batchmean (input target : list (list T)) : result T :=
  rbind (broadcast input target) (fun rows =>
  rbind (rmap (fun it => broadcast (fst it) (snd it)) rows) (fun cells =>
  Ok (tdiv (tsum (map (fun xt => kl_point (fst xt) (snd xt)) (concat cells)))
           (of_int (Z.of_nat (length input)))))).

(** [nn.NLLLoss()]: mean reduction, default [ignore_index] of -100. *)
Definition nll_example (log_prob : list T) (target : Z) : result (option T) :=
  if (target =? -100)%Z then Ok None
  else if (0 <=? target)%Z && (target <? Z.of_nat (length log_prob))%Z
       then Ok (Some (tneg (nth (Z.to_nat target) log_prob tzero)))
       else Raise IndexError.

Definition keep_some (o : option T) : list T :=
  match o with Some x => [x] | None => [] end.

Definition nll_loss_mean (log_prob : list (list T)) (targets : list Z)
  : result T :=
  if (length log_prob =? length targets)%nat
  then rbind (rmap (fun lt => nll_example (fst lt) (snd lt))
                   (combine log_prob targets)) (fun terms =>
       let kept := flat_map keep_some terms in
       Ok (tdiv (tsum kept) (of_int (Z.of_nat (length kept)))))
  else Raise ValueError.

End Losses.

(** ** The trainer *)

Section TrainerModel.
Context {T : Type} `{Scalar T}.

(** The command-line arguments [Trainer.__init__] reads for the loss. *)
Record Args : Type := {
  adv : bool;
  adv_lambda : T;
  adv_steps : Z;
  args_full_adv : bool;
  args_enable_length_loss : bool;
  args_length_k : Z;
  args_length_lambda : T;
  args_enable_length_bp_penalty : bool
}.

(** The fields of [self] the batch loop reads.  [DomainDiscriminator] is
    not part of the sources at hand: its forward pass is the field
    [discriminator], a function of the number of [dis_optim.step()] calls
    made so far in the batch and of one example's embedding, and
    [num_classes] is its attribute of that name. *)
Record Trainer : Type := {
  enable_discriminator : bool;
  discriminator : nat -> list T -> list T;
  num_classes : Z;
  discriminator_lambda : T;
  num_adv_steps : Z;
  full_adv : bool;
  enable_length_loss : bool;
  length_k : Z;
  length_lambda : T;
  enable_length_bp_penalty : bool;
  self_length_mask : list (list T)
}.

(** [Trainer.__init__]. *)
Definition Trainer_init (args : Args) (disc : nat -> list T -> list T)
           (classes : Z) : Trainer := {|
  enable_discriminator := adv args;
  discriminator := disc;
  num_classes := classes;
  discriminator_lambda := adv_lambda args;
  num_adv_steps := adv_steps args;
  full_adv := args_full_adv args;
  enable_length_loss := args_enable_length_loss args;
  length_k := args_length_k args;
  length_lambda := args_length_lambda args;
  enable_length_bp_penalty := args_enable_length_bp_penalty args;
  self_length_mask := Trainer_length_mask (args_length_k args)
|}.

(** The representation handed to the discriminator: the flattened last
    hidden layer, or its first position [hidden_states[:, 0]]. *)
Definition first_position (h : list (list T)) : result (list T) :=
  match h with
  | [] => Raise IndexError
  | v :: _ => Ok v
  end.

Definition embedding_of (hidden_states : list (list (list T)))
           (full : bool) : result (list (list T)) :=
  if full then Ok (map (@concat T) hidden_states)
  else rmap first_position hidden_states.

(** [Trainer.compute_discriminator_loss], lines 242-254; [disc] is the
    forward pass of [self.discriminator] at the time of the call. *)
Definition compute_discriminator_loss (disc : list T -> list T)
           (classes : Z) (hidden_states : list (list (list T)))
           (data_set_ids : list Z) (full : bool) : result T :=
  rbind (embedding_of hidden_states full) (fun embedding =>
  let log_prob := map disc embedding in
  if (classes =? 0)%Z then Raise ZeroDivisionError else
  let targets :=
    map (map (fun _ => tmul tone (tdiv (of_int 1) (of_int classes))))
        log_prob in
  let is_indomain_dataset := map (fun d => (d <? 3)%Z) data_set_ids in
  rbind (mask_select is_indomain_dataset log_prob) (fun log_prob' =>
  if (length log_prob' =? 0)%nat then Ok (of_int 0)
  else kl_div_batchmean log_prob' targets)).

(** [Trainer.forward_discriminator], lines 257-267 ([detach] changes no
    value). *)
Definition forward_discriminator (disc : list T -> list T)
           (hidden_states : list (list (list T))) (data_set_ids : list Z)
           (full : bool) : result (T * list (list T)) :=
  rbind (embedding_of hidden_states full) (fun embedding =>
  let log_prob := map disc embedding in
  rbind (nll_loss_mean log_prob data_set_ids) (fun loss =>
  Ok (loss, log_prob))).

(** *** Lines 303-315: the weight of each example *)

Record Reweighting : Type := {
  pred_start_index : list Z;
  pred_end_index : list Z;
  pred_length : list Z;
  maxed_pred_length : list T;
  gold_length : list Z;
  weight : list T
}.

Definition ones_vec (n : nat) : list T := repeat tone n.

Definition length_reweighting (batch_size : nat)
           (start_logits end_logits : list (list T))
           (start_positions end_positions : list Z) : Reweighting :=
  let pred_start_index := map argmax start_logits in
  let pred_end_index := map argmax end_logits in
  let pred_length :=
    zip_with (fun e s => (e - s + 1)%Z) pred_end_index pred_start_index in
  let maxed_pred_length :=
    zip_with tmax (map of_int pred_length) (ones_vec batch_size) in
  let gold_length :=
    zip_with (fun e s => (e - s + 1)%Z) end_positions start_positions in
  let maxed_gold_length :=
    zip_with tmax (map of_int gold_length) (ones_vec batch_size) in
  let weight :=
    map texp
        (zip_with (fun g p => tsub tone (tdiv g p))
                  maxed_gold_length maxed_pred_length) in
  let filter := zip_with Z.gtb pred_length gold_length in
  let weight := where_ filter weight (ones_vec batch_size) in
  let filter := map (fun p => (p >? 0)%Z) pred_length in
  let weight :=
    where_ filter weight
           (map (fun x => tmul x (of_int 2)) (ones_vec batch_size)) in
  {| pred_start_index := pred_start_index;
     pred_end_index := pred_end_index;
     pred_length := pred_length;
     maxed_pred_length := maxed_pred_length;
     gold_length := gold_length;
     weight := weight |}.

(** *** Lines 322-332: the reweighted span loss

    The gold positions are tensors of one dimension, so the tests of lines
    317-321 let every batch through unchanged. *)

Record SpanLoss : Type := {
  clamped_start_positions : list Z;
  clamped_end_positions : list Z;
  start_loss : list T;
  end_loss : list T;
  span_loss : T
}.

Definition reweighted_span_loss (batch_size : nat) (weight : list T)
           (start_logits end_logits : list (list T))
           (start_positions end_positions : list Z) : result SpanLoss :=
  let ignored_index := Z.of_nat (ncols start_logits) in
  let start_positions := map (clamp 0 ignored_index) start_positions in
  let end_positions := map (clamp 0 ignored_index) end_positions in
  rbind (cross_entropy_none ignored_index start_logits start_positions)
    (fun start_loss =>
  rbind (cross_entropy_none ignored_index end_logits end_positions)
    (fun end_loss =>
  let loss :=
    zip_with
      (fun s e => tdiv (tdiv (tadd s e) (of_int 2))
                       (of_int (Z.of_nat batch_size)))
      start_loss end_loss in
  let loss := zip_with tmul loss weight in
  Ok {| clamped_start_positions := start_positions;
        clamped_end_positions := end_positions;
        start_loss := start_loss;
        end_loss := end_loss;
        span_loss := tsum loss |})).

(** *** Lines 350-359: the expected-length penalty *)

(** Lines 353-358 for one example of the batch: the trace of the product of
    the outer product of the two distributions with the mask. *)
Definition example_trace (mask : list (list T)) (p_start p_end : list T) : T :=
  tsum (diagonal
          (matmul (transpose_1_1
                     (matmul (unsqueeze_col p_start) (unsqueeze_row p_end)))
                  mask)).

(** The weight the joint distribution [P(start=i)P(end=j)] gives to the
    pairs [(i, j)] selected by [sel]. *)
Definition pair_mass (sel : nat -> nat -> bool) (p_start p_end : list T) : T :=
  tsum (map (fun i =>
               tsum (map (fun j =>
                            if sel i j
                            then tmul (nth i p_start tzero) (nth j p_end tzero)
                            else tzero)
                         (seq 0 (length p_end))))
            (seq 0 (length p_start))).

(** The answer length a pair of positions implies. *)
Definition implied_length (i j : nat) : Z := (Z.of_nat j - Z.of_nat i + 1)%Z.

Definition has_shape (rows cols : nat) (m : list (list T)) : Prop :=
  length m = rows /\ Forall (fun r => length r = cols) m.

(** Every entry of the matrix is 0 or 1. *)
Definition zero_one (m : list (list T)) : Prop :=
  Forall (Forall (fun x => x = tzero \/ x = tone)) m.

Definition expected_length_penalty (batch_size : nat)
           (mask : list (list T))
           (start_logits_softmax end_logits_softmax : list (list T)) : T :=
  let start_logits_softmax := map unsqueeze_col start_logits_softmax in
  let end_logits_softmax := map unsqueeze_row end_logits_softmax in
  let start_end_mul :=
    map transpose_1_1
        (zip_with matmul start_logits_softmax end_logits_softmax) in
  let length_mul := map (fun m => matmul m mask) start_end_mul in
  let diag := map diagonal length_mul in
  tdiv (tsum (concat diag)) (of_int (Z.of_nat batch_size)).

Definition length_loss (batch_size : nat) (mask : list (list T))
           (start_logits end_logits : list (list T)) : T :=
  expected_length_penalty batch_size mask
    (map softmax start_logits) (map softmax end_logits).

End TrainerModel.

Arguments Args T : clear implicits.
Arguments Trainer T : clear implicits.
Arguments Reweighting T : clear implicits.
Arguments SpanLoss T : clear implicits.

(** ** One pass of the batch loop of [Trainer.train] *)

Section BatchLoop.
Context {T : Type} `{Scalar T}.

Record Batch : Type := {
  input_ids : list (list Z);
  start_positions : list Z;
  end_positions : list Z;
  data_set_id : list Z
}.

(** What the call of the question-answering model returns: [outputs[0]],
    [outputs[1]], [outputs[2]] and [outputs.hidden_states[-1]]. *)
Record Outputs : Type := {
  outputs_loss : T;
  outputs_start_logits : list (list T);
  outputs_end_logits : list (list T);
  last_hidden_states : list (list (list T))
}.

Inductive printed : Type :=
| PNothing
| PTensor (v : list T)
| PInts (v : list Z)
| PInt (n : Z).

(** The effects of one pass that are visible outside it. *)
Inductive event : Type :=
| qa_optim_zero_grad
| dis_optim_zero_grad
| model_train
| discriminator_train
| print (label : string) (value : printed)
| loss_backward (loss : T)
| qa_optim_step
| dis_optim_step
| discriminator_loss_backward (loss : T)
| progress_bar_update (n : nat)
| progress_bar_set_postfix (NLL dis_loss dis_loss_on_qa len_loss : T)
| tbx_add_scalar (tag : string) (value : T).

(** The state a pass threads: the effects so far, oldest first, and the
    number of updates the discriminator has received in this pass. *)
Record TrainState : Type := {
  trace : list event;
  dis_updates : nat
}.

Definition initial_state : TrainState := {| trace := []; dis_updates := 0 |}.

(** State and exceptions: an exception keeps the effects made before it. *)
Definition M (A : Type) : Type := TrainState -> TrainState * result A.

Definition ret {A : Type} (a : A) : M A := fun st => (st, Ok a).

Definition bind {A B : Type} (m : M A) (k : A -> M B) : M B :=
  fun st =>
    match m st with
    | (st', Ok a) => k a st'
    | (st', Raise e) => (st', Raise e)
    end.

Definition lift {A : Type} (r : result A) : M A := fun st => (st, r).

Definition emit (e : event) : M unit :=
  fun st => ({| trace := trace st ++ [e]; dis_updates := dis_updates st |},
             Ok tt).

Fixpoint emit_all (es : list event) : M unit :=
  match es with
  | [] => ret tt
  | e :: rest => bind (emit e) (fun _ => emit_all rest)
  end.

Definition dis_optim_do_step : M unit :=
  fun st => ({| trace := trace st ++ [dis_optim_step];
                dis_updates := S (dis_updates st) |}, Ok tt).

Definition current_discriminator (self : Trainer T) : M (list T -> list T) :=
  fun st => (st, Ok (discriminator self (dis_updates st))).

Notation "x <- m ;; k" := (bind m (fun x => k))
  (at level 61, m at next level, right associativity).
Notation "m ;;; k" := (bind m (fun _ => k))
  (at level 61, right associativity).

(** [for step in range(n): acc = body()], keeping the last value. *)
Fixpoint for_range (n : nat) (body : M T) (acc : T) : M T :=
  match n with
  | O => ret acc
  | S n' => x <- body ;; for_range n' body x
  end.

(** Lines 334-346: what is printed when the loss is not a number. *)
Definition diagnostics (batch_size : nat) (rw : Reweighting T)
           (sl : SpanLoss T) : list event :=
  [ print "######################## loss is nan" PNothing;
    print "weight : " (PTensor (weight rw));
    print "start_loss : " (PTensor (start_loss sl));
    print "end_loss : " (PTensor (end_loss sl));
    print "batch_size : " (PInt (Z.of_nat batch_size));
    print "maxed_pred_length : " (PTensor (maxed_pred_length rw));
    print "start_positions : " (PInts (clamped_start_positions sl));
    print "end_positions : " (PInts (clamped_end_positions sl));
    print "pred_length : " (PInts (pred_length rw));
    print "maxed_pred_length : " (PTensor (maxed_pred_length rw));
    print "gold_length : " (PInts (gold_length rw));
    print "pred_start_index : " (PInts (pred_start_index rw));
    print "pred_end_index : " (PInts (pred_end_index rw)) ].

(** Lines 333-346. *)
Definition report_nan (batch_size : nat) (rw : Reweighting T)
           (sl : SpanLoss T) : M unit :=
  emit_all (diagnostics batch_size rw sl).

(** Lines 284-287. *)
Definition prelude : list event :=
  [qa_optim_zero_grad; dis_optim_zero_grad; model_train; discriminator_train].

(** Lines 302-346. *)
Definition span_stage (self : Trainer T) (batch : Batch) (outputs : Outputs)
  : M T :=
  let batch_size := length (input_ids batch) in
  if enable_length_bp_penalty self then
    let rw := length_reweighting batch_size
                (outputs_start_logits outputs) (outputs_end_logits outputs)
                (start_positions batch) (end_positions batch) in
    sl <- lift (reweighted_span_loss batch_size (weight rw)
                  (outputs_start_logits outputs) (outputs_end_logits outputs)
                  (start_positions batch) (end_positions batch)) ;;
    (if isnan (span_loss sl) then report_nan batch_size rw sl else ret tt) ;;;
    ret (span_loss sl)
  else ret (outputs_loss outputs).

(** Lines 348-362: the loss so far and [scalar_length_loss]. *)
Definition length_stage (self : Trainer T) (batch : Batch) (outputs : Outputs)
           (loss : T) : T * T :=
  let batch_size := length (input_ids batch) in
  if enable_length_loss self then
    let ll := length_loss batch_size (self_length_mask self)
                (outputs_start_logits outputs) (outputs_end_logits outputs) in
    (tadd loss (tmul (length_lambda self) ll), tmul (length_lambda self) ll)
  else (loss, of_int 0).

(** Lines 378-384: one turn of the discriminator loop. *)
Definition adversarial_turn (self : Trainer T) (batch : Batch)
           (outputs : Outputs) : M T :=
  dis_optim_do_step ;;;
  emit dis_optim_zero_grad ;;;
  disc <- current_discriminator self ;;
  fwd <- lift (forward_discriminator disc (last_hidden_states outputs)
                 (data_set_id batch) (full_adv self)) ;;
  emit (discriminator_loss_backward (fst fwd)) ;;;
  dis_optim_do_step ;;;
  ret (fst fwd).

(** Lines 388-393. *)
Definition log_events (batch : Batch)
           (loss scalar_discriminator_loss scalar_dis_loss_for_qa
                 scalar_length_loss : T) : list event :=
  [ progress_bar_update (length (input_ids batch));
    progress_bar_set_postfix loss scalar_discriminator_loss
                             scalar_dis_loss_for_qa scalar_length_loss;
    tbx_add_scalar "train/NLL" loss;
    tbx_add_scalar "train/dis_loss" scalar_discriminator_loss;
    tbx_add_scalar "train/dis_loss_on_qa" scalar_dis_loss_for_qa;
    tbx_add_scalar "train/length_loss" scalar_length_loss ].

Definition log_stage (batch : Batch)
           (loss scalar_discriminator_loss scalar_dis_loss_for_qa
                 scalar_length_loss : T) : M unit :=
  emit_all (log_events batch loss scalar_discriminator_loss
                       scalar_dis_loss_for_qa scalar_length_loss).

(** Lines 284-393: one batch, from [qa_optim.zero_grad()] to the last
    [tbx.add_scalar]; the periodic evaluation that follows belongs to the
    collaborators of the loop. *)
Definition train_batch (self : Trainer T) (batch : Batch) (outputs : Outputs)
  : M unit :=
  emit_all prelude ;;;
  loss <- span_stage self batch outputs ;;
  let ls := length_stage self batch outputs loss in
  let loss := fst ls in
  let scalar_length_loss := snd ls in
  if enable_discriminator self then
    disc <- current_discriminator self ;;
    dl <- lift (compute_discriminator_loss disc (num_classes self)
                  (last_hidden_states outputs) (data_set_id batch)
                  (full_adv self)) ;;
    let discriminator_loss_for_qa := tmul (discriminator_lambda self) dl in
    let loss := tadd loss discriminator_loss_for_qa in
    emit (loss_backward loss) ;;;
    emit qa_optim_step ;;;
    scalar_discriminator_loss <-
      for_range (Z.to_nat (num_adv_steps self))
                (adversarial_turn self batch outputs) (of_int 0) ;;
    log_stage batch loss scalar_discriminator_loss
              discriminator_loss_for_qa scalar_length_loss
  else
    emit (loss_backward loss) ;;;
    emit qa_optim_step ;;;
    log_stage batch loss (of_int 0) (of_int 0) scalar_length_loss.

(** What lines 302-346 leave behind: the loss so far and what was printed,
    or the exception of the cross-entropy. *)
Definition span_outcome (self : Trainer T) (batch : Batch) (outputs : Outputs)
  : result (T * list event) :=
  let batch_size := length (input_ids batch) in
  if enable_length_bp_penalty self then
    let rw := length_reweighting batch_size
                (outputs_start_logits outputs) (outputs_end_logits outputs)
                (start_positions batch) (end_positions batch) in
    rbind (reweighted_span_loss batch_size (weight rw)
             (outputs_start_logits outputs) (outputs_end_logits outputs)
             (start_positions batch) (end_positions batch))
          (fun sl =>
             Ok (span_loss sl,
                 if isnan (span_loss sl) then diagnostics batch_size rw sl
                 else []))
  else Ok (outputs_loss outputs, []).

(** The state [st] after the further effects [es], [k] of them updates of
    the discriminator. *)
Definition after (st : TrainState) (es : list event) (k : nat) : TrainState :=
  {| trace := trace st ++ es; dis_updates := k + dis_updates st |}.

(** The shapes the source gives its tensors: every tensor of the batch has
    the batch size [input_ids.size(0)] as first dimension, the logits have
    [L] positions, and so has the trainer's mask. *)
Definition well_shaped (L : nat) (self : Trainer T) (batch : Batch)
           (outputs : Outputs) : Prop :=
  let batch_size := length (input_ids batch) in
  (0 < batch_size)%nat
  /\ length (start_positions batch) = batch_size
  /\ length (end_positions batch) = batch_size
  /\ length (data_set_id batch) = batch_size
  /\ length (outputs_start_logits outputs) = batch_size
  /\ length (outputs_end_logits outputs) = batch_size
  /\ length (last_hidden_states outputs) = batch_size
  /\ Forall (fun r => length r = L) (outputs_start_logits outputs)
  /\ Forall (fun r => length r = L) (outputs_end_logits outputs)
  /\ has_shape L L (self_length_mask self).

(** The optimizer updates of a trace, in order. *)
Definition is_optimizer_step (e : event) : bool :=
  match e with
  | qa_optim_step | dis_optim_step => true
  | _ => false
  end.

Definition optimizer_steps (tr : list event) : list event :=
  filter is_optimizer_step tr.

Definition is_print (e : event) : bool :=
  match e with
  | print _ _ => true
  | _ => false
  end.

Definition backpropagated (tr : list event) : list T :=
  flat_map (fun e => match e with loss_backward l => [l] | _ => [] end) tr.

End BatchLoop.

Arguments Outputs T : clear implicits.
Arguments printed T : clear implicits.
Arguments event T : clear implicits.
Arguments TrainState T : clear implicits.
Arguments M T A : clear implicits.

(** A probability distribution over positions: non-negative entries that
    sum to one. *)
Definition is_simplex (p : list R) : Prop :=
  Forall (fun x => (0 <= x)%R) p /\ tsum p = 1%R.

(** The weight of section 4.3 of the specification, in its words: the base
    weight [exp(1 - max(gold, 1) / max(predicted, 1))], replaced by 1 when
    the predicted length is at most [max(gold, 1)], and by 2 when it is at
    most 0, the last rule first. *)
Definition base_weight (predicted_length gold_len : Z) : R :=
  exp (1 - IZR (Z.max gold_len 1) / IZR (Z.max predicted_length 1)).

Definition weight_rule (predicted_length gold_len : Z) : R :=
  if (predicted_length <=? 0)%Z then 2%R
  else if (predicted_length <=? Z.max gold_len 1)%Z then 1%R
       else base_weight predicted_length gold_len.

(** The span loss of section 4.5 of the specification, in its words: the
    sum over the examples of the reweighted span cross-entropy (the mean of
    the start and the end term), divided by the batch size. *)
Definition mean_reweighted_span_loss (batch_size : nat)
           (weight start_loss end_loss : list R) : R :=
  (tsum (map (fun b => nth b weight 0 * ((nth b start_loss 0 + nth b end_loss 0) / 2))
             (seq 0 batch_size))
   / INR batch_size)%R.

(** ** Fixtures: one example of 384 positions *)

(** A discriminator over two domains that answers the uniform distribution
    whatever it is given. *)
Definition uniform_discriminator : nat -> list R -> list R :=
  fun _ _ => [ln (1 / 2); ln (1 / 2)]%R.

Definition one_example : Batch := {|
  input_ids := [repeat 0%Z 384];
  start_positions := [3%Z];
  end_positions := [5%Z];
  data_set_id := [0%Z]
|}.

Definition flat_outputs : Outputs R := {|
  outputs_loss := 0%R;
  outputs_start_logits := [repeat 0%R 384];
  outputs_end_logits := [repeat 0%R 384];
  last_hidden_states := [repeat [0%R] 384]
|}.

(** Adversarial training alone, with three discriminator steps a batch. *)
Definition adversarial_trainer : Trainer R :=
  Trainer_init
    {| adv := true; adv_lambda := 1%R; adv_steps := 3;
       args_full_adv := false; args_enable_length_loss := false;
       args_length_k := 30; args_length_lambda := 1%R;
       args_enable_length_bp_penalty := false |}
    uniform_discriminator 2.

(** Reweighting, length loss and adversarial term all enabled. *)
Definition full_trainer : Trainer R :=
  Trainer_init
    {| adv := true; adv_lambda := 1%R; adv_steps := 3;
       args_full_adv := false; args_enable_length_loss := true;
       args_length_k := 30; args_length_lambda := 1%R;
       args_enable_length_bp_penalty := true |}
    uniform_discriminator 2.

(** The plain trainer over reals with not-a-number, and a model output whose
    loss is not a number. *)
Definition plain_trainer : Trainer NanReal :=
  Trainer_init
    {| adv := false; adv_lambda := Some 1%R; adv_steps := 0;
       args_full_adv := false; args_enable_length_loss := false;
       args_length_k := 30; args_length_lambda := Some 1%R;
       args_enable_length_bp_penalty := false |}
    (fun _ _ => [Some (ln (1 / 2)); Some (ln (1 / 2))]%R) 2.

Definition nan_outputs : Outputs NanReal := {|
  outputs_loss := None;
  outputs_start_logits := [repeat None 384];
  outputs_end_logits := [repeat None 384];
  last_hidden_states := [repeat [None] 384]
|}.

(** Length-based reweighting over reals with not-a-number. *)
Definition reweighting_trainer : Trainer NanReal :=
  Trainer_init
    {| adv := false; adv_lambda := Some 1%R; adv_steps := 0;
       args_full_adv := false; args_enable_length_loss := false;
       args_length_k := 30; args_length_lambda := Some 1%R;
       args_enable_length_bp_penalty := true |}
    (fun _ _ => [Some (ln (1 / 2)); Some (ln (1 / 2))]%R) 2.

(** Logits over 384 positions whose maximum is at position 1, and at
    position 0. *)
Definition peak_at_one : list R := 0%R :: 1%R :: repeat 0%R 382.

Definition peak_at_zero : list R := 1%R :: repeat 0%R 383.

(** Three examples, two of them in-domain. *)
Definition mixed_batch : Batch := {|
  input_ids := [repeat 0%Z 384; repeat 0%Z 384; repeat 0%Z 384];
  start_positions := [3%Z; 3%Z; 3%Z];
  end_positions := [5%Z; 5%Z; 5%Z];
  data_set_id := [0%Z; 1%Z; 4%Z]
|}.

Definition mixed_outputs : Outputs R := {|
  outputs_loss := 0%R;
  outputs_start_logits := [repeat 0%R 384; repeat 0%R 384; repeat 0%R 384];
  outputs_end_logits := [repeat 0%R 384; repeat 0%R 384; repeat 0%R 384];
  last_hidden_states := [repeat [0%R] 384; repeat [0%R] 384; repeat [0%R] 384]
|}.


(** ** Further parts of the source *)

(** Lines 153-157 of [Trainer.__init__] (and 468-472 of [main]): the sizes
    the discriminator is built with. *)
Definition discriminator_input_size (full : bool) : Z :=
  if full then 384 * 768 else 768.

Definition discriminator_hidden_embed (full : bool) : Z :=
  if full then 48 else 768.

(** The number of in-domain examples of a batch: line 248. *)
Definition indomain_count (data_set_ids : list Z) : nat :=
  length (filter (fun d => (d <? 3)%Z) data_set_ids).

(** The divergence of one vector of log-probabilities from the uniform
    distribution over [classes] classes, as lines 247 and 253-254 sum it. *)
Definition kl_to_uniform (classes : Z) (log_prob : list R) : R :=
  tsum (map (fun x => kl_point x (1 * (1 / IZR classes))%R) log_prob).

(** The events a turn of the loop of lines 378-384 can leave. *)
Definition is_loop_event {T : Type} (e : event T) : bool :=
  match e with
  | dis_optim_step | dis_optim_zero_grad | discriminator_loss_backward _ => true
  | _ => false
  end.

(** The values written to TensorBoard under one tag, in order. *)
Definition logged {T : Type} (tag : string) (tr : list (event T)) : list T :=
  flat_map (fun e => match e with
                     | tbx_add_scalar t v => if String.eqb t tag then [v] else []
                     | _ => []
                     end) tr.

(** ** The loop over epochs and batches, lines 276-416 *)

(** The dictionaries of scores: [best_scores] starts with the keys [F1]
    and [EM] only, what [evaluate] returns has [discriminator_precision]
    as well. *)
Record Scores : Type := {
  F1 : R;
  EM : R;
  discriminator_precision : option R
}.

(** Lines 219-229 of [evaluate]: the results by split. *)
Definition evaluation_results (validation : bool) (f1 em precision : R)
  : Scores :=
  if validation
  then {| F1 := f1; EM := em; discriminator_precision := Some precision |}
  else {| F1 := (-1)%R; EM := (-1)%R;
          discriminator_precision := Some (-1)%R |}.

(** What the loop does besides the passes: an evaluation at a step, with
    its scores, and a checkpoint saved at a step. *)
Inductive loop_event : Type :=
| evaluated (step : Z) (score : Scores)
| saved (step : Z).

Record LoopState : Type := {
  global_idx : Z;
  best_scores : Scores;
  loop_trace : list loop_event
}.

(** Lines 276-277. *)
Definition initial_best_scores : Scores :=
  {| F1 := (-1)%R; EM := (-1)%R; discriminator_precision := None |}.

Definition initial_loop_state : LoopState :=
  {| global_idx := 0%Z; best_scores := initial_best_scores;
     loop_trace := [] |}.

(** The test of line 395, once [eval_every] is not zero. *)
Definition evaluation_due (eval_every idx : Z) : bool :=
  ((idx mod eval_every =? 0) && (idx >? 0))%Z.

(** Lines 395-415: what follows the pass of one batch.  [evaluate] stands
    for the call of line 399 at a step; [%] by zero raises. *)
Definition after_batch (eval_every : Z) (evaluate : Z -> result Scores)
           (st : LoopState) : result LoopState :=
  if (eval_every =? 0)%Z then Raise ZeroDivisionError
  else
    rbind
      (if evaluation_due eval_every (global_idx st)
       then rbind (evaluate (global_idx st)) (fun curr_score =>
              if Rle_dec (F1 (best_scores st)) (F1 curr_score)
              then Ok {| global_idx := global_idx st;
                         best_scores := curr_score;
                         loop_trace := loop_trace st
                                         ++ [evaluated (global_idx st) curr_score;
                                             saved (global_idx st)] |}
              else Ok {| global_idx := global_idx st;
                         best_scores := best_scores st;
                         loop_trace := loop_trace st
                                         ++ [evaluated (global_idx st)
                                                       curr_score] |})
       else Ok st)
      (fun st' =>
         Ok {| global_idx := (global_idx st' + 1)%Z;
               best_scores := best_scores st';
               loop_trace := loop_trace st' |}).

(** One batch as the loop meets it: the trainer as it stands, the batch
    and what the model answers on it. *)
Definition Step : Type := (Trainer R * Batch * Outputs R)%type.

Definition pass_outcome (s : Step) : result unit :=
  let '(self, batch, outputs) := s in
  snd (train_batch self batch outputs initial_state).

(** Lines 283-415: the batches of one epoch. *)
Fixpoint run_batches (eval_every : Z) (evaluate : Z -> result Scores)
         (steps : list Step) (st : LoopState) : result LoopState :=
  match steps with
  | [] => Ok st
  | s :: rest =>
      rbind (pass_outcome s) (fun _ =>
      rbind (after_batch eval_every evaluate st)
            (run_batches eval_every evaluate rest))
  end.

(** Lines 280-415: the epochs, each with the batches its data loader
    yields. *)
Fixpoint run_epochs (eval_every : Z) (evaluate : Z -> result Scores)
         (epochs : list (list Step)) (st : LoopState) : result LoopState :=
  match epochs with
  | [] => Ok st
  | epoch :: rest =>
      rbind (run_batches eval_every evaluate epoch st)
            (run_epochs eval_every evaluate rest)
  end.

Definition train_state (eval_every : Z) (evaluate : Z -> result Scores)
           (epochs : list (list Step)) : result LoopState :=
  run_epochs eval_every evaluate epochs initial_loop_state.

(** Lines 276-416: [Trainer.train] returns [best_scores]. *)
Definition train (eval_every : Z) (evaluate : Z -> result Scores)
           (epochs : list (list Step)) : result Scores :=
  rbind (train_state eval_every evaluate epochs) (fun st =>
  Ok (best_scores st)).

(** The steps at which a trace has an evaluation, and a checkpoint. *)
Definition evaluated_steps (tr : list loop_event) : list Z :=
  flat_map (fun e => match e with evaluated i _ => [i] | saved _ => [] end) tr.

Definition saved_steps (tr : list loop_event) : list Z :=
  flat_map (fun e => match e with saved i => [i] | evaluated _ _ => [] end) tr.

(** What line 412 keeps in [best_scores]: either no evaluation has reached
    the initial [F1] of -1 and nothing was saved, or [best] is the score of
    the evaluation behind the last checkpoint, no earlier evaluation scored
    a higher [F1] and every later one scored a lower [F1]. *)
Definition last_best (best : Scores) (tr : list loop_event) : Prop :=
  (best = initial_best_scores
   /\ saved_steps tr = []
   /\ forall i sc, In (evaluated i sc) tr -> (F1 sc < -1)%R)
  \/ (exists pre post i,
        tr = pre ++ [evaluated i best; saved i] ++ post
        /\ (forall j sc, In (evaluated j sc) pre -> (F1 sc <= F1 best)%R)
        /\ saved_steps post = []
        /\ (forall j sc, In (evaluated j sc) post -> (F1 sc < F1 best)%R)).

(** A batch whose pass raises no exception, and one whose pass raises. *)
Definition completing_step : Step :=
  (adversarial_trainer, one_example, flat_outputs).

Definition raising_step : Step :=
  (adversarial_trainer, mixed_batch, mixed_outputs).

(** ** Labelling one training feature: [prepare_train_data], lines 72-117 *)

(** Python's [l[i]] for an integer [i]: a negative index counts from the
    end of the list, and an index outside [-len(l) .. len(l) - 1] raises
    [IndexError]. *)
Definition py_index {A : Type} (l : list A) (i : Z) : result A :=
  let n := Z.of_nat (length l) in
  let j := if (i <? 0)%Z then (i + n)%Z else i in
  if ((0 <=? j) && (j <? n))%Z
  then match nth_error l (Z.to_nat j) with
       | Some x => Ok x
       | None => Raise IndexError
       end
  else Raise IndexError.

(** [l.index(x)]: the first position of [x], or [ValueError]. *)
Fixpoint list_index (x : Z) (l : list Z) : result Z :=
  match l with
  | [] => Raise ValueError
  | y :: rest =>
      if (y =? x)%Z then Ok 0%Z
      else rbind (list_index x rest) (fun i => Ok (i + 1)%Z)
  end.

(** [while cond: body] on a state, for [fuel] tests of the condition at
    most; [None] when the fuel runs out before the loop has ended. *)
Fixpoint while_loop {S : Type} (fuel : nat) (cond : S -> result bool)
         (body : S -> S) (s : S) : option (result S) :=
  match fuel with
  | O => None
  | Datatypes.S fuel' =>
      match cond s with
      | Raise e => Some (Raise e)
      | Ok false => Some (Ok s)
      | Ok true => while_loop fuel' cond body (body s)
      end
  end.

(** Sequencing of computations that may run out of fuel or raise. *)
Definition lbind {A B : Type} (m : option (result A))
           (k : A -> option (result B)) : option (result B) :=
  match m with
  | None => None
  | Some (Raise e) => Some (Raise e)
  | Some (Ok a) => k a
  end.

(** What lines 100-111 append to [start_positions] and [end_positions]:
    the index of the CLS token twice, or the two ends of the answer; the
    offsets of lines 114-115 are kept with the latter. *)
Inductive labelling : Type :=
| OutOfSpan (cls_index : Z)
| InSpan (start_position end_position offset_st offset_en : Z).

Definition labelled_start (l : labelling) : Z :=
  match l with
  | OutOfSpan cls_index => cls_index
  | InSpan start_position _ _ _ => start_position
  end.

Definition labelled_end (l : labelling) : Z :=
  match l with
  | OutOfSpan cls_index => cls_index
  | InSpan _ end_position _ _ => end_position
  end.

(** [sequence_ids[k] != 1], where a sequence id is [None], 0 or 1. *)
Definition not_context (sequence_ids : list (option Z)) (k : Z) : result bool :=
  rbind (py_index sequence_ids k) (fun s =>
  Ok (match s with Some 1%Z => false | _ => true end)).

(** The test of line 106 and the test of line 109. *)
Definition starts_by (offsets : list (Z * Z)) (start_char : Z) (k : Z)
  : result bool :=
  if (k <? Z.of_nat (length offsets))%Z
  then rbind (py_index offsets k) (fun o => Ok (fst o <=? start_char)%Z)
  else Ok false.

Definition ends_from (offsets : list (Z * Z)) (end_char : Z) (k : Z)
  : result bool :=
  rbind (py_index offsets k) (fun o => Ok (end_char <=? snd o)%Z).

(** The test of line 100, before its negation: [and] looks at its second
    operand only when the first holds. *)
Definition answer_in_span (offsets : list (Z * Z)) (start_char end_char : Z)
           (token_start_index token_end_index : Z) : result bool :=
  rbind (py_index offsets token_start_index) (fun o1 =>
  if (fst o1 <=? start_char)%Z
  then rbind (py_index offsets token_end_index) (fun o2 =>
       Ok (end_char <=? snd o2)%Z)
  else Ok false).

(** Lines 74-75, 84-85 and 89-115 for one feature: [input_ids],
    [sequence_ids] and [offsets] are what the tokenizer gave for it,
    [start_char] and [answer_length] come from the answer of its
    example. *)
Definition label_feature (fuel : nat) (cls_token_id : Z) (input_ids : list Z)
           (sequence_ids : list (option Z)) (offsets : list (Z * Z))
           (start_char : Z) (answer_length : nat)
  : option (result labelling) :=
  lbind (Some (list_index cls_token_id input_ids)) (fun cls_index =>
  let end_char := (start_char + Z.of_nat answer_length)%Z in
  lbind (while_loop fuel (not_context sequence_ids) (fun k => (k + 1)%Z) 0%Z)
        (fun token_start_index =>
  lbind (while_loop fuel (not_context sequence_ids) (fun k => (k - 1)%Z)
                    (Z.of_nat (length input_ids) - 1)%Z)
        (fun token_end_index =>
  lbind (Some (answer_in_span offsets start_char end_char
                              token_start_index token_end_index))
        (fun inside =>
  if negb inside then Some (Ok (OutOfSpan cls_index))
  else
    lbind (while_loop fuel (starts_by offsets start_char)
                      (fun k => (k + 1)%Z) token_start_index)
          (fun token_start_index' =>
    let start_position := (token_start_index' - 1)%Z in
    lbind (while_loop fuel (ends_from offsets end_char)
                      (fun k => (k - 1)%Z) token_end_index)
          (fun token_end_index' =>
    let end_position := (token_end_index' + 1)%Z in
    lbind (Some (py_index offsets start_position)) (fun o_st =>
    lbind (Some (py_index offsets end_position)) (fun o_en =>
    Some (Ok (InSpan start_position end_position
                     (fst o_st) (snd o_en))))))))))).

(** Fuel that is enough for every loop of [label_feature]. *)
Definition label_fuel (input_ids : list Z) (sequence_ids : list (option Z))
           (offsets : list (Z * Z)) : nat :=
  2 * (length input_ids + length sequence_ids + length offsets) + 3.

(** A feature of six tokens: CLS, one question token, SEP, two context
    tokens covering the characters 0-3 and 4-9 of the context, SEP. *)
Definition small_input_ids : list Z := [101; 7; 102; 8; 9; 102]%Z.

Definition small_sequence_ids : list (option Z) :=
  [None; Some 0; None; Some 1; Some 1; None]%Z.

Definition small_offsets : list (Z * Z) :=
  [(0, 0); (0, 5); (0, 0); (0, 3); (4, 9); (0, 0)]%Z.

(* ================================================================== *)
(** * Theorems *)

(** ** Lists as tensors *)

Section TensorFacts.
Context {T : Type} `{Scalar T}.

Lemma nth_nil_default (A : Type) (n : nat) (d : A) : nth n [] d = d.
Proof. destruct n; reflexivity. Qed.

Lemma nth_map_seq (A : Type) (f : nat -> A) (n a i : nat) (d : A) :
  (i < n)%nat -> nth i (map f (seq a n)) d = f (a + i)%nat.
Proof.
  revert a i; induction n as [|n IH]; intros a i Hi; [lia|].
  destruct i as [|i]; simpl.
  - f_equal; lia.
  - rewrite IH by lia. f_equal; lia.
Qed.

Lemma nth_combine_seq (A : Type) (f : nat * A -> A) (l : list A)
      (a i : nat) (d : A) :
  (i < length l)%nat ->
  nth i (map f (combine (seq a (length l)) l)) d
  = f ((a + i)%nat, nth i l d).
Proof.
  revert a i; induction l as [|x l IH]; intros a i Hi; simpl in *; [lia|].
  destruct i as [|i].
  - now rewrite Nat.add_0_r.
  - rewrite IH by lia. do 2 f_equal; lia.
Qed.

Lemma slice_fill_length (lo hi : Z) (v : T) (row : list T) :
  length (slice_fill lo hi v row) = length row.
Proof.
  unfold slice_fill.
  now rewrite length_map, length_combine, length_seq, Nat.min_id.
Qed.

Lemma slice_fill_nth (lo hi : Z) (v : T) (row : list T) (j : nat) (d : T) :
  (j < length row)%nat ->
  nth j (slice_fill lo hi v row) d
  = if (slice_bound (length row) lo <=? j)%nat
       && (j <? slice_bound (length row) hi)%nat
    then v else nth j row d.
Proof.
  intros Hj. unfold slice_fill.
  rewrite (nth_combine_seq _ row 0 d Hj). reflexivity.
Qed.

Lemma update_row_length (i : nat) (f : list T -> list T) (m : list (list T)) :
  length (update_row i f m) = length m.
Proof.
  revert i; induction m as [|r m IH]; intros [|i]; simpl; auto.
Qed.

Lemma update_row_nth (i r : nat) (f : list T -> list T) (m : list (list T)) :
  (i < length m)%nat ->
  nth r (update_row i f m) [] = if (r =? i)%nat then f (nth r m []) else nth r m [].
Proof.
  revert i r; induction m as [|x m IH]; intros i r Hi; simpl in *; [lia|].
  destruct i as [|i], r as [|r]; simpl; auto.
  apply IH; lia.
Qed.

(** The loop [for i in range(a, a+n): m[i] = f i m[i]] touches each of
    these rows once. *)
Lemma fold_update_rows (f : nat -> list T -> list T) (n a : nat)
      (m : list (list T)) :
  (a + n <= length m)%nat ->
  length (fold_left (fun m i => update_row i (f i) m) (seq a n) m) = length m
  /\ forall r,
      nth r (fold_left (fun m i => update_row i (f i) m) (seq a n) m) []
      = if (a <=? r)%nat && (r <? a + n)%nat then f r (nth r m [])
        else nth r m [].
Proof.
  revert a m; induction n as [|n IH]; intros a m Hlen; simpl.
  - split; [reflexivity|]. intros r.
    destruct (a <=? r)%nat eqn:E1; simpl; auto.
    destruct (r <? a + 0)%nat eqn:E2; auto.
    apply Nat.leb_le in E1. apply Nat.ltb_lt in E2. lia.
  - destruct (IH (S a) (update_row a (f a) m)) as [IHlen IHnth].
    { rewrite update_row_length. lia. }
    split.
    + rewrite IHlen. apply update_row_length.
    + intros r. rewrite IHnth. rewrite update_row_nth by lia.
      destruct (Nat.eq_dec r a) as [->|Hne].
      * rewrite Nat.eqb_refl.
        replace (S a <=? a)%nat with false by (symmetry; apply Nat.leb_gt; lia).
        replace (a <=? a)%nat with true by (symmetry; apply Nat.leb_le; lia).
        replace (a <? a + S n)%nat with true by (symmetry; apply Nat.ltb_lt; lia).
        reflexivity.
      * replace (r =? a)%nat with false by (symmetry; apply Nat.eqb_neq; lia).
        replace (r <? a + S n)%nat with (r <? S a + n)%nat by (f_equal; lia).
        destruct (S a <=? r)%nat eqn:E1, (a <=? r)%nat eqn:E2; simpl; auto.
        -- apply Nat.leb_le in E1. apply Nat.leb_gt in E2. lia.
        -- apply Nat.leb_gt in E1. apply Nat.leb_le in E2.
           replace (r <? S a + n)%nat with true; [|symmetry; apply Nat.ltb_lt; lia].
           exfalso; lia.
Qed.

Lemma ones_nth (rows cols r : nat) :
  (r < rows)%nat -> nth r (ones rows cols) [] = repeat tone cols.
Proof.
  intros Hr. unfold ones. apply nth_repeat_lt. exact Hr.
Qed.

Lemma column_nth (j r : nat) (m : list (list T)) :
  nth r (column j m) tzero = nth j (nth r m []) tzero.
Proof.
  unfold column.
  rewrite <- (nth_nil_default j tzero) at 1.
  apply (map_nth (fun row => nth j row tzero)).
Qed.

Lemma transpose_nth (i j : nat) (m : list (list T)) :
  (i < ncols m)%nat ->
  nth j (nth i (transpose m) []) tzero = nth i (nth j m []) tzero.
Proof.
  intros Hi. unfold transpose.
  rewrite (nth_map_seq (fun j => column j m) 0 [] Hi). simpl.
  apply column_nth.
Qed.

Lemma hd_nth0 (A : Type) (l : list A) (d : A) : hd d l = nth 0 l d.
Proof. destruct l; reflexivity. Qed.

Lemma transpose_length (m : list (list T)) :
  length (transpose m) = ncols m.
Proof. unfold transpose. now rewrite length_map, length_seq. Qed.

Lemma transpose_row_length (i : nat) (m : list (list T)) :
  (i < ncols m)%nat -> length (nth i (transpose m) []) = length m.
Proof.
  intros Hi. unfold transpose.
  rewrite (nth_map_seq (fun j => column j m) 0 [] Hi).
  unfold column. apply length_map.
Qed.

Lemma filled_rows_length (L : nat) (k : Z) : length (filled_rows L k) = L.
Proof.
  unfold filled_rows.
  destruct (fold_update_rows
              (fun i => slice_fill (Z.of_nat i) (Z.of_nat i + k + 1) tzero)
              L 0 (ones L L)) as [Hlen _].
  - unfold ones. rewrite repeat_length. lia.
  - rewrite Hlen. unfold ones. apply repeat_length.
Qed.

Lemma filled_rows_nth (L : nat) (k : Z) (r : nat) :
  (r < L)%nat ->
  nth r (filled_rows L k) []
  = slice_fill (Z.of_nat r) (Z.of_nat r + k + 1) tzero (repeat tone L).
Proof.
  intros Hr. unfold filled_rows.
  destruct (fold_update_rows
              (fun i => slice_fill (Z.of_nat i) (Z.of_nat i + k + 1) tzero)
              L 0 (ones L L)) as [_ Hnth].
  - unfold ones. rewrite repeat_length. lia.
  - rewrite Hnth. simpl.
    replace (r <? L)%nat with true by (symmetry; apply Nat.ltb_lt; lia).
    now rewrite ones_nth.
Qed.

Lemma filled_rows_ncols (L : nat) (k : Z) : ncols (filled_rows L k) = L.
Proof.
  unfold ncols. rewrite hd_nth0.
  destruct L as [|L].
  - reflexivity.
  - rewrite filled_rows_nth by lia.
    now rewrite slice_fill_length, repeat_length.
Qed.

Lemma filled_rows_entry (L : nat) (k : Z) (r c : nat) :
  (r < L)%nat -> (c < L)%nat -> (0 <= k)%Z ->
  entry (filled_rows L k) r c
  = if (r <=? c)%nat && (Z.of_nat c <=? Z.of_nat r + k)%Z then tzero else tone.
Proof.
  intros Hr Hc Hk. unfold entry.
  rewrite filled_rows_nth by exact Hr.
  rewrite slice_fill_nth by (rewrite repeat_length; exact Hc).
  rewrite repeat_length, nth_repeat_lt by exact Hc.
  unfold slice_bound.
  replace (Z.of_nat r <? 0)%Z with false by (symmetry; apply Z.ltb_ge; lia).
  replace (Z.of_nat r + k + 1 <? 0)%Z with false
    by (symmetry; apply Z.ltb_ge; lia).
  rewrite Nat2Z.id.
  replace (Nat.min r L) with r by lia.
  destruct (r <=? c)%nat eqn:E1; simpl; [|reflexivity].
  destruct (Z.of_nat c <=? Z.of_nat r + k)%Z eqn:E2.
  - replace (c <? Nat.min (Z.to_nat (Z.of_nat r + k + 1)) L)%nat with true;
      [reflexivity|].
    symmetry. apply Nat.ltb_lt. apply Z.leb_le in E2. lia.
  - replace (c <? Nat.min (Z.to_nat (Z.of_nat r + k + 1)) L)%nat with false;
      [reflexivity|].
    symmetry. apply Nat.ltb_ge. apply Z.leb_gt in E2. lia.
Qed.

(** Entry [(i, j)] of the mask the trainer keeps is entry [(j, i)] of the
    rows filled by the loop. *)
Lemma length_mask_entry (L : nat) (k : Z) (i j : nat) :
  (i < L)%nat -> (j < L)%nat -> (0 <= k)%Z ->
  entry (length_mask L k) i j
  = if (j <=? i)%nat && (Z.of_nat i <=? Z.of_nat j + k)%Z then tzero else tone.
Proof.
  intros Hi Hj Hk.
  change (length_mask L k) with (transpose (filled_rows L k)).
  unfold entry. rewrite transpose_nth by (rewrite filled_rows_ncols; exact Hi).
  apply (filled_rows_entry Hj Hi Hk).
Qed.

Lemma length_mask_shape (L : nat) (k : Z) :
  length (length_mask (T:=T) L k) = L
  /\ forall i, (i < L)%nat -> length (nth i (length_mask (T:=T) L k) []) = L.
Proof.
  change (length_mask L k) with (transpose (filled_rows L k)).
  split.
  - now rewrite transpose_length, filled_rows_ncols.
  - intros i Hi. rewrite transpose_row_length.
    + apply filled_rows_length.
    + now rewrite filled_rows_ncols.
Qed.

End TensorFacts.

Open Scope R_scope.

Example mask_5_1 :
  test_length_mask (T:=R) 1 =
  [[0;1;1;1;1];[0;0;1;1;1];[1;0;0;1;1];[1;1;0;0;1];[1;1;1;0;0]].
Proof. reflexivity. Qed.

(** ** Sums over the reals *)

Lemma tsum_nil : tsum (@nil R) = 0.
Proof. reflexivity. Qed.

Lemma tsum_cons (x : R) (v : list R) : tsum (x :: v) = x + tsum v.
Proof. reflexivity. Qed.

Lemma tsum_app (u v : list R) : tsum (u ++ v) = tsum u + tsum v.
Proof.
  induction u as [|x u IH]; simpl.
  - try rewrite tsum_nil; lra.
  - rewrite !tsum_cons, IH. lra.
Qed.

Lemma tsum_concat (vs : list (list R)) : tsum (concat vs) = tsum (map tsum vs).
Proof.
  induction vs as [|v vs IH]; simpl; [reflexivity|].
  now rewrite tsum_app, tsum_cons, IH.
Qed.

Lemma tsum_map_ext (A : Type) (f g : A -> R) (l : list A) :
  (forall x, In x l -> f x = g x) -> tsum (map f l) = tsum (map g l).
Proof. intros Hfg. f_equal. now apply map_ext_in. Qed.

Lemma tsum_map_scale (A : Type) (c : R) (f : A -> R) (l : list A) :
  tsum (map (fun x => c * f x) l) = c * tsum (map f l).
Proof.
  induction l as [|x l IH]; simpl.
  - try rewrite tsum_nil; lra.
  - rewrite !tsum_cons, IH. lra.
Qed.

Lemma tsum_map_nonneg (A : Type) (f : A -> R) (l : list A) :
  (forall x, In x l -> 0 <= f x) -> 0 <= tsum (map f l).
Proof.
  induction l as [|x l IH]; intros Hf; simpl.
  - try rewrite tsum_nil; lra.
  - rewrite tsum_cons.
    assert (0 <= f x) by (apply Hf; now left).
    assert (0 <= tsum (map f l)) by (apply IH; intros; apply Hf; now right).
    lra.
Qed.

Lemma tsum_map_le (A : Type) (f g : A -> R) (l : list A) :
  (forall x, In x l -> f x <= g x) -> tsum (map f l) <= tsum (map g l).
Proof.
  induction l as [|x l IH]; intros Hf; simpl.
  - lra.
  - rewrite !tsum_cons.
    assert (f x <= g x) by (apply Hf; now left).
    assert (tsum (map f l) <= tsum (map g l))
      by (apply IH; intros; apply Hf; now right).
    lra.
Qed.

(** A list is the list of its entries. *)
Lemma list_as_map_nth (A : Type) (l : list A) (d : A) :
  l = map (fun i => nth i l d) (seq 0 (length l)).
Proof.
  induction l as [|x l IH]; simpl; [reflexivity|].
  f_equal. rewrite <- seq_shift, map_map. exact IH.
Qed.

Lemma tsum_as_seq (v : list R) :
  tsum v = tsum (map (fun i => nth i v 0) (seq 0 (length v))).
Proof. now rewrite <- list_as_map_nth. Qed.

Lemma nth_map_lt (A B : Type) (f : A -> B) (l : list A) (i : nat) (d : A) (d' : B) :
  (i < length l)%nat -> nth i (map f l) d' = f (nth i l d).
Proof.
  intros Hi. rewrite (nth_indep _ d' (f d)) by (now rewrite length_map).
  apply map_nth.
Qed.

Lemma combine_as_seq (A B : Type) (a : list A) (b : list B) (da : A) (db : B) :
  length a = length b ->
  combine a b = map (fun i => (nth i a da, nth i b db)) (seq 0 (length a)).
Proof.
  revert b; induction a as [|x a IH]; intros [|y b] Hlen; simpl in *;
    try discriminate; [reflexivity|].
  f_equal. rewrite <- seq_shift, map_map. apply IH. lia.
Qed.

Lemma dot_as_seq (a b : list R) :
  length a = length b ->
  dot a b = tsum (map (fun j => nth j a 0 * nth j b 0) (seq 0 (length a))).
Proof.
  intros Hlen. unfold dot.
  rewrite (combine_as_seq a b 0 0 Hlen), map_map. reflexivity.
Qed.

(** ** The trace of the masked outer product *)

Lemma outer_row (s e : list R) (i : nat) :
  (i < length s)%nat ->
  nth i (matmul (unsqueeze_col s) (unsqueeze_row e)) []
  = map (fun j => nth i s 0 * nth j e 0 + 0) (seq 0 (length e)).
Proof.
  intros Hi. unfold matmul, unsqueeze_col, unsqueeze_row.
  rewrite map_map.
  rewrite (nth_map_lt _ s 0 []) by exact Hi.
  reflexivity.
Qed.

Lemma outer_length (s e : list R) :
  length (matmul (unsqueeze_col s) (unsqueeze_row e)) = length s.
Proof. unfold matmul, unsqueeze_col. now rewrite !length_map. Qed.

Lemma has_shape_row (rows cols : nat) (m : list (list R)) (i : nat) :
  has_shape rows cols m -> (i < rows)%nat -> length (nth i m []) = cols.
Proof.
  intros [Hr Hc] Hi. rewrite Forall_forall in Hc.
  apply Hc, nth_In. lia.
Qed.

Lemma has_shape_ncols (rows cols : nat) (m : list (list R)) :
  has_shape rows cols m -> (0 < rows)%nat -> ncols m = cols.
Proof.
  intros Hm Hpos. unfold ncols. rewrite hd_nth0.
  now apply (has_shape_row (rows:=rows)).
Qed.

Lemma example_trace_sum (L : nat) (mask : list (list R)) (s e : list R) :
  has_shape L L mask -> length s = L -> length e = L ->
  example_trace mask s e
  = tsum (map (fun i =>
                 tsum (map (fun j => nth i s 0 * nth j e 0 * entry mask j i)
                           (seq 0 L)))
              (seq 0 L)).
Proof.
  intros Hm Hs He. unfold example_trace, transpose_1_1.
  destruct L as [|L].
  - destruct s; [|discriminate]. reflexivity.
  - set (A := matmul (unsqueeze_col s) (unsqueeze_row e)).
    assert (HlenA : length A = S L) by (unfold A; now rewrite outer_length).
    assert (Hnc : ncols mask = S L) by (apply (has_shape_ncols Hm); lia).
    assert (HlenM : length (matmul A mask) = S L)
      by (unfold matmul; now rewrite length_map).
    assert (Hrow : forall i, (i < S L)%nat ->
              nth i (matmul A mask) []
              = map (fun c => dot (nth i A []) (column c mask)) (seq 0 (S L))).
    { intros i Hi. unfold matmul at 1.
      rewrite (nth_map_lt _ A [] []) by lia. now rewrite Hnc. }
    unfold diagonal.
    assert (HncM : ncols (matmul A mask) = S L).
    { unfold ncols. rewrite hd_nth0, Hrow by lia.
      now rewrite length_map, length_seq. }
    rewrite HlenM, HncM, Nat.min_id.
    apply tsum_map_ext. intros i Hi. apply in_seq in Hi.
    rewrite Hrow by lia.
    rewrite (nth_map_seq (fun c => dot (nth i A []) (column c mask)) 0 0)
      by lia.
    simpl (0 + i)%nat.
    unfold A. rewrite outer_row by lia. rewrite He.
    rewrite dot_as_seq.
    + rewrite length_map, length_seq.
      apply tsum_map_ext. intros j Hj. apply in_seq in Hj.
      rewrite (nth_map_seq (fun j => nth i s 0 * nth j e 0 + 0) 0 0) by lia.
      simpl (0 + j)%nat.
      change (nth j (column i mask) 0) with (nth j (column i mask) tzero).
      rewrite column_nth. unfold entry. simpl. lra.
    + rewrite length_map, length_seq. unfold column. rewrite length_map.
      symmetry. apply Hm.
Qed.

Lemma length_mask_has_shape (L : nat) (k : Z) :
  has_shape L L (length_mask (T:=R) L k).
Proof.
  destruct (length_mask_shape (T:=R) L k) as [Hlen Hrows].
  split; [exact Hlen|].
  apply Forall_forall. intros r Hr.
  destruct (In_nth _ _ [] Hr) as [i [Hi <-]].
  apply Hrows. lia.
Qed.

Lemma softmax_length (v : list R) : length (softmax v) = length v.
Proof. unfold softmax. apply length_map. Qed.

(** The trace of lines 356-358 against the trainer's mask, as a weight of
    position pairs: a pair counts when the end lies before the start or
    more than [k] positions after it. *)
Lemma band_trace_mass (L : nat) (k : Z) (s e : list R) :
  (0 <= k)%Z -> length s = L -> length e = L ->
  example_trace (length_mask L k) s e
  = pair_mass (fun i j => (implied_length i j <=? 0)%Z
                          || (k + 1 <? implied_length i j)%Z) s e.
Proof.
  intros Hk Hs He.
  rewrite (@example_trace_sum L _ s e (length_mask_has_shape L k) Hs He).
  unfold pair_mass. rewrite Hs, He.
  apply tsum_map_ext. intros i Hi. apply in_seq in Hi.
  apply tsum_map_ext. intros j Hj. apply in_seq in Hj.
  rewrite length_mask_entry by lia.
  unfold implied_length. simpl.
  destruct (i <=? j)%nat eqn:E1; destruct (Z.of_nat j <=? Z.of_nat i + k)%Z eqn:E2;
    destruct (Z.of_nat j - Z.of_nat i + 1 <=? 0)%Z eqn:E3;
    destruct (k + 1 <? Z.of_nat j - Z.of_nat i + 1)%Z eqn:E4;
    simpl; try lra;
    repeat match goal with
           | E : (_ <=? _)%nat = true |- _ => apply Nat.leb_le in E
           | E : (_ <=? _)%nat = false |- _ => apply Nat.leb_gt in E
           | E : (_ <=? _)%Z = true |- _ => apply Z.leb_le in E
           | E : (_ <=? _)%Z = false |- _ => apply Z.leb_gt in E
           | E : (_ <? _)%Z = true |- _ => apply Z.ltb_lt in E
           | E : (_ <? _)%Z = false |- _ => apply Z.ltb_ge in E
           end; lia.
Qed.

(** ** C1: the length-band mask *)

(** C1, as the code has it: for every sequence length [L] and maximum answer
    length [k] with [0 <= k < L], the mask built at trainer construction is
    an [L] by [L] matrix whose entry [(i, j)] is 0 iff [0 <= i - j <= k] and
    1 otherwise: a band on one side of the diagonal, not a symmetric one. *)
Theorem length_mask_one_sided_band (L : nat) (k : Z) (i j : nat) :
  (0 <= k < Z.of_nat L)%Z -> (i < L)%nat -> (j < L)%nat ->
  has_shape L L (length_mask (T:=R) L k)
  /\ (entry (length_mask L k) i j = 0
      <-> (0 <= Z.of_nat i - Z.of_nat j <= k)%Z)
  /\ (~ (0 <= Z.of_nat i - Z.of_nat j <= k)%Z
      -> entry (length_mask L k) i j = 1).
Proof.
  intros Hk Hi Hj.
  split; [apply length_mask_has_shape|].
  rewrite length_mask_entry by lia. simpl.
  destruct (j <=? i)%nat eqn:E1; destruct (Z.of_nat i <=? Z.of_nat j + k)%Z eqn:E2;
    simpl;
    repeat match goal with
           | E : (_ <=? _)%nat = true |- _ => apply Nat.leb_le in E
           | E : (_ <=? _)%nat = false |- _ => apply Nat.leb_gt in E
           | E : (_ <=? _)%Z = true |- _ => apply Z.leb_le in E
           | E : (_ <=? _)%Z = false |- _ => apply Z.leb_gt in E
           end;
    (split; [split; intros; try lia; try lra | intros; try lia; try lra]).
Qed.

Lemma length_mask_one_sided_band_witness :
  has_shape 384 384 (length_mask (T:=R) 384 30)
  /\ (entry (length_mask 384 30) 12 7 = 0
      <-> (0 <= Z.of_nat 12 - Z.of_nat 7 <= 30)%Z)
  /\ (~ (0 <= Z.of_nat 12 - Z.of_nat 7 <= 30)%Z
      -> entry (length_mask 384 30) 12 7 = 1).
Proof.
  apply (@length_mask_one_sided_band 384 30 12 7); lia.
Defined.

(** C1 as the specification words it fails on the trainer's own mask: with
    [k = 1] the pair [(0, 1)] has [|i - j| <= k], and its entry is 1. *)
Lemma length_mask_not_symmetric :
  ~ (entry (Trainer_length_mask (T:=R) 1) 0 1 = 0
     <-> (Z.abs (Z.of_nat 0 - Z.of_nat 1) <= 1)%Z).
Proof.
  intros [_ Hback].
  assert (Hone : entry (Trainer_length_mask (T:=R) 1) 0 1 = 1).
  { unfold Trainer_length_mask. rewrite length_mask_entry by lia. reflexivity. }
  rewrite Hone in Hback.
  assert (1 = 0) by (apply Hback; simpl; lia).
  lra.
Qed.

(** ** C2: what the trace measures *)

(** C2, as the code has it: for every example, the trace of the product of
    the joint distribution [P_start(i) P_end(j)] with the length-band mask
    is the probability of the pairs whose end lies before the start or more
    than [k] positions after it: implied length [end - start + 1] at most 0
    or above [k + 1]. *)
Theorem trace_is_out_of_band_mass (L : nat) (k : Z)
        (start_logits end_logits : list R) :
  (0 <= k)%Z -> length start_logits = L -> length end_logits = L ->
  example_trace (length_mask L k) (softmax start_logits) (softmax end_logits)
  = pair_mass (fun i j => (implied_length i j <=? 0)%Z
                          || (k + 1 <? implied_length i j)%Z)
              (softmax start_logits) (softmax end_logits).
Proof.
  intros Hk Hs He.
  apply band_trace_mass; try exact Hk; now rewrite softmax_length.
Qed.

Lemma trace_is_out_of_band_mass_witness :
  example_trace (length_mask 5 1) (softmax [0; 0; 0; 0; 0])
                (softmax [0; 0; 0; 0; 0])
  = pair_mass (fun i j => (implied_length i j <=? 0)%Z
                          || (1 + 1 <? implied_length i j)%Z)
              (softmax [0; 0; 0; 0; 0]) (softmax [0; 0; 0; 0; 0]).
Proof.
  apply (@trace_is_out_of_band_mass 5 1 [0;0;0;0;0] [0;0;0;0;0]);
    [lia | reflexivity | reflexivity].
Defined.

(** C2 as the specification words it fails on the fixture of [test.py] with
    [k = 1] and all logits equal: the trace is 16/25, the probability of the
    pairs with implied length above [k] is 10/25. *)
Lemma trace_is_not_mass_of_lengths_above_k :
  example_trace (test_length_mask 1) (softmax [0; 0; 0; 0; 0])
                (softmax [0; 0; 0; 0; 0])
  <> pair_mass (fun i j => (1 <? implied_length i j)%Z)
               (softmax [0; 0; 0; 0; 0]) (softmax [0; 0; 0; 0; 0]).
Proof.
  unfold test_length_mask.
  rewrite band_trace_mass by (try lia; reflexivity).
  unfold pair_mass, softmax, implied_length.
  cbn. rewrite exp_0.
  replace (tsum [1; 1; 1; 1; 1]) with 5 by (unfold tsum; simpl; lra).
  repeat (rewrite tsum_cons || rewrite tsum_nil).
  lra.
Qed.

(** ** C7: the range of the expected-length penalty *)

Lemma Forall_nth_nonneg (p : list R) (i : nat) :
  Forall (fun x => 0 <= x) p -> 0 <= nth i p 0.
Proof.
  intros Hp. destruct (Nat.lt_ge_cases i (length p)) as [Hi|Hi].
  - rewrite Forall_forall in Hp. apply Hp, nth_In, Hi.
  - rewrite nth_overflow by exact Hi. lra.
Qed.

Lemma zero_one_entry (L : nat) (mask : list (list R)) (i j : nat) :
  has_shape L L mask -> zero_one mask -> (i < L)%nat -> (j < L)%nat ->
  entry mask i j = 0 \/ entry mask i j = 1.
Proof.
  intros Hm H01 Hi Hj. unfold entry, zero_one in *.
  rewrite Forall_forall in H01.
  assert (Hrow : In (nth i mask []) mask) by (apply nth_In; destruct Hm; lia).
  specialize (H01 _ Hrow). rewrite Forall_forall in H01.
  apply H01, nth_In.
  now rewrite (has_shape_row Hm Hi).
Qed.

Lemma outer_sum (s e : list R) :
  tsum (map (fun i =>
               tsum (map (fun j => nth i s 0 * nth j e 0) (seq 0 (length e))))
            (seq 0 (length s)))
  = tsum s * tsum e.
Proof.
  rewrite (tsum_as_seq s), (tsum_as_seq e).
  rewrite Rmult_comm, <- tsum_map_scale.
  apply tsum_map_ext. intros i _.
  rewrite tsum_map_scale. lra.
Qed.

Lemma example_trace_bounds (L : nat) (mask : list (list R)) (s e : list R) :
  has_shape L L mask -> zero_one mask ->
  length s = L -> length e = L -> is_simplex s -> is_simplex e ->
  0 <= example_trace mask s e <= 1.
Proof.
  intros Hm H01 Hs He [Hs0 Hs1] [He0 He1].
  rewrite (@example_trace_sum L mask s e Hm Hs He).
  assert (Hterm : forall i j, (i < L)%nat -> (j < L)%nat ->
            0 <= nth i s 0 * nth j e 0 * entry mask j i
            <= nth i s 0 * nth j e 0).
  { intros i j Hi Hj.
    pose proof (Forall_nth_nonneg i Hs0) as Hsi.
    pose proof (Forall_nth_nonneg j He0) as Hej.
    assert (0 <= nth i s 0 * nth j e 0) by (apply Rmult_le_pos; assumption).
    destruct (zero_one_entry Hm H01 Hj Hi) as [-> | ->]; lra. }
  split.
  - apply tsum_map_nonneg. intros i Hi. apply in_seq in Hi.
    apply tsum_map_nonneg. intros j Hj. apply in_seq in Hj.
    apply Hterm; lia.
  - rewrite <- (Rmult_1_l 1). rewrite <- Hs1 at 1. rewrite <- He1.
    rewrite <- outer_sum, Hs, He.
    apply tsum_map_le. intros i Hi. apply in_seq in Hi.
    apply tsum_map_le. intros j Hj. apply in_seq in Hj.
    apply Hterm; lia.
Qed.

Lemma combine_map_both (A B A' B' : Type) (f : A -> A') (g : B -> B')
      (a : list A) (b : list B) :
  combine (map f a) (map g b)
  = map (fun xy => (f (fst xy), g (snd xy))) (combine a b).
Proof.
  revert b; induction a as [|x a IH]; intros [|y b]; simpl; auto.
  now rewrite IH.
Qed.

(** Lines 353-359 over the batch: the mean of the traces of the examples. *)
Lemma expected_length_penalty_mean (batch_size : nat) (mask : list (list R))
      (ps pe : list (list R)) :
  expected_length_penalty batch_size mask ps pe
  = tsum (map (fun se => example_trace mask (fst se) (snd se)) (combine ps pe))
    / INR batch_size.
Proof.
  unfold expected_length_penalty, zip_with.
  rewrite combine_map_both, tsum_concat, !map_map.
  simpl. rewrite <- INR_IZR_INZ. reflexivity.
Qed.

Lemma softmax_simplex (v : list R) : v <> [] -> is_simplex (softmax v).
Proof.
  intros Hv. unfold softmax.
  assert (Hpos : 0 < tsum (map exp v)).
  { destruct v as [|x v]; [contradiction|]. simpl. rewrite tsum_cons.
    assert (0 <= tsum (map exp v))
      by (apply tsum_map_nonneg; intros; left; apply exp_pos).
    pose proof (exp_pos x). lra. }
  split.
  - apply Forall_forall. intros y Hy. apply in_map_iff in Hy.
    destruct Hy as [x [<- _]].
    apply Rlt_le, Rdiv_lt_0_compat; [apply exp_pos | exact Hpos].
  - simpl. set (z := tsum (map exp v)) in *.
    replace (map (fun x => exp x / z) v)
      with (map (fun x => / z * exp x) v)
      by (apply map_ext; intros; unfold Rdiv; apply Rmult_comm).
    rewrite tsum_map_scale. fold z. field. lra.
Qed.

(** C7: for every non-empty batch, if the length-band mask has entries in
    {0, 1} and the start and end distributions of every example are
    probability distributions over the [L] positions, the batch-averaged
    expected-length penalty lies in [[0, 1]]. *)
Theorem length_loss_in_unit_interval (L batch_size : nat)
        (mask : list (list R)) (start_logits end_logits : list (list R)) :
  has_shape L L mask -> zero_one mask ->
  (0 < batch_size)%nat ->
  length start_logits = batch_size -> length end_logits = batch_size ->
  Forall (fun p => length p = L /\ is_simplex p) (map softmax start_logits) ->
  Forall (fun p => length p = L /\ is_simplex p) (map softmax end_logits) ->
  0 <= length_loss batch_size mask start_logits end_logits <= 1.
Proof.
  intros Hm H01 Hpos Hls Hle Hs He.
  unfold length_loss. rewrite expected_length_penalty_mean.
  set (ps := map softmax start_logits) in *.
  set (pe := map softmax end_logits) in *.
  assert (Hlen : length (combine ps pe) = batch_size).
  { unfold ps, pe. rewrite length_combine, !length_map. lia. }
  assert (Hall : forall se, In se (combine ps pe) ->
            0 <= example_trace mask (fst se) (snd se) <= 1).
  { intros [s e] Hin. simpl.
    rewrite Forall_forall in Hs, He.
    destruct (Hs s (in_combine_l _ _ _ _ Hin)) as [Hsl Hss].
    destruct (He e (in_combine_r _ _ _ _ Hin)) as [Hel Hes].
    now apply (@example_trace_bounds L). }
  assert (Hsum : 0 <= tsum (map (fun se => example_trace mask (fst se) (snd se))
                                (combine ps pe))
                 <= INR (length (combine ps pe))).
  { clear Hlen. induction (combine ps pe) as [|se l IH].
    - simpl. rewrite tsum_nil. lra.
    - change (length (se :: l)) with (S (length l)).
      rewrite S_INR. simpl map. rewrite tsum_cons.
      assert (0 <= example_trace mask (fst se) (snd se) <= 1)
        by (apply Hall; now left).
      assert (0 <= tsum (map (fun se => example_trace mask (fst se) (snd se)) l)
              <= INR (length l))
        by (apply IH; intros; apply Hall; now right).
      lra. }
  rewrite Hlen in Hsum.
  assert (HB : 0 < INR batch_size) by (apply lt_0_INR; exact Hpos).
  split.
  - apply Rmult_le_pos; [lra | apply Rlt_le, Rinv_0_lt_compat, HB].
  - apply (Rmult_le_reg_r (INR batch_size)); [exact HB|].
    unfold Rdiv. rewrite Rmult_assoc, Rinv_l by lra. lra.
Qed.

(** The trainer's own mask meets the hypotheses of the bound. *)
Lemma length_mask_zero_one (L : nat) (k : Z) :
  (0 <= k)%Z -> zero_one (length_mask (T:=R) L k).
Proof.
  intros Hk. destruct (length_mask_shape (T:=R) L k) as [Hlen Hrows].
  apply Forall_forall. intros row Hrow.
  destruct (In_nth _ _ [] Hrow) as [i [Hi <-]].
  apply Forall_forall. intros x Hx.
  destruct (In_nth _ _ 0 Hx) as [j [Hj <-]].
  rewrite Hlen in Hi. rewrite Hrows in Hj by exact Hi.
  change (nth j (nth i (length_mask L k) []) 0)
    with (entry (length_mask (T:=R) L k) i j).
  rewrite length_mask_entry by lia.
  destruct ((j <=? i)%nat && (Z.of_nat i <=? Z.of_nat j + k)%Z);
    [now left | now right].
Qed.

Lemma length_loss_in_unit_interval_witness :
  0 <= length_loss 2 (test_length_mask 1)
         [[0; 0; 0; 0; 0]; [0; 0; 0; 0; 0]]
         [[0; 0; 0; 0; 0]; [0; 0; 0; 0; 0]] <= 1.
Proof.
  apply (@length_loss_in_unit_interval 5 2 (test_length_mask 1)
           [[0; 0; 0; 0; 0]; [0; 0; 0; 0; 0]]
           [[0; 0; 0; 0; 0]; [0; 0; 0; 0; 0]]).
  - apply length_mask_has_shape.
  - apply length_mask_zero_one. lia.
  - lia.
  - reflexivity.
  - reflexivity.
  - repeat (apply Forall_cons; [split; [reflexivity|apply softmax_simplex; discriminate]|]);
    apply Forall_nil.
  - repeat (apply Forall_cons; [split; [reflexivity|apply softmax_simplex; discriminate]|]);
    apply Forall_nil.
Defined.

(** ** C3: the weight of an example *)

Lemma zip_with_length (A B C : Type) (f : A -> B -> C) (a : list A) (b : list B) :
  length (zip_with f a b) = Nat.min (length a) (length b).
Proof. unfold zip_with. now rewrite length_map, length_combine. Qed.

Lemma combine_nth_lt (A B : Type) (a : list A) (b : list B) (i : nat)
      (da : A) (db : B) :
  (i < length a)%nat -> (i < length b)%nat ->
  nth i (combine a b) (da, db) = (nth i a da, nth i b db).
Proof.
  revert b i; induction a as [|x a IH]; intros [|y b] [|i] Ha Hb;
    simpl in *; try lia; auto.
  apply IH; lia.
Qed.

Lemma zip_with_nth (A B C : Type) (f : A -> B -> C) (a : list A) (b : list B)
      (i : nat) (da : A) (db : B) (d : C) :
  (i < length a)%nat -> (i < length b)%nat ->
  nth i (zip_with f a b) d = f (nth i a da) (nth i b db).
Proof.
  intros Ha Hb. unfold zip_with.
  rewrite (nth_map_lt _ (combine a b) (da, db)) by (rewrite length_combine; lia).
  now rewrite combine_nth_lt by lia.
Qed.

Lemma where_length (cond : list bool) (a b : list R) :
  length (where_ cond a b)
  = Nat.min (length cond) (Nat.min (length a) (length b)).
Proof. unfold where_. now rewrite zip_with_length, length_combine. Qed.

Lemma where_nth (cond : list bool) (a b : list R) (i : nat) :
  (i < length cond)%nat -> (i < length a)%nat -> (i < length b)%nat ->
  nth i (where_ cond a b) 0
  = if nth i cond false then nth i a 0 else nth i b 0.
Proof.
  intros Hc Ha Hb. unfold where_.
  rewrite (zip_with_nth _ cond (combine a b) false (0, 0) 0)
    by (try rewrite length_combine; lia).
  now rewrite combine_nth_lt by lia.
Qed.

Lemma Rmax_IZR_1 (z : Z) : Rmax (IZR z) 1 = IZR (Z.max z 1).
Proof.
  destruct (Z.le_ge_cases z 1) as [Hz|Hz].
  - rewrite Z.max_r by exact Hz. apply Rmax_right. now apply IZR_le.
  - rewrite Z.max_l by exact Hz. apply Rmax_left. now apply IZR_le.
Qed.

(** Lines 303-315 for example [b] of a batch. *)
Lemma weight_nth (batch_size : nat) (start_logits end_logits : list (list R))
      (start_positions end_positions : list Z) (b : nat) :
  length start_logits = batch_size -> length end_logits = batch_size ->
  length start_positions = batch_size -> length end_positions = batch_size ->
  (b < batch_size)%nat ->
  let pl := (argmax (nth b end_logits []) - argmax (nth b start_logits []) + 1)%Z in
  let gl := (nth b end_positions 0 - nth b start_positions 0 + 1)%Z in
  nth b (weight (length_reweighting batch_size start_logits end_logits
                   start_positions end_positions)) 0
  = if (pl >? 0)%Z
    then if (pl >? gl)%Z
         then exp (1 - Rmax (IZR gl) 1 / Rmax (IZR pl) 1)
         else 1
    else 1 * 2.
Proof.
  intros Hsl Hel Hsp Hep Hb pl gl.
  unfold length_reweighting. cbn [weight].
  set (pls := zip_with (fun e s => (e - s + 1)%Z)
                       (map argmax end_logits) (map argmax start_logits)).
  set (gls := zip_with (fun e s => (e - s + 1)%Z) end_positions start_positions).
  assert (Hpls : length pls = batch_size)
    by (unfold pls; rewrite zip_with_length, !length_map; lia).
  assert (Hgls : length gls = batch_size)
    by (unfold gls; rewrite zip_with_length; lia).
  assert (Hones : length (ones_vec (T:=R) batch_size) = batch_size)
    by (unfold ones_vec; apply repeat_length).
  assert (Hpl : nth b pls 0%Z = pl).
  { unfold pls, pl.
    rewrite (zip_with_nth _ _ _ 0%Z 0%Z 0%Z) by (rewrite length_map; lia).
    rewrite !(nth_map_lt _ _ [] 0%Z) by lia. reflexivity. }
  assert (Hgl : nth b gls 0%Z = gl).
  { unfold gls, gl. now rewrite (zip_with_nth _ _ _ 0%Z 0%Z 0%Z) by lia. }
  assert (Hmax : forall zs, length zs = batch_size ->
            nth b (zip_with tmax (map of_int zs) (ones_vec batch_size)) 0
            = Rmax (IZR (nth b zs 0%Z)) 1).
  { intros zs Hzs.
    rewrite (zip_with_nth _ _ _ 0 0 0) by (try rewrite length_map; lia).
    rewrite (nth_map_lt _ _ 0%Z 0) by lia.
    unfold ones_vec. rewrite nth_repeat_lt by lia. reflexivity. }
  rewrite where_nth;
    try (rewrite ?where_length, ?length_map, ?zip_with_length, ?length_map,
           ?zip_with_length, ?length_map; lia).
  rewrite (nth_map_lt _ _ 0%Z false) by lia.
  rewrite Hpl.
  rewrite where_nth;
    try (rewrite ?length_map, ?zip_with_length, ?zip_with_length, ?length_map;
         lia).
  rewrite (zip_with_nth _ _ _ 0%Z 0%Z false) by lia.
  rewrite Hpl, Hgl.
  rewrite (nth_map_lt _ _ 0 0)
    by (rewrite !zip_with_length, !length_map; lia).
  rewrite (zip_with_nth _ _ _ 0 0 0)
    by (rewrite zip_with_length, length_map; lia).
  rewrite !Hmax by assumption. rewrite Hpl, Hgl.
  rewrite (nth_map_lt _ _ 0 0) by lia.
  unfold ones_vec. rewrite !nth_repeat_lt by lia.
  reflexivity.
Qed.

(** The conditional replacements of lines 311-315 compute the rule of the
    specification: where line 311 compares with the unclamped gold length,
    the two differ only for a predicted length of 1 against a gold length
    below 1, and there the base weight is [exp 0]. *)
Lemma replacements_are_weight_rule (pl gl : Z) :
  (if (pl >? 0)%Z
   then if (pl >? gl)%Z
        then exp (1 - Rmax (IZR gl) 1 / Rmax (IZR pl) 1)
        else 1
   else 1 * 2)
  = weight_rule pl gl.
Proof.
  unfold weight_rule, base_weight. rewrite !Rmax_IZR_1.
  destruct (Z.gtb_spec pl 0) as [Hp|Hp];
    destruct (Z.leb_spec pl 0) as [Hq|Hq]; try lia; [|lra].
  destruct (Z.gtb_spec pl gl) as [Hg|Hg];
    destruct (Z.leb_spec pl (Z.max gl 1)) as [Hm|Hm]; try lia; try reflexivity.
  assert (pl = 1%Z) by lia. subst pl.
  replace (Z.max gl 1) with 1%Z by lia.
  replace (Z.max 1 1) with 1%Z by lia.
  replace (1 - 1 / 1) with 0 by lra.
  apply exp_0.
Qed.

(** C3, as the code has it: for every batch and every example of it, with
    the predicted positions the argmax of the logits, the weight is the base
    weight [exp(1 - max(gold,1)/max(pred,1))], replaced by 1 when the
    predicted length is at most [max(gold,1)] and by 2 when it is at most 0,
    the last rule first. In particular a predicted length at most 0 weighs 2
    whatever the gold length, a predicted length equal to the gold length
    and at least 1 weighs 1, and a predicted length twice a gold length of
    at least 1 weighs [exp(1/2)]. *)
Theorem weight_follows_rule (batch_size : nat)
        (start_logits end_logits : list (list R))
        (start_positions end_positions : list Z) (b : nat) :
  length start_logits = batch_size -> length end_logits = batch_size ->
  length start_positions = batch_size -> length end_positions = batch_size ->
  (b < batch_size)%nat ->
  let predicted_length :=
    (argmax (nth b end_logits []) - argmax (nth b start_logits []) + 1)%Z in
  let gold_len := (nth b end_positions 0 - nth b start_positions 0 + 1)%Z in
  let w := nth b (weight (length_reweighting batch_size start_logits end_logits
                            start_positions end_positions)) 0 in
  w = weight_rule predicted_length gold_len
  /\ ((predicted_length <= 0)%Z -> w = 2)
  /\ (predicted_length = gold_len -> (1 <= predicted_length)%Z -> w = 1)
  /\ ((1 <= gold_len)%Z -> predicted_length = (2 * gold_len)%Z ->
      w = exp (1 / 2)).
Proof.
  intros Hsl Hel Hsp Hep Hb pl gl w.
  assert (Hw : w = weight_rule pl gl).
  { unfold w. rewrite (weight_nth _ _ _ _ Hsl Hel Hsp Hep Hb).
    apply replacements_are_weight_rule. }
  split; [exact Hw|]. rewrite Hw. unfold weight_rule, base_weight.
  repeat split.
  - intros Hp. destruct (Z.leb_spec pl 0); [reflexivity | lia].
  - intros Heq Hp.
    destruct (Z.leb_spec pl 0); [lia|].
    destruct (Z.leb_spec pl (Z.max gl 1)); [reflexivity | lia].
  - intros Hg Heq.
    destruct (Z.leb_spec pl 0); [lia|].
    destruct (Z.leb_spec pl (Z.max gl 1)); [lia|].
    f_equal. rewrite Heq.
    replace (Z.max gl 1) with gl by lia.
    replace (Z.max (2 * gl) 1) with (2 * gl)%Z by lia.
    rewrite mult_IZR.
    assert (0 < IZR gl) by (apply IZR_lt; lia).
    field. lra.
Qed.

Lemma argmax_from_step (best_i i : nat) (best x : R) (rest : list R) :
  argmax_from best_i best i (x :: rest)
  = if Rlt_dec best x then argmax_from i x (S i) rest
    else argmax_from best_i best (S i) rest.
Proof.
  change (argmax_from best_i best i (x :: rest))
    with (if tgtb x best then argmax_from i x (S i) rest
          else argmax_from best_i best (S i) rest).
  change (tgtb x best) with (if Rlt_dec best x then true else false).
  now destruct (Rlt_dec best x).
Qed.

Lemma argmax_from_zeros (n best_i i : nat) (best : R) :
  0 <= best -> argmax_from best_i best i (repeat 0 n) = best_i.
Proof.
  intros Hbest. revert i; induction n as [|n IH]; intros i.
  - reflexivity.
  - change (repeat 0 (S n)) with (0 :: repeat 0 n).
    rewrite argmax_from_step.
    destruct (Rlt_dec best 0) as [Hlt|_]; [exfalso; lra | apply IH].
Qed.

Lemma argmax_peak_at_one : argmax peak_at_one = 1%Z.
Proof.
  unfold argmax, peak_at_one. rewrite argmax_from_step.
  destruct (Rlt_dec 0 1) as [_|Hn]; [|exfalso; lra].
  rewrite argmax_from_zeros by lra. reflexivity.
Qed.

Lemma argmax_peak_at_zero : argmax peak_at_zero = 0%Z.
Proof.
  unfold argmax, peak_at_zero.
  rewrite argmax_from_zeros by lra. reflexivity.
Qed.

Lemma weight_follows_rule_witness :
  let predicted_length := (argmax peak_at_one - argmax peak_at_zero + 1)%Z in
  let gold_len := (7 - 7 + 1)%Z in
  let w := nth 0 (weight (length_reweighting 1 [peak_at_zero] [peak_at_one]
                            [7%Z] [7%Z])) 0 in
  w = weight_rule predicted_length gold_len
  /\ ((predicted_length <= 0)%Z -> w = 2)
  /\ (predicted_length = gold_len -> (1 <= predicted_length)%Z -> w = 1)
  /\ ((1 <= gold_len)%Z -> predicted_length = (2 * gold_len)%Z ->
      w = exp (1 / 2)).
Proof.
  apply (@weight_follows_rule 1 [peak_at_zero] [peak_at_one] [7%Z] [7%Z] 0%nat);
    try reflexivity; lia.
Defined.

(** C3 as the specification words it fails where the predicted and the gold
    length are equal and not positive: over 384 positions, start logits
    with their maximum at position 1 and end logits with theirs at position
    0 put the predicted end before the predicted start, the gold span from
    1 to 0 has the same length 0, and the weight is 2. *)
Lemma equal_lengths_can_weigh_two :
  let predicted_length := (argmax peak_at_zero - argmax peak_at_one + 1)%Z in
  let gold_len := (0 - 1 + 1)%Z in
  let w := nth 0 (weight (length_reweighting 1 [peak_at_one] [peak_at_zero]
                            [1%Z] [0%Z])) 0 in
  ~ (predicted_length = gold_len -> w = 1).
Proof.
  intros pl gl w Hspec.
  assert (Hw : w = 2).
  { unfold w.
    rewrite (@weight_nth 1 [peak_at_one] [peak_at_zero] [1%Z] [0%Z] 0%nat)
      by (try reflexivity; lia).
    cbn [nth]. rewrite argmax_peak_at_zero, argmax_peak_at_one. simpl. lra. }
  assert (Hone : w = 1).
  { apply Hspec. unfold pl, gl.
    now rewrite argmax_peak_at_zero, argmax_peak_at_one. }
  lra.
Qed.

(** ** C10: gold positions clamped to the ignored index *)

Lemma rmap_ok_nth (A B : Type) (f : A -> result B) (l : list A) (ys : list B)
      (d : A) (d' : B) :
  rmap f l = Ok ys ->
  length ys = length l
  /\ forall i, (i < length l)%nat -> f (nth i l d) = Ok (nth i ys d').
Proof.
  revert ys; induction l as [|x l IH]; intros ys Hys; simpl in Hys.
  - inversion Hys; subst. split; [reflexivity|]. simpl; intros; lia.
  - destruct (f x) as [y|e] eqn:Hfx; simpl in Hys; [|discriminate].
    destruct (rmap f l) as [ys'|e] eqn:Hr; simpl in Hys; [|discriminate].
    inversion Hys; subst. destruct (IH ys' eq_refl) as [Hlen Hnth].
    split; [simpl; now rewrite Hlen|].
    intros [|i] Hi; simpl in *; [exact Hfx|].
    apply Hnth. lia.
Qed.

Lemma rmap_total (A B : Type) (f : A -> result B) (l : list A) :
  (forall x, In x l -> exists y, f x = Ok y) -> exists ys, rmap f l = Ok ys.
Proof.
  induction l as [|x l IH]; intros Hf; simpl.
  - now exists [].
  - destruct (Hf x (or_introl eq_refl)) as [y Hy]. rewrite Hy. simpl.
    destruct IH as [ys Hys]; [intros; apply Hf; now right|].
    rewrite Hys. simpl. now exists (y :: ys).
Qed.

Lemma clamp_range (lo hi z : Z) :
  (lo <= hi)%Z -> (lo <= clamp lo hi z <= hi)%Z.
Proof. unfold clamp. lia. Qed.

Lemma clamp_above (lo hi z : Z) :
  (lo <= hi)%Z -> (hi <= z)%Z -> clamp lo hi z = hi.
Proof. unfold clamp. lia. Qed.

Lemma cross_entropy_example_clamped (L : nat) (row : list R) (p : Z) :
  length row = L ->
  exists v, cross_entropy_example (Z.of_nat L) row (clamp 0 (Z.of_nat L) p) = Ok v
            /\ ((Z.of_nat L <= p)%Z -> v = 0).
Proof.
  intros Hrow. unfold cross_entropy_example.
  pose proof (@clamp_range 0 (Z.of_nat L) p ltac:(lia)) as Hr.
  destruct (Z.eqb_spec (clamp 0 (Z.of_nat L) p) (Z.of_nat L)) as [Heq|Hne].
  - exists 0. split; reflexivity.
  - rewrite Hrow.
    replace (0 <=? clamp 0 (Z.of_nat L) p)%Z with true
      by (symmetry; apply Z.leb_le; lia).
    replace (clamp 0 (Z.of_nat L) p <? Z.of_nat L)%Z with true
      by (symmetry; apply Z.ltb_lt; lia).
    simpl. eexists. split; [reflexivity|].
    intros Hp. exfalso. apply Hne. apply clamp_above; lia.
Qed.

Lemma cross_entropy_none_clamped (L : nat) (logits : list (list R))
      (positions : list Z) :
  Forall (fun r => length r = L) logits ->
  length logits = length positions ->
  exists losses,
    cross_entropy_none (Z.of_nat L) logits
                       (map (clamp 0 (Z.of_nat L)) positions) = Ok losses
    /\ length losses = length logits
    /\ forall b, (b < length logits)%nat ->
         (Z.of_nat L <= nth b positions 0%Z)%Z -> nth b losses 0 = 0.
Proof.
  intros Hrows Hlen. unfold cross_entropy_none.
  rewrite length_map, <- Hlen, Nat.eqb_refl.
  set (f := fun lt : list R * Z =>
              cross_entropy_example (Z.of_nat L) (fst lt) (snd lt)).
  set (l := combine logits (map (clamp 0 (Z.of_nat L)) positions)).
  assert (Hl : length l = length logits)
    by (unfold l; rewrite length_combine, length_map; lia).
  assert (Hnth : forall b, (b < length logits)%nat ->
            nth b l ([], 0%Z)
            = (nth b logits [], clamp 0 (Z.of_nat L) (nth b positions 0%Z))).
  { intros b Hb. unfold l.
    rewrite combine_nth_lt by (rewrite ?length_map; lia).
    f_equal. now rewrite (nth_map_lt _ _ 0%Z 0%Z) by lia. }
  destruct (@rmap_total _ _ f l) as [losses Hlosses].
  { intros [row p] Hin.
    destruct (In_nth _ _ ([], 0%Z) Hin) as [b [Hb Hx]].
    rewrite Hl in Hb. rewrite Hnth in Hx by exact Hb. inversion Hx; subst.
    rewrite Forall_forall in Hrows.
    destruct (@cross_entropy_example_clamped L (nth b logits [])
                (nth b positions 0%Z)) as [v [Hv _]].
    - apply Hrows, nth_In, Hb.
    - exists v. exact Hv. }
  exists losses. split; [exact Hlosses|].
  destruct (rmap_ok_nth f l ([], 0%Z) 0 Hlosses) as [Hlen' Hok].
  split; [lia|].
  intros b Hb Hp.
  specialize (Hok b ltac:(lia)). rewrite Hnth in Hok by exact Hb.
  unfold f in Hok. simpl in Hok.
  rewrite Forall_forall in Hrows.
  destruct (@cross_entropy_example_clamped L (nth b logits [])
              (nth b positions 0%Z)) as [v [Hv Hzero]].
  - apply Hrows, nth_In, Hb.
  - rewrite Hv in Hok. inversion Hok. rewrite <- H0. now apply Hzero.
Qed.

Lemma zip_with_as_seq (A B C : Type) (f : A -> B -> C) (a : list A) (b : list B)
      (n : nat) (da : A) (db : B) :
  length a = n -> length b = n ->
  zip_with f a b = map (fun i => f (nth i a da) (nth i b db)) (seq 0 n).
Proof.
  intros Ha Hb. unfold zip_with.
  rewrite (@combine_as_seq _ _ a b da db) by lia.
  rewrite map_map, Ha. reflexivity.
Qed.

(** Lines 322-332 on a well-shaped batch: no exception, and the parts of
    the result. *)
Lemma reweighted_span_loss_parts (L batch_size : nat) (weight : list R)
      (start_logits end_logits : list (list R))
      (start_positions end_positions : list Z) :
  (0 < batch_size)%nat ->
  length start_logits = batch_size -> length end_logits = batch_size ->
  length start_positions = batch_size -> length end_positions = batch_size ->
  length weight = batch_size ->
  Forall (fun r => length r = L) start_logits ->
  Forall (fun r => length r = L) end_logits ->
  exists sl,
    reweighted_span_loss batch_size weight start_logits end_logits
                         start_positions end_positions = Ok sl
    /\ clamped_start_positions sl = map (clamp 0 (Z.of_nat L)) start_positions
    /\ clamped_end_positions sl = map (clamp 0 (Z.of_nat L)) end_positions
    /\ length (start_loss sl) = batch_size
    /\ length (end_loss sl) = batch_size
    /\ (forall b, (b < batch_size)%nat ->
          (Z.of_nat L <= nth b start_positions 0%Z)%Z ->
          nth b (start_loss sl) 0 = 0)
    /\ (forall b, (b < batch_size)%nat ->
          (Z.of_nat L <= nth b end_positions 0%Z)%Z ->
          nth b (end_loss sl) 0 = 0)
    /\ span_loss sl
       = tsum (map (fun b =>
                      (nth b (start_loss sl) 0 + nth b (end_loss sl) 0) / 2
                      / INR batch_size * nth b weight 0)
                   (seq 0 batch_size)).
Proof.
  intros Hpos Hsl Hel Hsp Hep Hw Hrs Hre.
  unfold reweighted_span_loss.
  assert (Hnc : ncols start_logits = L).
  { apply (@has_shape_ncols batch_size); [split; assumption | exact Hpos]. }
  rewrite Hnc.
  destruct (@cross_entropy_none_clamped L start_logits start_positions Hrs)
    as [s_loss [Hs [Hslen Hszero]]]; [lia|].
  destruct (@cross_entropy_none_clamped L end_logits end_positions Hre)
    as [e_loss [He [Helen Hezero]]]; [lia|].
  rewrite Hs, He. simpl.
  eexists. split; [reflexivity|]. simpl.
  repeat split; try lia.
  - intros b Hb. apply Hszero. lia.
  - intros b Hb. apply Hezero. lia.
  - rewrite (@zip_with_as_seq _ _ _ _ s_loss e_loss batch_size 0 0) by lia.
    rewrite (@zip_with_as_seq _ _ _ _ _ weight batch_size 0 0)
      by (rewrite ?length_map, ?length_seq; lia).
    apply tsum_map_ext. intros b Hb. apply in_seq in Hb.
    rewrite (nth_map_seq _ 0 0) by lia. simpl.
    rewrite <- INR_IZR_INZ. reflexivity.
Qed.

(** C10: with length-based reweighting enabled (lines 322-332), on a batch
    whose logits have [L] positions the gold positions are clamped into
    [[0, L]], the cross-entropy ignores index [L], and so for every example
    whose gold start (or end) position is at or beyond [L] that position's
    cross-entropy term is exactly 0: the span loss sums, per example, the
    two terms halved, divided by the batch size and weighted, and the
    ignored term adds nothing to it. *)
Theorem clamped_position_adds_nothing (L batch_size : nat) (weight : list R)
        (start_logits end_logits : list (list R))
        (start_positions end_positions : list Z) :
  (0 < batch_size)%nat ->
  length start_logits = batch_size -> length end_logits = batch_size ->
  length start_positions = batch_size -> length end_positions = batch_size ->
  length weight = batch_size ->
  Forall (fun r => length r = L) start_logits ->
  Forall (fun r => length r = L) end_logits ->
  exists sl,
    reweighted_span_loss batch_size weight start_logits end_logits
                         start_positions end_positions = Ok sl
    /\ Forall (fun p => (0 <= p <= Z.of_nat L)%Z) (clamped_start_positions sl)
    /\ Forall (fun p => (0 <= p <= Z.of_nat L)%Z) (clamped_end_positions sl)
    /\ (forall b, (b < batch_size)%nat ->
          (Z.of_nat L <= nth b start_positions 0%Z)%Z ->
          nth b (clamped_start_positions sl) 0%Z = Z.of_nat L
          /\ nth b (start_loss sl) 0 = 0)
    /\ (forall b, (b < batch_size)%nat ->
          (Z.of_nat L <= nth b end_positions 0%Z)%Z ->
          nth b (clamped_end_positions sl) 0%Z = Z.of_nat L
          /\ nth b (end_loss sl) 0 = 0)
    /\ span_loss sl
       = tsum (map (fun b =>
                      (nth b (start_loss sl) 0 + nth b (end_loss sl) 0) / 2
                      / INR batch_size * nth b weight 0)
                   (seq 0 batch_size)).
Proof.
  intros Hpos Hsl Hel Hsp Hep Hw Hrs Hre.
  destruct (@reweighted_span_loss_parts L batch_size weight start_logits
              end_logits start_positions end_positions)
    as [sl [Hok [Hcs [Hce [Hls [Hle [Hzs [Hze Hsum]]]]]]]]; try assumption.
  exists sl. split; [exact Hok|].
  assert (Hclamped : forall ps, Forall (fun p => (0 <= p <= Z.of_nat L)%Z)
                                       (map (clamp 0 (Z.of_nat L)) ps)).
  { intros ps. apply Forall_forall. intros p Hp. apply in_map_iff in Hp.
    destruct Hp as [z [<- _]]. apply clamp_range. lia. }
  rewrite Hcs, Hce.
  repeat split; try apply Hclamped; try exact Hsum.
  - rewrite (nth_map_lt _ _ 0%Z 0%Z) by lia. apply clamp_above; lia.
  - now apply Hzs.
  - rewrite (nth_map_lt _ _ 0%Z 0%Z) by lia. apply clamp_above; lia.
  - now apply Hze.
Qed.

Lemma clamped_position_adds_nothing_witness :
  exists sl,
    reweighted_span_loss 1 [1] [repeat 0 384] [repeat 0 384]
                         [500%Z] [0%Z] = Ok sl
    /\ Forall (fun p => (0 <= p <= Z.of_nat 384)%Z) (clamped_start_positions sl)
    /\ Forall (fun p => (0 <= p <= Z.of_nat 384)%Z) (clamped_end_positions sl)
    /\ (forall b, (b < 1)%nat ->
          (Z.of_nat 384 <= nth b [500%Z] 0%Z)%Z ->
          nth b (clamped_start_positions sl) 0%Z = Z.of_nat 384
          /\ nth b (start_loss sl) 0 = 0)
    /\ (forall b, (b < 1)%nat ->
          (Z.of_nat 384 <= nth b [0%Z] 0%Z)%Z ->
          nth b (clamped_end_positions sl) 0%Z = Z.of_nat 384
          /\ nth b (end_loss sl) 0 = 0)
    /\ span_loss sl
       = tsum (map (fun b =>
                      (nth b (start_loss sl) 0 + nth b (end_loss sl) 0) / 2
                      / INR 1 * nth b [1] 0)
                   (seq 0 1)).
Proof.
  apply (@clamped_position_adds_nothing 384 1 [1] [repeat 0 384]
           [repeat 0 384] [500%Z] [0%Z]);
    try reflexivity; try lia;
    (apply Forall_cons; [apply repeat_length | apply Forall_nil]).
Defined.

(** ** Running one pass of the batch loop *)

Section BatchLoopFacts.
Context {T : Type} `{Scalar T}.

Lemma after_nothing (st : TrainState T) : after st [] 0 = st.
Proof. destruct st. unfold after. simpl. now rewrite app_nil_r. Qed.

Lemma after_after (st : TrainState T) (a b : list (event T)) (n m : nat) :
  after (after st a n) b m = after st (a ++ b) (m + n).
Proof.
  unfold after. simpl. f_equal; [now rewrite app_assoc | lia].
Qed.

Lemma emit_run (e : event T) (st : TrainState T) :
  emit e st = (after st [e] 0, Ok tt).
Proof. reflexivity. Qed.

Lemma emit_all_run (es : list (event T)) (st : TrainState T) :
  emit_all es st = (after st es 0, Ok tt).
Proof.
  revert st; induction es as [|e es IH]; intros st; simpl.
  - unfold ret. now rewrite after_nothing.
  - unfold bind. rewrite emit_run, IH, after_after. reflexivity.
Qed.

Lemma dis_optim_do_step_run (st : TrainState T) :
  dis_optim_do_step st = (after st [dis_optim_step] 1, Ok tt).
Proof. reflexivity. Qed.

Lemma optimizer_steps_app (a b : list (event T)) :
  optimizer_steps (a ++ b) = optimizer_steps a ++ optimizer_steps b.
Proof. apply filter_app. Qed.

Lemma backpropagated_app (a b : list (event T)) :
  backpropagated (a ++ b) = backpropagated a ++ backpropagated b.
Proof. unfold backpropagated. apply flat_map_app. Qed.

Lemma prints_app (a b : list (event T)) :
  filter is_print (a ++ b) = filter is_print a ++ filter is_print b.
Proof. apply filter_app. Qed.

(** Lines 378-384: one turn of the loop, whatever its outcome. *)
Lemma adversarial_turn_run (self : Trainer T) (batch : Batch)
      (outputs : Outputs T) (st : TrainState T) :
  adversarial_turn self batch outputs st
  = match forward_discriminator (discriminator self (S (dis_updates st)))
            (last_hidden_states outputs) (data_set_id batch) (full_adv self)
    with
    | Ok fwd =>
        (after st [dis_optim_step; dis_optim_zero_grad;
                   discriminator_loss_backward (fst fwd); dis_optim_step] 2,
         Ok (fst fwd))
    | Raise e => (after st [dis_optim_step; dis_optim_zero_grad] 1, Raise e)
    end.
Proof.
  unfold adversarial_turn, bind, current_discriminator, lift.
  rewrite dis_optim_do_step_run, emit_run, after_after. simpl dis_updates.
  destruct (forward_discriminator _ _ _ _) as [fwd|e]; [|reflexivity].
  rewrite emit_run, dis_optim_do_step_run, !after_after. reflexivity.
Qed.

(** The loop of lines 378-384 adds no update of the base model, no
    backward pass of the base loss and nothing printed; when it ends
    without an exception it has made two discriminator updates a turn. *)
Lemma for_range_run (self : Trainer T) (batch : Batch) (outputs : Outputs T)
      (n : nat) (acc : T) (st : TrainState T) :
  exists es k,
    fst (for_range n (adversarial_turn self batch outputs) acc st)
    = after st es k
    /\ backpropagated es = []
    /\ filter is_print es = []
    /\ (forall r,
          snd (for_range n (adversarial_turn self batch outputs) acc st) = Ok r ->
          optimizer_steps es = repeat dis_optim_step (2 * n) /\ k = (2 * n)%nat).
Proof.
  revert acc st; induction n as [|n IH]; intros acc st.
  - exists [], 0%nat. simpl. rewrite after_nothing. repeat split.
  - simpl for_range. unfold bind. rewrite adversarial_turn_run.
    destruct (forward_discriminator _ _ _ _) as [fwd|e].
    + destruct (IH (fst fwd)
                   (after st [dis_optim_step; dis_optim_zero_grad;
                              discriminator_loss_backward (fst fwd);
                              dis_optim_step] 2))
        as [es [k [Hst [Hbp [Hpr Hok]]]]].
      eexists. exists (k + 2)%nat.
      rewrite Hst, after_after.
      split; [reflexivity|].
      split; [rewrite backpropagated_app, Hbp; reflexivity|].
      split; [rewrite prints_app, Hpr; reflexivity|].
      intros r Hr. destruct (Hok r Hr) as [Hsteps ->].
      split; [|lia].
      rewrite optimizer_steps_app, Hsteps.
      replace (2 * S n)%nat with (2 + 2 * n)%nat by lia. reflexivity.
    + exists [dis_optim_step; dis_optim_zero_grad], 1%nat. simpl.
      repeat split; intros; discriminate.
Qed.

Lemma span_stage_run (self : Trainer T) (batch : Batch) (outputs : Outputs T)
      (st : TrainState T) :
  span_stage self batch outputs st
  = match span_outcome self batch outputs with
    | Ok (loss, es) => (after st es 0, Ok loss)
    | Raise e => (st, Raise e)
    end.
Proof.
  unfold span_stage, span_outcome.
  destruct (enable_length_bp_penalty self).
  - unfold bind, lift.
    destruct (reweighted_span_loss _ _ _ _ _ _) as [sl|e]; [|reflexivity].
    simpl. destruct (isnan (span_loss sl)).
    + unfold report_nan. rewrite emit_all_run. reflexivity.
    + unfold ret. now rewrite after_nothing.
  - unfold ret. now rewrite after_nothing.
Qed.

(** Nothing but [print] events is left by lines 302-346. *)
Lemma span_outcome_prints (self : Trainer T) (batch : Batch)
      (outputs : Outputs T) (loss : T) (es : list (event T)) :
  span_outcome self batch outputs = Ok (loss, es) ->
  optimizer_steps es = [] /\ backpropagated es = [] /\ filter is_print es = es.
Proof.
  unfold span_outcome. destruct (enable_length_bp_penalty self).
  - destruct (reweighted_span_loss _ _ _ _ _ _) as [sl|e]; simpl;
      [|discriminate].
    intros Heq. inversion Heq; subst.
    destruct (isnan (span_loss sl)); repeat split.
  - intros Heq. inversion Heq; subst. repeat split.
Qed.

(** One pass without the adversarial term. *)
Lemma train_batch_plain (self : Trainer T) (batch : Batch) (outputs : Outputs T)
      (loss : T) (printed_events : list (event T)) :
  enable_discriminator self = false ->
  span_outcome self batch outputs = Ok (loss, printed_events) ->
  let ls := length_stage self batch outputs loss in
  train_batch self batch outputs initial_state
  = (after initial_state
           (prelude ++ printed_events
              ++ [loss_backward (fst ls); qa_optim_step]
              ++ log_events batch (fst ls) (of_int 0) (of_int 0) (snd ls)) 0,
     Ok tt).
Proof.
  intros Hadv Hspan ls. unfold train_batch, bind.
  rewrite emit_all_run, span_stage_run, Hspan, Hadv.
  rewrite !emit_run. unfold log_stage. rewrite emit_all_run.
  rewrite !after_after. fold ls. reflexivity.
Qed.

(** One pass with the adversarial term, once the span stage and the
    encoder-adversarial loss have not raised. *)
Lemma train_batch_adversarial (self : Trainer T) (batch : Batch)
      (outputs : Outputs T) (loss dl : T) (printed_events : list (event T)) :
  enable_discriminator self = true ->
  span_outcome self batch outputs = Ok (loss, printed_events) ->
  compute_discriminator_loss (discriminator self 0) (num_classes self)
    (last_hidden_states outputs) (data_set_id batch) (full_adv self) = Ok dl ->
  let ls := length_stage self batch outputs loss in
  let total := tadd (fst ls) (tmul (discriminator_lambda self) dl) in
  exists es k,
    fst (train_batch self batch outputs initial_state)
    = after initial_state
            (prelude ++ printed_events
               ++ [loss_backward total; qa_optim_step] ++ es) k
    /\ backpropagated es = []
    /\ filter is_print es = []
    /\ (snd (train_batch self batch outputs initial_state) = Ok tt ->
        optimizer_steps es
        = repeat dis_optim_step (2 * Z.to_nat (num_adv_steps self))
        /\ k = (2 * Z.to_nat (num_adv_steps self))%nat).
Proof.
  intros Hadv Hspan Hdl ls total. unfold train_batch, bind.
  rewrite emit_all_run, span_stage_run, Hspan, Hadv.
  unfold current_discriminator, lift. simpl dis_updates.
  rewrite Hdl. fold ls. fold total.
  rewrite !emit_run, !after_after. simpl Nat.add.
  set (st1 := after initial_state _ 0).
  destruct (for_range_run self batch outputs
              (Z.to_nat (num_adv_steps self)) (of_int 0) st1)
    as [es [k [Hst [Hbp [Hpr Hok]]]]].
  destruct (for_range _ _ _ st1) as [st2 [sdl|e]] eqn:Hfor; simpl in Hst.
  - unfold log_stage. rewrite emit_all_run. subst st2.
    rewrite after_after. unfold st1. rewrite after_after.
    eexists. exists (0 + k + 0)%nat. simpl fst.
    split; [rewrite <- ?app_assoc; simpl; f_equal; try lia; rewrite <- ?app_assoc; reflexivity|].
    split; [rewrite backpropagated_app, Hbp; reflexivity|].
    split; [rewrite prints_app, Hpr; reflexivity|].
    intros _. destruct (Hok sdl eq_refl) as [Hsteps ->].
    split; [|lia].
    rewrite optimizer_steps_app, Hsteps. simpl. now rewrite app_nil_r.
  - subst st2. unfold st1. rewrite after_after.
    exists es, (k + 0)%nat. simpl fst.
    split; [rewrite <- ?app_assoc; simpl; f_equal; try lia; rewrite <- ?app_assoc; reflexivity|].
    split; [exact Hbp|]. split; [exact Hpr|].
    simpl. intros; discriminate.
Qed.

(** A pass that ends without an exception went through its stages. *)
Lemma train_batch_ok_stages (self : Trainer T) (batch : Batch)
      (outputs : Outputs T) :
  snd (train_batch self batch outputs initial_state) = Ok tt ->
  exists loss printed_events,
    span_outcome self batch outputs = Ok (loss, printed_events)
    /\ (enable_discriminator self = true ->
        exists dl,
          compute_discriminator_loss (discriminator self 0) (num_classes self)
            (last_hidden_states outputs) (data_set_id batch) (full_adv self)
          = Ok dl).
Proof.
  unfold train_batch, bind.
  rewrite emit_all_run, span_stage_run.
  destruct (span_outcome self batch outputs) as [[loss es]|e];
    [|simpl; discriminate].
  intros Hok. exists loss, es. split; [reflexivity|].
  intros Hadv. rewrite Hadv in Hok.
  unfold current_discriminator, lift in Hok. simpl dis_updates in Hok.
  destruct (compute_discriminator_loss _ _ _ _ _) as [dl|e];
    [now exists dl | simpl in Hok; discriminate].
Qed.

End BatchLoopFacts.

(** ** C5: the scalar that is backpropagated *)

Lemma weight_length (batch_size : nat) (start_logits end_logits : list (list R))
      (start_positions end_positions : list Z) :
  length start_logits = batch_size -> length end_logits = batch_size ->
  length start_positions = batch_size -> length end_positions = batch_size ->
  length (weight (length_reweighting batch_size start_logits end_logits
                    start_positions end_positions)) = batch_size.
Proof.
  intros Hsl Hel Hsp Hep. unfold length_reweighting. cbn [weight].
  unfold ones_vec.
  repeat (rewrite ?where_length, ?length_map, ?zip_with_length, ?repeat_length).
  lia.
Qed.

(** The loss of line 332 is the mean of the reweighted span cross-entropy. *)
Lemma span_sum_is_mean (batch_size : nat) (w s e : list R) :
  tsum (map (fun b => (nth b s 0 + nth b e 0) / 2 / INR batch_size * nth b w 0)
            (seq 0 batch_size))
  = mean_reweighted_span_loss batch_size w s e.
Proof.
  unfold mean_reweighted_span_loss, Rdiv at 3.
  rewrite Rmult_comm, <- tsum_map_scale.
  apply tsum_map_ext. intros b _. unfold Rdiv. ring.
Qed.

(** C5: on a batch with the shapes of the source, with reweighting, length
    loss and adversarial term all enabled and the encoder-adversarial loss
    computed without an exception, the one scalar backpropagated for the
    base model is [span_loss + lambda_length * length_loss + lambda_adv *
    adversarial_loss], the span loss being the sum over the examples of the
    reweighted span cross-entropy divided by the batch size. *)
Theorem backpropagated_total (L : nat) (self : Trainer R) (batch : Batch)
        (outputs : Outputs R) (adversarial_loss : R) :
  well_shaped L self batch outputs ->
  enable_length_bp_penalty self = true ->
  enable_length_loss self = true ->
  enable_discriminator self = true ->
  compute_discriminator_loss (discriminator self 0) (num_classes self)
    (last_hidden_states outputs) (data_set_id batch) (full_adv self)
  = Ok adversarial_loss ->
  let batch_size := length (input_ids batch) in
  let rw := length_reweighting batch_size
              (outputs_start_logits outputs) (outputs_end_logits outputs)
              (start_positions batch) (end_positions batch) in
  exists sl,
    reweighted_span_loss batch_size (weight rw)
      (outputs_start_logits outputs) (outputs_end_logits outputs)
      (start_positions batch) (end_positions batch) = Ok sl
    /\ backpropagated
         (trace (fst (train_batch self batch outputs initial_state)))
       = [ mean_reweighted_span_loss batch_size (weight rw)
             (start_loss sl) (end_loss sl)
           + length_lambda self
             * length_loss batch_size (self_length_mask self)
                 (outputs_start_logits outputs) (outputs_end_logits outputs)
           + discriminator_lambda self * adversarial_loss ].
Proof.
  intros Hshape Hbp Hll Hadv Hdl batch_size rw.
  destruct Hshape as [Hpos [Hsp [Hep [_ [Hsl [Hel [_ [Hrs [Hre _]]]]]]]]].
  fold batch_size in Hpos, Hsp, Hep, Hsl, Hel.
  assert (Hw : length (weight rw) = batch_size) by (now apply weight_length).
  destruct (@reweighted_span_loss_parts L batch_size (weight rw)
              (outputs_start_logits outputs) (outputs_end_logits outputs)
              (start_positions batch) (end_positions batch))
    as [sl [Hok [_ [_ [_ [_ [_ [_ Hsum]]]]]]]]; try assumption.
  exists sl. split; [exact Hok|].
  assert (Hspan : span_outcome self batch outputs = Ok (span_loss sl, [])).
  { unfold span_outcome. rewrite Hbp. fold batch_size. fold rw.
    rewrite Hok. reflexivity. }
  destruct (train_batch_adversarial self batch outputs Hadv Hspan Hdl)
    as [es [k [Hst [Hes _]]]].
  rewrite Hst. simpl trace.
  change (backpropagated (T:=R)) with
    (flat_map (fun e : event R =>
                 match e with loss_backward l => [l] | _ => [] end)).
  cbn [flat_map app].
  change (flat_map (fun e : event R =>
                      match e with loss_backward l => [l] | _ => [] end) es)
    with (backpropagated es).
  rewrite Hes. f_equal.
  unfold length_stage. rewrite Hll. fold batch_size. cbn [fst].
  rewrite Hsum, span_sum_is_mean. reflexivity.
Qed.

Lemma full_trainer_well_shaped :
  well_shaped 384 full_trainer one_example flat_outputs.
Proof.
  unfold well_shaped, one_example, flat_outputs.
  cbn [input_ids start_positions end_positions data_set_id
       outputs_start_logits outputs_end_logits last_hidden_states length].
  repeat split; try lia;
    try (apply Forall_cons; [apply repeat_length | apply Forall_nil]);
    apply (length_mask_has_shape 384 30).
Qed.

Lemma backpropagated_total_witness :
  let batch_size := length (input_ids one_example) in
  let rw := length_reweighting batch_size
              (outputs_start_logits flat_outputs)
              (outputs_end_logits flat_outputs)
              (start_positions one_example) (end_positions one_example) in
  exists sl,
    reweighted_span_loss batch_size (weight rw)
      (outputs_start_logits flat_outputs) (outputs_end_logits flat_outputs)
      (start_positions one_example) (end_positions one_example) = Ok sl
    /\ backpropagated
         (trace (fst (train_batch full_trainer one_example flat_outputs
                                  initial_state)))
       = [ mean_reweighted_span_loss batch_size (weight rw)
             (start_loss sl) (end_loss sl)
           + length_lambda full_trainer
             * length_loss batch_size (self_length_mask full_trainer)
                 (outputs_start_logits flat_outputs)
                 (outputs_end_logits flat_outputs)
           + discriminator_lambda full_trainer
             * (tsum [kl_point (ln (1 / 2)) (1 * (1 / 2));
                      kl_point (ln (1 / 2)) (1 * (1 / 2))] / 1) ].
Proof.
  apply (@backpropagated_total 384 full_trainer one_example flat_outputs
           (tsum [kl_point (ln (1 / 2)) (1 * (1 / 2));
                  kl_point (ln (1 / 2)) (1 * (1 / 2))] / 1)).
  - exact full_trainer_well_shaped.
  - reflexivity.
  - reflexivity.
  - reflexivity.
  - reflexivity.
Defined.

(** ** C9: a loss that is not a number *)

Lemma trace_after_initial {T : Type} (es : list (event T)) (k : nat) :
  trace (after initial_state es k) = es.
Proof. reflexivity. Qed.

Lemma diagnostics_are_prints {T : Type} {S : Scalar T} (batch_size : nat)
      (rw : Reweighting T) (sl : SpanLoss T) :
  filter is_print (diagnostics batch_size rw sl) = diagnostics batch_size rw sl
  /\ backpropagated (diagnostics batch_size rw sl) = []
  /\ length (diagnostics batch_size rw sl) = 13%nat.
Proof. repeat split. Qed.

(** C9, as the code has it: with length-based reweighting enabled, whenever
    the reweighted span loss summed over the batch is not a number, the
    trainer prints its diagnostic context (weights, the start and end losses
    of each example, batch size, clamped predicted lengths, gold positions,
    predicted and gold lengths, predicted positions) and goes on with the
    pass: the total is backpropagated and the base model updated, and
    without the adversarial term the pass ends without an exception. (No
    other component, and no infinite value, is tested.) *)
Theorem nan_span_loss_is_reported {T : Type} {S : Scalar T} (self : Trainer T)
        (batch : Batch) (outputs : Outputs T) (sl : SpanLoss T) :
  let batch_size := length (input_ids batch) in
  let rw := length_reweighting batch_size
              (outputs_start_logits outputs) (outputs_end_logits outputs)
              (start_positions batch) (end_positions batch) in
  enable_length_bp_penalty self = true ->
  reweighted_span_loss batch_size (weight rw)
    (outputs_start_logits outputs) (outputs_end_logits outputs)
    (start_positions batch) (end_positions batch) = Ok sl ->
  isnan (span_loss sl) = true ->
  (enable_discriminator self = true ->
   exists dl,
     compute_discriminator_loss (discriminator self 0) (num_classes self)
       (last_hidden_states outputs) (data_set_id batch) (full_adv self)
     = Ok dl) ->
  let run := train_batch self batch outputs initial_state in
  filter is_print (trace (fst run)) = diagnostics batch_size rw sl
  /\ (exists total, backpropagated (trace (fst run)) = [total])
  /\ In qa_optim_step (trace (fst run))
  /\ (enable_discriminator self = false -> snd run = Ok tt).
Proof.
  intros batch_size rw Hbp Hok Hnan Hdl run.
  assert (Hspan : span_outcome self batch outputs
                  = Ok (span_loss sl, diagnostics batch_size rw sl)).
  { unfold span_outcome. rewrite Hbp. fold batch_size. fold rw.
    rewrite Hok. simpl. now rewrite Hnan. }
  destruct (diagnostics_are_prints batch_size rw sl) as [Hpr [Hnb _]].
  destruct (enable_discriminator self) eqn:Hadv.
  - destruct (Hdl eq_refl) as [dl Hdl'].
    destruct (train_batch_adversarial self batch outputs Hadv Hspan Hdl')
      as [es [k [Hst [Hes [Hpes _]]]]].
    unfold run. rewrite Hst, trace_after_initial.
    split; [|split; [|split]].
    + rewrite !prints_app, Hpr, Hpes. simpl. now rewrite ?app_nil_r.
    + eexists. rewrite !backpropagated_app, Hnb, Hes. reflexivity.
    + apply in_or_app. right. apply in_or_app. right. right. now left.
    + intros; discriminate.
  - unfold run. rewrite (train_batch_plain self batch outputs Hadv Hspan).
    cbn [fst snd]. rewrite trace_after_initial.
    split; [|split; [|split]].
    + rewrite !prints_app, Hpr. simpl. now rewrite ?app_nil_r.
    + eexists. rewrite !backpropagated_app, Hnb. reflexivity.
    + apply in_or_app. right. apply in_or_app. right. right. now left.
    + reflexivity.
Qed.

Lemma nan_span_loss_is_reported_witness :
  let batch_size := length (input_ids one_example) in
  let rw := length_reweighting batch_size
              (outputs_start_logits nan_outputs)
              (outputs_end_logits nan_outputs)
              (start_positions one_example) (end_positions one_example) in
  let run := train_batch reweighting_trainer one_example nan_outputs
                         initial_state in
  exists sl,
    reweighted_span_loss batch_size (weight rw)
      (outputs_start_logits nan_outputs) (outputs_end_logits nan_outputs)
      (start_positions one_example) (end_positions one_example) = Ok sl
    /\ isnan (span_loss sl) = true
    /\ filter is_print (trace (fst run)) = diagnostics batch_size rw sl
    /\ (exists total, backpropagated (trace (fst run)) = [total])
    /\ In qa_optim_step (trace (fst run))
    /\ (enable_discriminator reweighting_trainer = false -> snd run = Ok tt).
Proof.
  intros batch_size rw run.
  eexists. split; [reflexivity|]. split; [reflexivity|].
  apply (@nan_span_loss_is_reported NanReal NanScalar reweighting_trainer
           one_example nan_outputs).
  - reflexivity.
  - reflexivity.
  - reflexivity.
  - intros Hadv. discriminate Hadv.
Defined.

(** C9 as the specification words it fails when the reweighting is disabled
    and the loss returned by the model is not a number: the total that is
    backpropagated is not a number, and nothing is printed. *)
Lemma nan_total_goes_unreported :
  let run := train_batch plain_trainer one_example nan_outputs initial_state in
  ~ (forall total,
        In total (backpropagated (trace (fst run))) -> isnan total = true ->
        exists label value, In (print label value) (trace (fst run))).
Proof.
  intros run Hspec.
  destruct (Hspec None) as [label [value Hin]].
  - left. reflexivity.
  - reflexivity.
  - unfold run in Hin.
    rewrite (@train_batch_plain NanReal NanScalar plain_trainer one_example
               nan_outputs None [] eq_refl eq_refl) in Hin.
    cbn [fst] in Hin. rewrite trace_after_initial in Hin.
    simpl in Hin.
    repeat (destruct Hin as [Hin|Hin]; [discriminate Hin|]).
    exact Hin.
Qed.

(** ** C6: a batch without in-domain examples *)

Section AdversaryLoss.
Context {T : Type} `{Scalar T}.

Lemma rmap_length (A B : Type) (f : A -> result B) (l : list A) (ys : list B) :
  rmap f l = Ok ys -> length ys = length l.
Proof.
  revert ys; induction l as [|x l IH]; intros ys Hys; simpl in Hys.
  - now inversion Hys.
  - destruct (f x) as [y|e]; simpl in Hys; [|discriminate].
    destruct (rmap f l) as [ys'|e]; simpl in Hys; [|discriminate].
    inversion Hys; subst. simpl. f_equal. now apply IH.
Qed.

Lemma embedding_of_ok (hidden_states : list (list (list T))) (full : bool) :
  (full = false -> Forall (fun h => h <> []) hidden_states) ->
  exists embedding,
    embedding_of hidden_states full = Ok embedding
    /\ length embedding = length hidden_states.
Proof.
  intros Hne. unfold embedding_of. destruct full.
  - eexists. split; [reflexivity|]. apply length_map.
  - specialize (Hne eq_refl).
    destruct (@rmap_total _ _ (@first_position T) hidden_states) as [emb Hemb].
    + intros h Hh. rewrite Forall_forall in Hne. specialize (Hne h Hh).
      destruct h as [|v h]; [contradiction|]. now exists v.
    + exists emb. split; [exact Hemb|]. now apply rmap_length in Hemb.
Qed.

Lemma no_indomain_selected (A : Type) (ids : list Z) (rows : list A) :
  Forall (fun d => (3 <= d)%Z) ids ->
  map snd (filter fst (combine (map (fun d => (d <? 3)%Z) ids) rows)) = [].
Proof.
  revert rows; induction ids as [|d ids IH]; intros rows Hids; simpl.
  - reflexivity.
  - destruct rows as [|r rows]; [reflexivity|].
    inversion Hids; subst. simpl.
    replace (d <? 3)%Z with false by (symmetry; apply Z.ltb_ge; lia).
    now apply IH.
Qed.

(** Lines 242-252 on a batch whose domain ids are all at least 3. *)
Lemma compute_discriminator_loss_no_indomain (disc : list T -> list T)
      (classes : Z) (hidden_states : list (list (list T)))
      (data_set_ids : list Z) (full : bool) :
  length hidden_states = length data_set_ids ->
  (full = false -> Forall (fun h => h <> []) hidden_states) ->
  classes <> 0%Z ->
  Forall (fun d => (3 <= d)%Z) data_set_ids ->
  compute_discriminator_loss disc classes hidden_states data_set_ids full
  = Ok (of_int 0).
Proof.
  intros Hlen Hne Hcl Hids. unfold compute_discriminator_loss.
  destruct (embedding_of_ok Hne) as [emb [-> Hemb]].
  simpl rbind.
  replace (classes =? 0)%Z with false by (symmetry; now apply Z.eqb_neq).
  unfold mask_select. rewrite !length_map.
  replace (length data_set_ids =? length emb)%nat with true
    by (symmetry; apply Nat.eqb_eq; lia).
  simpl rbind. rewrite no_indomain_selected by exact Hids.
  reflexivity.
Qed.

End AdversaryLoss.

(** C6: for every batch in which no example's domain id is below the
    in-domain threshold 3, the encoder-adversarial loss is exactly 0 and
    no exception is raised (the tensors having the shapes of the source:
    one domain id for each example, a first position in every hidden
    state unless the whole layer is flattened, and a discriminator with at
    least one class). *)
Theorem no_indomain_example_zero_loss (disc : list R -> list R) (classes : Z)
        (hidden_states : list (list (list R))) (data_set_ids : list Z)
        (full : bool) :
  length hidden_states = length data_set_ids ->
  (full = false -> Forall (fun h => h <> []) hidden_states) ->
  classes <> 0%Z ->
  Forall (fun d => (3 <= d)%Z) data_set_ids ->
  compute_discriminator_loss disc classes hidden_states data_set_ids full
  = Ok 0.
Proof.
  intros Hlen Hne Hcl Hids.
  exact (@compute_discriminator_loss_no_indomain R RealScalar disc classes
           hidden_states data_set_ids full Hlen Hne Hcl Hids).
Qed.

Lemma no_indomain_example_zero_loss_witness :
  compute_discriminator_loss (uniform_discriminator 0) 2
    [[[0]; [0]]; [[0]; [0]]] [3%Z; 5%Z] false
  = Ok 0.
Proof.
  apply (@no_indomain_example_zero_loss (uniform_discriminator 0) 2
           [[[0]; [0]]; [[0]; [0]]] [3%Z; 5%Z] false).
  - reflexivity.
  - intros _. repeat (apply Forall_cons; [discriminate|]). apply Forall_nil.
  - discriminate.
  - repeat (apply Forall_cons; [lia|]). apply Forall_nil.
Defined.

(** ** C8: a zero loss against the uniform distribution *)

Lemma tsum_map_plus (A : Type) (f g : A -> R) (l : list A) :
  tsum (map (fun x => f x + g x) l) = tsum (map f l) + tsum (map g l).
Proof.
  induction l as [|x l IH]; simpl.
  - rewrite !tsum_nil. lra.
  - rewrite !tsum_cons, IH. lra.
Qed.

Lemma tsum_map_const (A : Type) (c : R) (l : list A) :
  tsum (map (fun _ => c) l) = INR (length l) * c.
Proof.
  induction l as [|x l IH].
  - simpl. rewrite tsum_nil. lra.
  - change (length (x :: l)) with (S (length l)). rewrite S_INR.
    simpl map. rewrite tsum_cons, IH. lra.
Qed.

Lemma tsum_map_zero (A : Type) (f : A -> R) (l : list A) :
  (forall x, In x l -> 0 <= f x) -> tsum (map f l) = 0 ->
  forall x, In x l -> f x = 0.
Proof.
  induction l as [|y l IH]; intros Hf Hsum x Hx; [contradiction|].
  simpl map in Hsum. rewrite tsum_cons in Hsum.
  assert (0 <= f y) by (apply Hf; now left).
  assert (0 <= tsum (map f l))
    by (apply tsum_map_nonneg; intros; apply Hf; now right).
  destruct Hx as [<-|Hx]; [lra|].
  apply IH; try assumption; [intros; apply Hf; now right | lra].
Qed.

Lemma kl_point_positive_target (x t : R) :
  0 < t -> kl_point x t = t * (ln t - x).
Proof.
  intros Ht. unfold kl_point. cbn [tgtb tzero tmul tsub tlog RealScalar].
  destruct (Rlt_dec 0 t) as [_|Hn]; [reflexivity | contradiction].
Qed.

(** Gibbs' inequality against the uniform distribution [t = 1/n], for one
    vector of [n] log-probabilities. *)
Lemma kl_to_uniform_row (lp : list R) (t : R) :
  lp <> [] -> t = / INR (length lp) -> tsum (map exp lp) = 1 ->
  0 <= tsum (map (fun x => kl_point x t) lp)
  /\ (tsum (map (fun x => kl_point x t) lp) = 0 ->
      forall x, In x lp -> exp x = t).
Proof.
  intros Hne Ht Hsum.
  assert (Hn : 0 < INR (length lp)).
  { apply lt_0_INR. destruct lp; [contradiction | simpl; lia]. }
  assert (Htpos : 0 < t) by (rewrite Ht; now apply Rinv_0_lt_compat).
  set (g := fun x => exp (x - ln t) - 1 - (x - ln t)).
  assert (Hg : forall x, 0 <= g x).
  { intros x. unfold g. pose proof (exp_ineq1_le (x - ln t)). lra. }
  assert (Hexp : forall x, exp (x - ln t) = / t * exp x).
  { intros x. unfold Rminus. rewrite exp_plus, exp_Ropp, exp_ln by exact Htpos.
    apply Rmult_comm. }
  assert (HA : tsum (map (fun x => kl_point x t) lp)
               = t * tsum (map (fun x => ln t - x) lp)).
  { rewrite <- tsum_map_scale. apply tsum_map_ext. intros x _.
    now apply kl_point_positive_target. }
  assert (HB : tsum (map g lp) = tsum (map (fun x => ln t - x) lp)).
  { transitivity (tsum (map (fun x => / t * exp x + ((-1) + (ln t - x))) lp)).
    - apply tsum_map_ext. intros x _. unfold g. rewrite Hexp. ring.
    - rewrite tsum_map_plus, tsum_map_scale, Hsum.
      rewrite (tsum_map_plus (fun _ => -1) (fun x => ln t - x)).
      rewrite tsum_map_const, Ht, Rinv_inv. ring. }
  assert (Hkl : tsum (map (fun x => kl_point x t) lp) = t * tsum (map g lp))
    by (now rewrite HA, HB).
  rewrite Hkl. split.
  - apply Rmult_le_pos; [lra|]. apply tsum_map_nonneg. intros; apply Hg.
  - intros Hzero x Hx.
    assert (Hgsum : tsum (map g lp) = 0).
    { destruct (Rmult_integral _ _ Hzero); [lra | assumption]. }
    pose proof (tsum_map_zero g lp (fun y _ => Hg y) Hgsum x Hx) as Hgx.
    unfold g in Hgx.
    destruct (Req_dec (x - ln t) 0) as [Heq|Hneq].
    + replace x with (ln t) by lra. now apply exp_ln.
    + pose proof (exp_ineq1 (x - ln t) Hneq). lra.
Qed.

Lemma rmap_all_ok (A B : Type) (f : A -> result B) (g : A -> B) (l : list A) :
  (forall x, In x l -> f x = Ok (g x)) -> rmap f l = Ok (map g l).
Proof.
  induction l as [|x l IH]; intros Hf; simpl; [reflexivity|].
  rewrite (Hf x (or_introl eq_refl)). simpl.
  rewrite IH by (intros; apply Hf; now right). reflexivity.
Qed.

Lemma combine_repeat_r (A B : Type) (l : list A) (c : B) (n : nat) :
  length l = n -> combine l (repeat c n) = map (fun x => (x, c)) l.
Proof.
  revert n; induction l as [|x l IH]; intros [|n] Hn; simpl in *;
    try discriminate; [reflexivity|].
  f_equal. apply IH. lia.
Qed.

Lemma map_const_repeat (A B : Type) (c : B) (l : list A) :
  map (fun _ => c) l = repeat c (length l).
Proof. induction l as [|x l IH]; simpl; [reflexivity | now rewrite IH]. Qed.

Lemma tsum_map_repeat (A : Type) (f : A -> R) (a : A) (n : nat) :
  tsum (map f (repeat a n)) = INR n * f a.
Proof.
  induction n as [|n IH].
  - simpl. rewrite tsum_nil. lra.
  - rewrite S_INR. simpl. rewrite tsum_cons, IH. lra.
Qed.

(** The sum of lines 253-254 once every row of the input is paired with a
    row of [C] copies of the target probability [t]. *)
Lemma paired_rows_value (rs : list (list R)) (C : nat) (t d : R) :
  Forall (fun r => length r = C) rs ->
  rbind (rmap (fun it : list R * list R => broadcast (fst it) (snd it))
              (map (fun r => (r, repeat t C)) rs))
        (fun cells =>
           Ok (tdiv (tsum (map (fun xt : R * R => kl_point (fst xt) (snd xt))
                               (concat cells))) d))
  = Ok (tsum (map (fun r => tsum (map (fun x => kl_point x t) r)) rs) / d).
Proof.
  intros Hrs.
  rewrite (@rmap_all_ok _ _ _
             (fun it : list R * list R => map (fun x => (x, t)) (fst it))).
  - simpl rbind. do 2 f_equal.
    rewrite map_map. cbn [fst].
    rewrite concat_map, tsum_concat, !map_map.
    apply tsum_map_ext. intros r _. now rewrite map_map.
  - intros [r y] Hin. apply in_map_iff in Hin.
    destruct Hin as [r' [Heq Hr']]. inversion Heq; subst. cbn [fst snd].
    rewrite Forall_forall in Hrs. specialize (Hrs _ Hr').
    unfold broadcast. rewrite repeat_length, Hrs, Nat.eqb_refl.
    now rewrite combine_repeat_r.
Qed.

Lemma kl_div_uniform_targets (input : list (list R)) (B C : nat) (t v : R) :
  Forall (fun r => length r = C) input ->
  input <> [] -> (length input <= B)%nat ->
  kl_div_batchmean input (repeat (repeat t C) B) = Ok v ->
  exists m, 0 < m
            /\ v = m * tsum (map (fun r => tsum (map (fun x => kl_point x t) r))
                                 input).
Proof.
  intros Hin Hne HB. unfold kl_div_batchmean.
  assert (Hn : 0 < INR (length input)).
  { apply lt_0_INR. destruct input; [contradiction | simpl; lia]. }
  cbn [of_int RealScalar]. rewrite <- INR_IZR_INZ.
  unfold broadcast at 1. rewrite repeat_length.
  destruct (Nat.eqb_spec (length input) B) as [Heq|Hneq].
  - simpl rbind at 1. rewrite combine_repeat_r by exact Heq.
    rewrite paired_rows_value by exact Hin.
    intros Hv. inversion Hv; subst.
    exists (/ INR (length input)). split; [now apply Rinv_0_lt_compat|].
    unfold Rdiv. apply Rmult_comm.
  - destruct input as [|x [|x' rest]]; [contradiction| |].
    + simpl rbind at 1.
      replace (map (fun y : list R => (x, y)) (repeat (repeat t C) B))
        with (map (fun r : list R => (r, repeat t C)) (repeat x B))
        by (rewrite !map_repeat; reflexivity).
      rewrite paired_rows_value.
      * intros Hv. inversion Hv; subst.
        exists (INR B). split; [apply lt_0_INR; simpl in HB; lia|].
        rewrite tsum_map_repeat. simpl. rewrite tsum_cons, tsum_nil. lra.
      * apply Forall_forall. intros r Hr. apply repeat_spec in Hr. subst r.
        now inversion Hin.
    + destruct B as [|[|B]]; simpl in HB; try lia.
      simpl. discriminate.
Qed.

Lemma selected_in (A : Type) (ids : list Z) (rows : list A) (d : A) (b : nat) :
  length ids = length rows -> (b < length ids)%nat ->
  (nth b ids 0%Z < 3)%Z ->
  In (nth b rows d)
     (map snd (filter fst (combine (map (fun z => (z <? 3)%Z) ids) rows))).
Proof.
  revert rows b; induction ids as [|z ids IH]; intros [|r rows] b Hlen Hb Hz;
    simpl in *; try lia.
  destruct b as [|b].
  - replace (z <? 3)%Z with true by (symmetry; apply Z.ltb_lt; lia).
    simpl. now left.
  - destruct (z <? 3)%Z; simpl; [right|]; apply IH; auto; lia.
Qed.

Lemma selected_sub (A : Type) (mask : list bool) (rows : list A) (r : A) :
  In r (map snd (filter fst (combine mask rows))) -> In r rows.
Proof.
  intros Hin. apply in_map_iff in Hin. destruct Hin as [[c r'] [Heq Hin]].
  simpl in Heq. subst r'. apply filter_In in Hin. destruct Hin as [Hin _].
  now apply in_combine_r in Hin.
Qed.

Lemma selected_length (A : Type) (mask : list bool) (rows : list A) :
  (length (map snd (filter fst (combine mask rows))) <= length rows)%nat.
Proof.
  rewrite length_map.
  pose proof (filter_length_le fst (combine mask rows)) as Hle.
  rewrite length_combine in Hle. lia.
Qed.

(** C8: assuming the discriminator answers log-probability vectors over
    its [num_classes] classes, the encoder-adversarial loss of a batch is 0
    only if, for every in-domain example of the batch (domain id below 3),
    the distribution the discriminator answers is exactly uniform: every
    class has probability [1 / num_classes]. *)
Theorem zero_adversarial_loss_only_if_uniform (disc : list R -> list R)
        (classes : Z) (hidden_states : list (list (list R)))
        (data_set_ids : list Z) (full : bool) :
  (forall x, length (disc x) = Z.to_nat classes
             /\ tsum (map exp (disc x)) = 1) ->
  compute_discriminator_loss disc classes hidden_states data_set_ids full
  = Ok 0 ->
  exists embedding,
    embedding_of hidden_states full = Ok embedding
    /\ forall b, (b < length data_set_ids)%nat ->
         (nth b data_set_ids 0%Z < 3)%Z ->
         Forall (fun lp => exp lp = 1 / IZR classes)
                (disc (nth b embedding [])).
Proof.
  intros Hvalid. unfold compute_discriminator_loss.
  destruct (embedding_of hidden_states full) as [emb|e]; [|discriminate].
  simpl rbind. intros Hloss. exists emb. split; [reflexivity|].
  assert (HC : (0 < Z.to_nat classes)%nat).
  { destruct (Hvalid []) as [Hlen Hsum].
    destruct (disc []) as [|y ys]; [|simpl in Hlen; lia].
    simpl in Hsum. rewrite tsum_nil in Hsum. lra. }
  assert (Hcl : IZR classes = INR (Z.to_nat classes)).
  { rewrite INR_IZR_INZ, Z2Nat.id by lia. reflexivity. }
  replace (classes =? 0)%Z with false in Hloss
    by (symmetry; apply Z.eqb_neq; lia).
  set (C := Z.to_nat classes) in *.
  set (t := 1 * (1 / IZR classes)) in *.
  assert (Ht : t = / INR C).
  { unfold t. rewrite Hcl. unfold Rdiv. ring. }
  assert (Htargets : map (map (fun _ : R => t)) (map disc emb)
                     = repeat (repeat t C) (length emb)).
  { rewrite map_map.
    rewrite (map_ext _ (fun _ : list R => repeat t C)).
    - apply map_const_repeat.
    - intros x. rewrite map_const_repeat. now destruct (Hvalid x) as [-> _]. }
  rewrite Htargets in Hloss.
  unfold mask_select in Hloss. rewrite !length_map in Hloss.
  destruct (Nat.eqb_spec (length data_set_ids) (length emb)) as [Hlen|Hlen];
    [|discriminate].
  simpl rbind in Hloss.
  set (selected := map snd (filter fst
                      (combine (map (fun d : Z => (d <? 3)%Z) data_set_ids)
                               (map disc emb)))) in *.
  intros b Hb Hdom.
  assert (Hsel : In (disc (nth b emb [])) selected).
  { rewrite <- (nth_map_lt disc emb [] []) by lia.
    apply selected_in; [now rewrite length_map | exact Hb | exact Hdom]. }
  assert (Hrows : forall r, In r selected ->
            r <> [] /\ length r = C /\ tsum (map exp r) = 1).
  { intros r Hr. apply selected_sub, in_map_iff in Hr.
    destruct Hr as [x [<- _]]. destruct (Hvalid x) as [Hl Hs].
    repeat split; try assumption.
    intros Hnil. rewrite Hnil in Hl. simpl in Hl. lia. }
  destruct (Nat.eqb_spec (length selected) 0) as [Hempty|Hnonempty].
  { destruct selected; [contradiction | discriminate]. }
  destruct (@kl_div_uniform_targets selected (length emb) C t 0)
    as [m [Hm Hzero]].
  - apply Forall_forall. intros r Hr. now destruct (Hrows r Hr) as [_ [? _]].
  - intros Hnil. rewrite Hnil in Hsel. contradiction.
  - unfold selected. rewrite <- (length_map disc emb). apply selected_length.
  - exact Hloss.
  - assert (Hsum : tsum (map (fun r => tsum (map (fun x => kl_point x t) r))
                             selected) = 0).
    { symmetry in Hzero. destruct (Rmult_integral _ _ Hzero); [lra|assumption]. }
    assert (Hrow0 : tsum (map (fun x => kl_point x t) (disc (nth b emb [])))
                    = 0).
    { apply (tsum_map_zero
               (fun r => tsum (map (fun x => kl_point x t) r)) selected);
        try assumption.
      intros r Hr. destruct (Hrows r Hr) as [Hne [Hl Hs]].
      apply kl_to_uniform_row; try assumption. now rewrite Hl. }
    destruct (Hrows _ Hsel) as [Hne [Hl Hs]].
    destruct (@kl_to_uniform_row (disc (nth b emb [])) t Hne) as [_ Hunif];
      [now rewrite Hl | exact Hs |].
    apply Forall_forall. intros x Hx.
    rewrite (Hunif Hrow0 x Hx), Ht, Hcl. unfold Rdiv. ring.
Qed.

Lemma uniform_discriminator_valid (x : list R) :
  length (uniform_discriminator 0 x) = Z.to_nat 2
  /\ tsum (map exp (uniform_discriminator 0 x)) = 1.
Proof.
  split; [reflexivity|].
  unfold uniform_discriminator. simpl map.
  rewrite !tsum_cons, tsum_nil, exp_ln by lra. lra.
Qed.

Lemma uniform_discriminator_zero_loss :
  compute_discriminator_loss (uniform_discriminator 0) 2
    [[[0]; [0]]] [0%Z] false = Ok 0.
Proof.
  cbn. f_equal.
  rewrite kl_point_positive_target by lra.
  rewrite !tsum_cons, tsum_nil.
  replace (1 * (1 / 2)) with (1 / 2) by lra. lra.
Qed.

Lemma zero_adversarial_loss_only_if_uniform_witness :
  exists embedding,
    embedding_of [[[0]; [0]]] false = Ok embedding
    /\ forall b, (b < length [0%Z])%nat -> (nth b [0%Z] 0%Z < 3)%Z ->
         Forall (fun lp => exp lp = 1 / IZR 2)
                (uniform_discriminator 0 (nth b embedding [])).
Proof.
  apply (@zero_adversarial_loss_only_if_uniform (uniform_discriminator 0) 2
           [[[0]; [0]]] [0%Z] false).
  - exact uniform_discriminator_valid.
  - exact uniform_discriminator_zero_loss.
Defined.

(** ** C4: the order and number of optimizer updates *)

(** With the adversarial term, a pass that ends without an exception has
    updated the base model once and then the discriminator twice a turn. *)
Lemma adversarial_pass_steps {T : Type} {S : Scalar T} (self : Trainer T)
      (batch : Batch) (outputs : Outputs T) :
  enable_discriminator self = true ->
  snd (train_batch self batch outputs initial_state) = Ok tt ->
  optimizer_steps (trace (fst (train_batch self batch outputs initial_state)))
  = qa_optim_step :: repeat dis_optim_step (2 * Z.to_nat (num_adv_steps self))
  /\ dis_updates (fst (train_batch self batch outputs initial_state))
     = (2 * Z.to_nat (num_adv_steps self))%nat.
Proof.
  intros Hadv Hok.
  destruct (train_batch_ok_stages self batch outputs Hok)
    as [loss [pe [Hspan Hdl]]].
  destruct (Hdl Hadv) as [dl Hdl'].
  destruct (train_batch_adversarial self batch outputs Hadv Hspan Hdl')
    as [es [k [Hst [_ [_ Hsteps]]]]].
  destruct (Hsteps Hok) as [Hes Hk].
  destruct (span_outcome_prints self batch outputs Hspan) as [Hpe _].
  rewrite Hst. simpl trace. simpl dis_updates.
  split; [|lia].
  change (optimizer_steps (T:=T)) with (filter (is_optimizer_step (T:=T))).
  cbn [filter is_optimizer_step].
  change (filter (is_optimizer_step (T:=T))) with (optimizer_steps (T:=T)).
  rewrite optimizer_steps_app, Hpe. simpl. now rewrite Hes.
Qed.

Lemma adversarial_pass_completes :
  snd (train_batch adversarial_trainer one_example flat_outputs initial_state)
  = Ok tt.
Proof. reflexivity. Qed.

(** *** Batches on which the pass raises nothing *)

Lemma all_selected (A : Type) (ids : list Z) (rows : list A) :
  Forall (fun d => (0 <= d < 3)%Z) ids -> length ids = length rows ->
  map snd (filter fst (combine (map (fun z => (z <? 3)%Z) ids) rows)) = rows.
Proof.
  revert rows; induction ids as [|z ids IH]; intros [|r rows] Hids Hlen;
    simpl in *; try lia; [reflexivity|].
  inversion Hids; subst.
  replace (z <? 3)%Z with true by (symmetry; apply Z.ltb_lt; lia).
  simpl. f_equal. apply IH; [assumption | lia].
Qed.

Lemma kl_div_full_batch (input : list (list R)) (C : nat) (t : R) :
  Forall (fun r => length r = C) input ->
  exists v, kl_div_batchmean input (repeat (repeat t C) (length input)) = Ok v.
Proof.
  intros Hin. unfold kl_div_batchmean, broadcast at 1.
  rewrite repeat_length, Nat.eqb_refl. simpl rbind at 1.
  rewrite combine_repeat_r by reflexivity.
  rewrite paired_rows_value by exact Hin. eexists. reflexivity.
Qed.

Lemma compute_discriminator_loss_all_indomain (disc : list R -> list R)
      (classes : Z) (hidden_states : list (list (list R)))
      (data_set_ids : list Z) (full : bool) :
  length hidden_states = length data_set_ids ->
  (full = false -> Forall (fun h => h <> []) hidden_states) ->
  classes <> 0%Z ->
  Forall (fun d => (0 <= d < 3)%Z) data_set_ids ->
  (forall x, length (disc x) = Z.to_nat classes) ->
  exists v,
    compute_discriminator_loss disc classes hidden_states data_set_ids full
    = Ok v.
Proof.
  intros Hlen Hne Hcl Hids Hdisc. unfold compute_discriminator_loss.
  destruct (embedding_of_ok Hne) as [emb [-> Hemb]].
  simpl rbind.
  replace (classes =? 0)%Z with false by (symmetry; now apply Z.eqb_neq).
  unfold mask_select. rewrite !length_map.
  replace (length data_set_ids =? length emb)%nat with true
    by (symmetry; apply Nat.eqb_eq; lia).
  simpl rbind.
  rewrite all_selected by (rewrite ?length_map; try assumption; lia).
  destruct (length (map disc emb) =? 0)%nat; [eexists; reflexivity|].
  set (t := 1 * (1 / IZR classes)).
  replace (map (map (fun _ : R => t)) (map disc emb))
    with (repeat (repeat t (Z.to_nat classes)) (length (map disc emb))).
  - apply kl_div_full_batch. apply Forall_forall. intros r Hr.
    apply in_map_iff in Hr. destruct Hr as [x [<- _]]. apply Hdisc.
  - rewrite map_map, length_map.
    rewrite (map_ext _ (fun _ : list R => repeat t (Z.to_nat classes))).
    + symmetry. apply map_const_repeat.
    + intros x. now rewrite map_const_repeat, Hdisc.
Qed.

Lemma forward_discriminator_in_range (disc : list R -> list R) (classes : Z)
      (hidden_states : list (list (list R))) (data_set_ids : list Z)
      (full : bool) :
  length hidden_states = length data_set_ids ->
  (full = false -> Forall (fun h => h <> []) hidden_states) ->
  Forall (fun d => (0 <= d < classes)%Z) data_set_ids ->
  (forall x, length (disc x) = Z.to_nat classes) ->
  exists fwd,
    forward_discriminator disc hidden_states data_set_ids full = Ok fwd.
Proof.
  intros Hlen Hne Hids Hdisc. unfold forward_discriminator.
  destruct (embedding_of_ok Hne) as [emb [-> Hemb]].
  simpl rbind. unfold nll_loss_mean. rewrite length_map.
  replace (length emb =? length data_set_ids)%nat with true
    by (symmetry; apply Nat.eqb_eq; lia).
  destruct (@rmap_total _ _
              (fun lt : list R * Z => nll_example (fst lt) (snd lt))
              (combine (map disc emb) data_set_ids)) as [terms Hterms].
  - intros [row d] Hin. cbn [fst snd].
    pose proof (in_combine_l _ _ _ _ Hin) as Hrow.
    pose proof (in_combine_r _ _ _ _ Hin) as Hd.
    apply in_map_iff in Hrow. destruct Hrow as [x [<- _]].
    rewrite Forall_forall in Hids. specialize (Hids d Hd).
    unfold nll_example. rewrite Hdisc.
    replace (d =? -100)%Z with false by (symmetry; apply Z.eqb_neq; lia).
    replace (0 <=? d)%Z with true by (symmetry; apply Z.leb_le; lia).
    replace (d <? Z.of_nat (Z.to_nat classes))%Z with true
      by (symmetry; apply Z.ltb_lt; lia).
    eexists. reflexivity.
  - rewrite Hterms. simpl. eexists. reflexivity.
Qed.

(** With the adversarial term, a pass over a batch with the shapes of the
    source and only in-domain examples raises nothing. *)
Lemma all_indomain_pass_completes (L : nat) (self : Trainer R) (batch : Batch)
      (outputs : Outputs R) :
  well_shaped L self batch outputs ->
  enable_discriminator self = true ->
  (full_adv self = false ->
   Forall (fun h => h <> []) (last_hidden_states outputs)) ->
  Forall (fun d => (0 <= d < 3)%Z) (data_set_id batch) ->
  (3 <= num_classes self)%Z ->
  (forall n x, length (discriminator self n x) = Z.to_nat (num_classes self)) ->
  snd (train_batch self batch outputs initial_state) = Ok tt.
Proof.
  intros Hshape Hadv Hne Hids Hcl Hdisc.
  destruct Hshape as [Hpos [Hsp [Hep [Hid [Hsl [Hel [Hhs [Hrs [Hre _]]]]]]]]].
  assert (Hspan : exists loss pe, span_outcome self batch outputs = Ok (loss, pe)).
  { unfold span_outcome. destruct (enable_length_bp_penalty self).
    - destruct (@reweighted_span_loss_parts L (length (input_ids batch))
                  (weight (length_reweighting (length (input_ids batch))
                             (outputs_start_logits outputs)
                             (outputs_end_logits outputs)
                             (start_positions batch) (end_positions batch)))
                  (outputs_start_logits outputs) (outputs_end_logits outputs)
                  (start_positions batch) (end_positions batch))
        as [sl [Hok _]]; try assumption.
      + now apply weight_length.
      + rewrite Hok. simpl. eexists. eexists. reflexivity.
    - eexists. eexists. reflexivity. }
  destruct Hspan as [loss [pe Hspan]].
  destruct (@compute_discriminator_loss_all_indomain (discriminator self 0)
              (num_classes self) (last_hidden_states outputs)
              (data_set_id batch) (full_adv self)) as [dl Hdl];
    try assumption; try lia; [apply Hdisc|].
  assert (Hturn : forall n acc st,
            exists st' r,
              for_range n (adversarial_turn self batch outputs) acc st
              = (st', Ok r)).
  { induction n as [|n IH]; intros acc st.
    - eexists. eexists. reflexivity.
    - simpl for_range. unfold bind. rewrite adversarial_turn_run.
      destruct (@forward_discriminator_in_range
                  (discriminator self (S (dis_updates st))) (num_classes self)
                  (last_hidden_states outputs) (data_set_id batch)
                  (full_adv self)) as [fwd Hfwd]; try assumption; try lia.
      + eapply Forall_impl; [|exact Hids]. simpl. intros; lia.
      + apply Hdisc.
      + rewrite Hfwd. apply IH. }
  unfold train_batch, bind.
  rewrite emit_all_run, span_stage_run, Hspan, Hadv.
  unfold current_discriminator, lift. simpl dis_updates. rewrite Hdl.
  rewrite !emit_run.
  match goal with
  | |- context [for_range ?n ?body ?acc ?st] =>
      destruct (Hturn n acc st) as [st' [r Hr]]; rewrite Hr
  end.
  unfold log_stage. rewrite emit_all_run. reflexivity.
Qed.

(** A pass can raise before any update: with two in-domain examples in a
    batch of three, the two selected rows of log-probabilities do not
    broadcast against the three rows of targets built before the
    selection. *)
Lemma mixed_batch_raises :
  snd (train_batch adversarial_trainer mixed_batch mixed_outputs initial_state)
  = Raise RuntimeError
  /\ optimizer_steps
       (trace (fst (train_batch adversarial_trainer mixed_batch mixed_outputs
                                initial_state))) = [].
Proof. split; reflexivity. Qed.

(** C4, as the code has it: with adversarial mode enabled and [N]
    discriminator steps configured, every training batch whose pass raises
    no exception performs exactly one base-model optimizer update and
    exactly [2 N] discriminator optimizer updates, two in each turn of the
    loop, the base-model update before all of them. *)
Theorem optimizer_updates_per_batch {T : Type} {S : Scalar T} (N : nat)
        (self : Trainer T) (batch : Batch) (outputs : Outputs T) :
  enable_discriminator self = true ->
  num_adv_steps self = Z.of_nat N ->
  snd (train_batch self batch outputs initial_state) = Ok tt ->
  optimizer_steps (trace (fst (train_batch self batch outputs initial_state)))
  = qa_optim_step :: repeat dis_optim_step (2 * N).
Proof.
  intros Hadv HN Hok.
  destruct (adversarial_pass_steps self batch outputs Hadv Hok) as [Hsteps _].
  rewrite Hsteps, HN, Nat2Z.id. reflexivity.
Qed.

Lemma optimizer_updates_per_batch_witness :
  optimizer_steps
    (trace (fst (train_batch adversarial_trainer one_example flat_outputs
                             initial_state)))
  = qa_optim_step :: repeat dis_optim_step (2 * 3).
Proof.
  apply (@optimizer_updates_per_batch R RealScalar 3 adversarial_trainer
           one_example flat_outputs); reflexivity.
Defined.

(** C4 as the specification words it fails for three configured
    discriminator steps: the pass ends without an exception and has made six
    discriminator updates, not three. *)
Lemma three_steps_make_six_updates :
  snd (train_batch adversarial_trainer one_example flat_outputs initial_state)
  = Ok tt
  /\ num_adv_steps adversarial_trainer = 3%Z
  /\ optimizer_steps
       (trace (fst (train_batch adversarial_trainer one_example flat_outputs
                                initial_state)))
     <> qa_optim_step :: repeat dis_optim_step 3.
Proof.
  split; [exact adversarial_pass_completes|]. split; [reflexivity|].
  destruct (adversarial_pass_steps adversarial_trainer one_example flat_outputs
              eq_refl adversarial_pass_completes) as [Hsteps _].
  rewrite Hsteps. simpl. discriminate.
Qed.

(* ================================================================== *)
(** * Further properties of the code *)

(** ** The mask for every value of [length_k] *)

Section MaskForEveryK.
Context {T : Type} `{Scalar T}.

(** Row [r] of the loop of lines 167-168 for any integer [length_k]: the
    slice [r : r + k + 1] follows the rules of Python slices. *)
Lemma filled_rows_entry_any (L : nat) (k : Z) (r c : nat) :
  (r < L)%nat -> (c < L)%nat ->
  entry (filled_rows L k) r c
  = if (r <=? c)%nat && (c <? slice_bound L (Z.of_nat r + k + 1))%nat
    then tzero else tone.
Proof.
  intros Hr Hc. unfold entry.
  rewrite filled_rows_nth by exact Hr.
  rewrite slice_fill_nth by (rewrite repeat_length; exact Hc).
  rewrite repeat_length, nth_repeat_lt by exact Hc.
  replace (slice_bound L (Z.of_nat r)) with r; [reflexivity|].
  unfold slice_bound.
  replace (Z.of_nat r <? 0)%Z with false by (symmetry; apply Z.ltb_ge; lia).
  rewrite Nat2Z.id. lia.
Qed.

Lemma length_mask_entry_any (L : nat) (k : Z) (i j : nat) :
  (i < L)%nat -> (j < L)%nat ->
  entry (length_mask L k) i j
  = if (j <=? i)%nat && (i <? slice_bound L (Z.of_nat j + k + 1))%nat
    then tzero else tone.
Proof.
  intros Hi Hj.
  change (length_mask L k) with (transpose (filled_rows L k)).
  unfold entry. rewrite transpose_nth by (rewrite filled_rows_ncols; exact Hi).
  apply (filled_rows_entry_any k Hj Hi).
Qed.

End MaskForEveryK.

Lemma pair_mass_ext (sel sel' : nat -> nat -> bool) (s e : list R) :
  (forall i j, (i < length s)%nat -> (j < length e)%nat -> sel i j = sel' i j) ->
  pair_mass sel s e = pair_mass sel' s e.
Proof.
  intros Hsel. unfold pair_mass.
  apply tsum_map_ext. intros i Hi. apply in_seq in Hi.
  apply tsum_map_ext. intros j Hj. apply in_seq in Hj.
  rewrite Hsel by lia. reflexivity.
Qed.

(** The trace of lines 356-358 against the mask of any [length_k]. *)
Lemma any_band_trace_mass (L : nat) (k : Z) (s e : list R) :
  length s = L -> length e = L ->
  example_trace (length_mask L k) s e
  = pair_mass (fun i j =>
                 negb ((i <=? j)%nat
                       && (j <? slice_bound L (Z.of_nat i + k + 1))%nat)) s e.
Proof.
  intros Hs He.
  rewrite (@example_trace_sum L _ s e (length_mask_has_shape L k) Hs He).
  unfold pair_mass. rewrite Hs, He.
  apply tsum_map_ext. intros i Hi. apply in_seq in Hi.
  apply tsum_map_ext. intros j Hj. apply in_seq in Hj.
  rewrite length_mask_entry_any by lia.
  destruct ((i <=? j)%nat && (j <? slice_bound L (Z.of_nat i + k + 1))%nat);
    simpl; lra.
Qed.

(** X1.  Once [length_k] reaches [L - 1] (as the 1000 of [test.py] does for
    its 5 positions) the mask no longer depends on it: the trace of an
    example is the probability that the end lies before the start, and
    nothing else is penalised. *)
Theorem saturated_mask_penalises_reversed_spans (L : nat) (k : Z)
        (start_logits end_logits : list R) :
  (Z.of_nat L - 1 <= k)%Z ->
  length start_logits = L -> length end_logits = L ->
  example_trace (length_mask L k) (softmax start_logits) (softmax end_logits)
  = pair_mass (fun i j => (j <? i)%nat)
              (softmax start_logits) (softmax end_logits).
Proof.
  intros Hk Hs He.
  rewrite (@any_band_trace_mass L k) by (now rewrite softmax_length).
  apply pair_mass_ext. intros i j Hi Hj.
  rewrite softmax_length in Hi, Hj.
  unfold slice_bound.
  replace (Z.of_nat i + k + 1 <? 0)%Z with false
    by (symmetry; apply Z.ltb_ge; lia).
  destruct (Nat.leb_spec i j) as [Hij|Hij];
    destruct (Nat.ltb_spec j i) as [Hji|Hji]; try lia; simpl; try reflexivity.
  replace (j <? Nat.min (Z.to_nat (Z.of_nat i + k + 1)) L)%nat with true;
    [reflexivity|].
  symmetry. apply Nat.ltb_lt. lia.
Qed.

Lemma saturated_mask_penalises_reversed_spans_witness :
  example_trace (test_length_mask 1000) (softmax [1; 2; 3; 4; 5])
                (softmax [3; 2; 1; 4; 5])
  = pair_mass (fun i j => (j <? i)%nat)
              (softmax [1; 2; 3; 4; 5]) (softmax [3; 2; 1; 4; 5]).
Proof.
  apply (@saturated_mask_penalises_reversed_spans 5 1000 [1; 2; 3; 4; 5]
           [3; 2; 1; 4; 5]); [lia | reflexivity | reflexivity].
Defined.


Lemma tsum_map_all_equal (A : Type) (f : A -> R) (c : R) (l : list A) :
  (forall x, In x l -> f x = c) -> tsum (map f l) = INR (length l) * c.
Proof.
  intros Hf. rewrite <- tsum_map_const. now apply tsum_map_ext.
Qed.



(** X3.  A [length_k] below -1 is not an empty band: the end [i + k + 1] of
    the slice is negative for the first rows and Python counts it from the
    end of the row.  Entry [(i, j)] of the mask is then 0 exactly when
    [j < -k - 1] and [0 <= i - j < L + k + 1]. *)
Theorem negative_length_k_wraps_around (L : nat) (k : Z) (i j : nat) :
  (k <= -2)%Z -> (i < L)%nat -> (j < L)%nat ->
  (entry (length_mask (T:=R) L k) i j = 0
   <-> (Z.of_nat j < - k - 1
        /\ 0 <= Z.of_nat i - Z.of_nat j < Z.of_nat L + k + 1)%Z)
  /\ (entry (length_mask (T:=R) L k) i j = 0
      \/ entry (length_mask (T:=R) L k) i j = 1).
Proof.
  intros Hk Hi Hj. rewrite length_mask_entry_any by assumption.
  unfold slice_bound.
  destruct (Nat.leb_spec j i) as [Hji|Hji]; simpl.
  - destruct (Z.ltb_spec (Z.of_nat j + k + 1) 0) as [Hneg|Hpos].
    + destruct (Nat.ltb_spec i (Z.to_nat (Z.max (Z.of_nat j + k + 1 + Z.of_nat L) 0)))
        as [Hlt|Hge].
      * split; [|now left]. split; [intros _; lia | reflexivity].
      * split; [|now right]. split; [intros H01; lra | intros; lia].
    + destruct (Nat.ltb_spec i (Nat.min (Z.to_nat (Z.of_nat j + k + 1)) L))
        as [Hlt|Hge]; [lia|].
      split; [|now right]. split; [intros H01; lra | intros; lia].
  - split; [|now right]. split; [intros H01; lra | intros; lia].
Qed.

Lemma negative_length_k_wraps_around_witness :
  (entry (length_mask (T:=R) 5 (-2)) 3 0 = 0
   <-> (Z.of_nat 0 < - (-2) - 1
        /\ 0 <= Z.of_nat 3 - Z.of_nat 0 < Z.of_nat 5 + (-2) + 1)%Z)
  /\ (entry (length_mask (T:=R) 5 (-2)) 3 0 = 0
      \/ entry (length_mask (T:=R) 5 (-2)) 3 0 = 1).
Proof.
  apply (@negative_length_k_wraps_around 5 (-2) 3 0); lia.
Defined.

(** X4.  The length loss of a batch against the trainer's mask is the
    average, over the examples, of the probability that the end lies
    before the start or more than [length_k] positions after it. *)
Theorem length_loss_is_mean_out_of_band_mass (L batch_size : nat) (k : Z)
        (start_logits end_logits : list (list R)) :
  (0 <= k)%Z ->
  Forall (fun r => length r = L) start_logits ->
  Forall (fun r => length r = L) end_logits ->
  length_loss batch_size (length_mask L k) start_logits end_logits
  = tsum (map (fun se =>
                 pair_mass (fun i j => (implied_length i j <=? 0)%Z
                                       || (k + 1 <? implied_length i j)%Z)
                           (softmax (fst se)) (softmax (snd se)))
              (combine start_logits end_logits))
    / INR batch_size.
Proof.
  intros Hk Hrs Hre. unfold length_loss.
  rewrite expected_length_penalty_mean, combine_map_both, map_map.
  f_equal. apply tsum_map_ext. intros [s e] Hin. cbn [fst snd].
  rewrite Forall_forall in Hrs, Hre.
  apply band_trace_mass; try exact Hk; rewrite softmax_length.
  - apply Hrs. eapply in_combine_l, Hin.
  - apply Hre. eapply in_combine_r, Hin.
Qed.

Lemma length_loss_is_mean_out_of_band_mass_witness :
  length_loss 2 (length_mask 5 1)
    [[1; 2; 3; 4; 5]; [6; 5; 4; 3; 2]] [[3; 2; 1; 4; 5]; [4; 5; 6; 3; 2]]
  = tsum (map (fun se =>
                 pair_mass (fun i j => (implied_length i j <=? 0)%Z
                                       || (1 + 1 <? implied_length i j)%Z)
                           (softmax (fst se)) (softmax (snd se)))
              (combine [[1; 2; 3; 4; 5]; [6; 5; 4; 3; 2]]
                       [[3; 2; 1; 4; 5]; [4; 5; 6; 3; 2]]))
    / INR 2.
Proof.
  apply (@length_loss_is_mean_out_of_band_mass 5 2 1
           [[1; 2; 3; 4; 5]; [6; 5; 4; 3; 2]]
           [[3; 2; 1; 4; 5]; [4; 5; 6; 3; 2]]);
    try lia; repeat (apply Forall_cons; [reflexivity|]); apply Forall_nil.
Defined.






(** ** The weights of lines 303-315 *)

Lemma exp_le_compat (x y : R) : x <= y -> exp x <= exp y.
Proof.
  intros [Hlt | ->]; [left; now apply exp_increasing | right; reflexivity].
Qed.

Lemma weight_rule_range (p g : Z) : 1 <= weight_rule p g < exp 1.
Proof.
  assert (He : 2 < exp 1) by (pose proof (exp_ineq1 1); lra).
  unfold weight_rule, base_weight.
  destruct (Z.leb_spec p 0) as [Hp|Hp]; [lra|].
  destruct (Z.leb_spec p (Z.max g 1)) as [Hm|Hm]; [lra|].
  replace (Z.max p 1) with p by lia.
  assert (HG : 0 < IZR (Z.max g 1)) by (apply IZR_lt; lia).
  assert (HP : IZR (Z.max g 1) < IZR p) by (apply IZR_lt; lia).
  assert (Hratio : 0 < IZR (Z.max g 1) / IZR p < 1).
  { split.
    - apply Rdiv_lt_0_compat; lra.
    - apply (Rmult_lt_reg_r (IZR p)); [lra|].
      unfold Rdiv. rewrite Rmult_assoc, Rinv_l by lra. lra. }
  split.
  - apply Rle_trans with (exp 0); [rewrite exp_0; lra|].
    apply exp_le_compat. lra.
  - apply exp_increasing. lra.
Qed.

Lemma weight_rule_monotone (p p' g : Z) :
  (1 <= p <= p')%Z -> weight_rule p g <= weight_rule p' g.
Proof.
  intros Hp. pose proof (weight_rule_range p' g) as Hrange.
  unfold weight_rule, base_weight in *.
  destruct (Z.leb_spec p 0) as [Hp0|Hp0]; [lia|].
  destruct (Z.leb_spec p' 0) as [Hp0'|Hp0']; [lia|].
  destruct (Z.leb_spec p (Z.max g 1)) as [Hm|Hm]; [lra|].
  destruct (Z.leb_spec p' (Z.max g 1)) as [Hm'|Hm']; [lia|].
  replace (Z.max p 1) with p by lia.
  replace (Z.max p' 1) with p' by lia.
  apply exp_le_compat.
  assert (HG : 0 < IZR (Z.max g 1)) by (apply IZR_lt; lia).
  assert (HP : 0 < IZR p) by (apply IZR_lt; lia).
  assert (HPP : IZR p <= IZR p') by (apply IZR_le; lia).
  assert (/ IZR p' <= / IZR p) by (apply Rinv_le_contravar; lra).
  unfold Rdiv. nra.
Qed.


(** X6.  Every example's weight lies in [[1, e)]: the reweighting never
    lowers the loss of an example, and never multiplies it by [e] or
    more. *)
Theorem weight_between_one_and_e (batch_size : nat)
        (start_logits end_logits : list (list R))
        (start_positions end_positions : list Z) (b : nat) :
  length start_logits = batch_size -> length end_logits = batch_size ->
  length start_positions = batch_size -> length end_positions = batch_size ->
  (b < batch_size)%nat ->
  1 <= nth b (weight (length_reweighting batch_size start_logits end_logits
                        start_positions end_positions)) 0
    < exp 1.
Proof.
  intros Hsl Hel Hsp Hep Hb.
  rewrite (weight_nth _ _ _ _ Hsl Hel Hsp Hep Hb).
  rewrite replacements_are_weight_rule. apply weight_rule_range.
Qed.

Lemma weight_between_one_and_e_witness :
  1 <= nth 0 (weight (length_reweighting 1 [peak_at_zero] [peak_at_one]
                        [7%Z] [7%Z])) 0
    < exp 1.
Proof.
  apply (@weight_between_one_and_e 1 [peak_at_zero] [peak_at_one]
           [7%Z] [7%Z] 0%nat); try reflexivity; lia.
Defined.

(** X7.  Of two examples of a batch with the same gold length, the one
    whose predicted length is the longer (both at least 1) never has the
    smaller weight. *)
Theorem longer_prediction_weighs_more (batch_size : nat)
        (start_logits end_logits : list (list R))
        (start_positions end_positions : list Z) (b b' : nat) :
  length start_logits = batch_size -> length end_logits = batch_size ->
  length start_positions = batch_size -> length end_positions = batch_size ->
  (b < batch_size)%nat -> (b' < batch_size)%nat ->
  let rw := length_reweighting batch_size start_logits end_logits
              start_positions end_positions in
  nth b (gold_length rw) 0%Z = nth b' (gold_length rw) 0%Z ->
  (1 <= nth b (pred_length rw) 0%Z <= nth b' (pred_length rw) 0%Z)%Z ->
  nth b (weight rw) 0 <= nth b' (weight rw) 0.
Proof.
  intros Hsl Hel Hsp Hep Hb Hb' rw.
  assert (Hpl : forall c, (c < batch_size)%nat ->
            nth c (pred_length rw) 0%Z
            = (argmax (nth c end_logits []) - argmax (nth c start_logits [])
               + 1)%Z).
  { intros c Hc. unfold rw, length_reweighting. cbn [pred_length].
    rewrite (zip_with_nth _ _ _ 0%Z 0%Z 0%Z) by (rewrite length_map; lia).
    rewrite !(nth_map_lt _ _ [] 0%Z) by lia. reflexivity. }
  assert (Hgl : forall c, (c < batch_size)%nat ->
            nth c (gold_length rw) 0%Z
            = (nth c end_positions 0 - nth c start_positions 0 + 1)%Z).
  { intros c Hc. unfold rw, length_reweighting. cbn [gold_length].
    now rewrite (zip_with_nth _ _ _ 0%Z 0%Z 0%Z) by lia. }
  intros Hgold Hpred. unfold rw.
  rewrite (weight_nth _ _ _ _ Hsl Hel Hsp Hep Hb).
  rewrite (weight_nth _ _ _ _ Hsl Hel Hsp Hep Hb').
  rewrite !replacements_are_weight_rule.
  rewrite <- !Hpl, <- !Hgl by assumption. fold rw. rewrite Hgold.
  now apply weight_rule_monotone.
Qed.

Lemma longer_prediction_weighs_more_witness :
  let rw := length_reweighting 2 [peak_at_zero; peak_at_zero]
              [peak_at_zero; peak_at_one] [7%Z; 7%Z] [7%Z; 7%Z] in
  nth 0 (weight rw) 0 <= nth 1 (weight rw) 0.
Proof.
  intros rw.
  apply (@longer_prediction_weighs_more 2 [peak_at_zero; peak_at_zero]
           [peak_at_zero; peak_at_one] [7%Z; 7%Z] [7%Z; 7%Z] 0%nat 1%nat);
    try reflexivity; try lia.
  unfold length_reweighting. cbn [pred_length zip_with map combine nth fst snd].
  rewrite argmax_peak_at_zero, argmax_peak_at_one. lia.
Defined.

(** ** The reweighted span loss of lines 322-332 *)

Lemma tsum_map_ge_term (A : Type) (f : A -> R) (l : list A) (x0 : A) :
  (forall x, In x l -> 0 <= f x) -> In x0 l -> f x0 <= tsum (map f l).
Proof.
  induction l as [|x l IH]; intros Hf Hin; [contradiction|].
  simpl map. rewrite tsum_cons.
  assert (0 <= f x) by (apply Hf; now left).
  assert (0 <= tsum (map f l))
    by (apply tsum_map_nonneg; intros; apply Hf; now right).
  destruct Hin as [->|Hin]; [lra|].
  assert (f x0 <= tsum (map f l))
    by (apply IH; try assumption; intros; apply Hf; now right).
  lra.
Qed.




(** The two cross-entropy terms of each example of a batch on which lines
    322-332 raise nothing. *)
Lemma reweighted_span_loss_terms (batch_size : nat) (w : list R)
      (start_logits end_logits : list (list R))
      (start_positions end_positions : list Z) (sl : SpanLoss R) :
  reweighted_span_loss batch_size w start_logits end_logits
                       start_positions end_positions = Ok sl ->
  let ignored_index := Z.of_nat (ncols start_logits) in
  length (start_loss sl) = length start_logits
  /\ length (end_loss sl) = length end_logits
  /\ length start_positions = length start_logits
  /\ length end_positions = length end_logits
  /\ (forall b, (b < length start_logits)%nat ->
        cross_entropy_example ignored_index (nth b start_logits [])
          (clamp 0 ignored_index (nth b start_positions 0%Z))
        = Ok (nth b (start_loss sl) 0))
  /\ (forall b, (b < length end_logits)%nat ->
        cross_entropy_example ignored_index (nth b end_logits [])
          (clamp 0 ignored_index (nth b end_positions 0%Z))
        = Ok (nth b (end_loss sl) 0)).
Proof.
  unfold reweighted_span_loss.
  set (ig := Z.of_nat (ncols start_logits)).
  assert (Hce : forall logits positions losses,
            cross_entropy_none ig logits (map (clamp 0 ig) positions)
            = Ok losses ->
            length losses = length logits
            /\ length positions = length logits
            /\ forall b, (b < length logits)%nat ->
                 cross_entropy_example ig (nth b logits [])
                   (clamp 0 ig (nth b positions 0%Z))
                 = Ok (nth b losses 0)).
  { intros logits positions losses. unfold cross_entropy_none.
    rewrite length_map.
    destruct (Nat.eqb_spec (length logits) (length positions)) as [Hl|Hl];
      [|discriminate].
    intros Hr.
    destruct (rmap_ok_nth _ _ ([], 0%Z) 0 Hr) as [Hlen Hnth].
    rewrite length_combine, length_map in Hlen, Hnth.
    split; [lia|]. split; [lia|].
    intros b Hb. specialize (Hnth b ltac:(lia)).
    rewrite combine_nth_lt in Hnth by (rewrite ?length_map; lia).
    cbn [fst snd] in Hnth.
    now rewrite (nth_map_lt _ _ 0%Z 0%Z) in Hnth by lia. }
  destruct (cross_entropy_none ig start_logits _) as [s_loss|e] eqn:Hs;
    [|discriminate].
  destruct (cross_entropy_none ig end_logits _) as [e_loss|e] eqn:He;
    [|discriminate].
  simpl. intros Hsl. inversion Hsl; subst. cbn [start_loss end_loss].
  destruct (Hce _ _ _ Hs) as [H1 [H2 H3]].
  destruct (Hce _ _ _ He) as [H4 [H5 H6]].
  repeat split; assumption.
Qed.



(** X9.  A negative gold position is not ignored: it is clamped to 0 and
    the example is scored as if its gold position were the first token. *)
Theorem negative_position_is_scored_as_first (batch_size : nat) (w : list R)
        (start_logits end_logits : list (list R))
        (start_positions end_positions : list Z) (sl : SpanLoss R) (b : nat) :
  reweighted_span_loss batch_size w start_logits end_logits
                       start_positions end_positions = Ok sl ->
  (0 < ncols start_logits)%nat ->
  (b < length start_logits)%nat ->
  (nth b start_positions 0%Z <= 0)%Z ->
  nth b (start_loss sl) 0
  = - nth 0 (log_softmax (nth b start_logits [])) 0.
Proof.
  intros Hok Hnc Hb Hp.
  destruct (reweighted_span_loss_terms _ _ _ _ _ _ Hok)
    as [_ [_ [_ [_ [Hst _]]]]].
  specialize (Hst b Hb). unfold cross_entropy_example in Hst.
  set (ig := Z.of_nat (ncols start_logits)) in *.
  replace (clamp 0 ig (nth b start_positions 0%Z)) with 0%Z in Hst
    by (unfold clamp; lia).
  replace (0 =? ig)%Z with false in Hst
    by (symmetry; apply Z.eqb_neq; lia).
  destruct ((0 <=? 0)%Z && (0 <? Z.of_nat (length (nth b start_logits [])))%Z);
    [|discriminate].
  inversion Hst as [Hv]. unfold tneg. cbn [tsub tzero RealScalar].
  simpl Z.to_nat. lra.
Qed.

Lemma negative_position_is_scored_as_first_witness :
  exists sl,
    reweighted_span_loss 1 [1] [peak_at_zero] [peak_at_one] [(-4)%Z] [7%Z]
    = Ok sl
    /\ nth 0 (start_loss sl) 0 = - nth 0 (log_softmax (nth 0 [peak_at_zero] [])) 0.
Proof.
  eexists. split; [reflexivity|].
  apply (@negative_position_is_scored_as_first 1 [1] [peak_at_zero]
           [peak_at_one] [(-4)%Z] [7%Z]).
  - reflexivity.
  - unfold ncols, peak_at_zero. simpl. lia.
  - simpl. lia.
  - simpl. lia.
Defined.

(** ** The encoder-adversarial loss of lines 242-254 *)

Lemma length_concat_shape (T : Type) (rows cols : nat) (m : list (list T)) :
  length m = rows -> Forall (fun r => length r = cols) m ->
  length (concat m) = (rows * cols)%nat.
Proof.
  revert rows; induction m as [|r m IH]; intros rows Hlen Hrows; simpl in *.
  - subst rows. reflexivity.
  - inversion Hrows; subst. rewrite length_app, (IH (length m)) by auto.
    simpl. lia.
Qed.

(** X10.  The representation handed to the discriminator has the size the
    discriminator was built with: for hidden states of 384 positions and
    768 features, [384 * 768] entries when the whole layer is flattened
    and 768 otherwise, and its extraction raises nothing. *)
Theorem embedding_has_discriminator_input_size (T : Type)
        (hidden_states : list (list (list T))) (full : bool) :
  Forall (fun h => length h = 384%nat
                   /\ Forall (fun v => length v = 768%nat) h) hidden_states ->
  exists embedding,
    embedding_of hidden_states full = Ok embedding
    /\ length embedding = length hidden_states
    /\ Forall (fun v => Z.of_nat (length v) = discriminator_input_size full)
              embedding.
Proof.
  intros Hshape. unfold embedding_of, discriminator_input_size.
  destruct full.
  - eexists. split; [reflexivity|]. split; [apply length_map|].
    apply Forall_forall. intros v Hv. apply in_map_iff in Hv.
    destruct Hv as [h [<- Hh]].
    rewrite Forall_forall in Hshape. destruct (Hshape h Hh) as [Hr Hc].
    rewrite (@length_concat_shape T 384 768) by assumption. lia.
  - induction hidden_states as [|h hs IH].
    + exists []. repeat split. apply Forall_nil.
    + inversion Hshape as [|? ? [Hr Hc] Hrest]; subst.
      destruct (IH Hrest) as [emb [Hemb [Hlen Hall]]].
      destruct h as [|v h]; [simpl in Hr; lia|].
      exists (v :: emb). simpl. rewrite Hemb. simpl.
      split; [reflexivity|]. split; [now rewrite Hlen|].
      apply Forall_cons; [|exact Hall].
      inversion Hc; subst. lia.
Qed.

Lemma embedding_has_discriminator_input_size_witness :
  exists embedding,
    embedding_of [repeat (repeat 0 768) 384; repeat (repeat 0 768) 384] true
    = Ok embedding
    /\ length embedding
       = length [repeat (repeat 0 768) 384; repeat (repeat 0 768) 384]
    /\ Forall (fun v => Z.of_nat (length v) = discriminator_input_size true)
              embedding.
Proof.
  apply (@embedding_has_discriminator_input_size R
           [repeat (repeat 0 768) 384; repeat (repeat 0 768) 384] true).
  repeat (apply Forall_cons;
          [split; [apply repeat_length|];
           apply Forall_forall; intros v Hv; apply repeat_spec in Hv;
           subst v; apply repeat_length|]).
  apply Forall_nil.
Defined.

Lemma selected_count (A : Type) (ids : list Z) (rows : list A) :
  length ids = length rows ->
  length (map snd (filter fst (combine (map (fun z => (z <? 3)%Z) ids) rows)))
  = indomain_count ids.
Proof.
  unfold indomain_count.
  revert rows; induction ids as [|z ids IH]; intros [|r rows] Hlen;
    simpl in *; try lia.
  destruct (z <? 3)%Z; simpl; rewrite IH by lia; reflexivity.
Qed.

Lemma selected_from (A : Type) (ids : list Z) (rows : list A) (d r : A) :
  length ids = length rows ->
  In r (map snd (filter fst (combine (map (fun z => (z <? 3)%Z) ids) rows))) ->
  exists b, (b < length ids)%nat /\ (nth b ids 0%Z < 3)%Z /\ r = nth b rows d.
Proof.
  revert rows; induction ids as [|z ids IH]; intros [|x rows] Hlen Hin;
    simpl in *; try contradiction; try lia.
  destruct (Z.ltb_spec z 3) as [Hz|Hz]; simpl in Hin.
  - destruct Hin as [<-|Hin].
    + exists 0%nat. repeat split; [lia | exact Hz].
    + destruct (IH rows ltac:(lia) Hin) as [b [Hb [Hd Hr]]].
      exists (S b). repeat split; [lia | exact Hd | exact Hr].
  - destruct (IH rows ltac:(lia) Hin) as [b [Hb [Hd Hr]]].
    exists (S b). repeat split; [lia | exact Hd | exact Hr].
Qed.

(** [KLDivLoss] of one selected row against [B] rows of targets: the row
    is repeated [B] times and the sum divided by 1. *)
Lemma kl_div_single_row (x : list R) (B : nat) (t : R) :
  kl_div_batchmean [x] (repeat (repeat t (length x)) B)
  = Ok (INR B * tsum (map (fun c => kl_point c t) x) / 1).
Proof.
  unfold kl_div_batchmean. cbn [of_int RealScalar]. rewrite <- INR_IZR_INZ.
  change (INR (length [x])) with 1.
  unfold broadcast at 1. rewrite repeat_length.
  destruct (Nat.eqb_spec (length [x]) B) as [Heq|Hneq].
  - cbn [rbind]. rewrite combine_repeat_r by exact Heq.
    rewrite paired_rows_value
      by (apply Forall_cons; [reflexivity|apply Forall_nil]).
    rewrite <- Heq. simpl map. rewrite tsum_cons, tsum_nil.
    do 2 f_equal. simpl INR. lra.
  - cbn [rbind].
    replace (map (fun y : list R => (x, y)) (repeat (repeat t (length x)) B))
      with (map (fun r : list R => (r, repeat t (length x))) (repeat x B))
      by (rewrite !map_repeat; reflexivity).
    rewrite paired_rows_value.
    + now rewrite tsum_map_repeat.
    + apply Forall_forall. intros r Hr. apply repeat_spec in Hr. now subst r.
Qed.

(** Between two and [B - 1] selected rows nothing broadcasts. *)
Lemma kl_div_raises (input : list (list R)) (B : nat) (y : list R) :
  (2 <= length input < B)%nat ->
  kl_div_batchmean input (repeat y B) = Raise RuntimeError.
Proof.
  intros Hn. unfold kl_div_batchmean, broadcast at 1. rewrite repeat_length.
  destruct (Nat.eqb_spec (length input) B) as [Heq|_]; [lia|].
  destruct input as [|x [|x' rest]]; simpl in Hn; try lia.
  destruct B as [|[|B]]; try lia. reflexivity.
Qed.

(** Lines 246-254 once the representation is extracted: the outcome is
    decided by the number of in-domain examples. *)
Lemma compute_discriminator_loss_cases (disc : list R -> list R) (classes : Z)
      (C : nat) (hidden_states : list (list (list R))) (data_set_ids : list Z)
      (full : bool) (emb : list (list R)) :
  embedding_of hidden_states full = Ok emb ->
  length emb = length data_set_ids ->
  classes <> 0%Z ->
  (forall x, length (disc x) = C) ->
  let selected :=
    map snd (filter fst (combine (map (fun d => (d <? 3)%Z) data_set_ids)
                                 (map disc emb))) in
  compute_discriminator_loss disc classes hidden_states data_set_ids full
  = if (length selected =? 0)%nat then Ok 0
    else kl_div_batchmean selected
           (repeat (repeat (1 * (1 / IZR classes)) C) (length emb)).
Proof.
  intros Hemb Hlen Hcl Hdisc selected.
  unfold compute_discriminator_loss. rewrite Hemb. simpl rbind.
  replace (classes =? 0)%Z with false by (symmetry; now apply Z.eqb_neq).
  unfold mask_select. rewrite !length_map.
  replace (length data_set_ids =? length emb)%nat with true
    by (symmetry; apply Nat.eqb_eq; lia).
  simpl rbind. fold selected.
  set (t := 1 * (1 / IZR classes)).
  replace (map (map (fun _ : R => t)) (map disc emb))
    with (repeat (repeat t C) (length emb)); [reflexivity|].
  rewrite map_map.
  rewrite (map_ext _ (fun _ : list R => repeat t C)).
  - symmetry. apply map_const_repeat.
  - intros x. now rewrite map_const_repeat, Hdisc.
Qed.

Lemma all_selected_below (A : Type) (ids : list Z) (rows : list A) :
  Forall (fun d => (d < 3)%Z) ids -> length ids = length rows ->
  map snd (filter fst (combine (map (fun z => (z <? 3)%Z) ids) rows)) = rows.
Proof.
  revert rows; induction ids as [|z ids IH]; intros [|r rows] Hids Hlen;
    simpl in *; try lia; [reflexivity|].
  inversion Hids; subst.
  replace (z <? 3)%Z with true by (symmetry; apply Z.ltb_lt; lia).
  simpl. f_equal. apply IH; [assumption | lia].
Qed.

Lemma kl_div_full_batch_value (input : list (list R)) (C : nat) (t : R) :
  Forall (fun r => length r = C) input ->
  kl_div_batchmean input (repeat (repeat t C) (length input))
  = Ok (tsum (map (fun r => tsum (map (fun x => kl_point x t) r)) input)
        / INR (length input)).
Proof.
  intros Hin. unfold kl_div_batchmean, broadcast at 1.
  rewrite repeat_length, Nat.eqb_refl. cbn [rbind].
  rewrite combine_repeat_r by reflexivity.
  rewrite paired_rows_value by exact Hin.
  cbn [of_int RealScalar]. now rewrite <- INR_IZR_INZ.
Qed.

(** X11.  On a batch with the shapes of the source the encoder-adversarial
    loss is computed when no example, one example or every example is
    in-domain, and raises [RuntimeError] otherwise: the targets are built
    for the whole batch before the log-probabilities are restricted to
    the in-domain examples, and two to [B - 1] rows do not broadcast
    against [B]. *)
Theorem adversarial_loss_raises_on_partial_batches (disc : list R -> list R)
        (classes : Z) (C : nat) (hidden_states : list (list (list R)))
        (data_set_ids : list Z) (full : bool) :
  length hidden_states = length data_set_ids ->
  (full = false -> Forall (fun h => h <> []) hidden_states) ->
  classes <> 0%Z ->
  (forall x, length (disc x) = C) ->
  let n := indomain_count data_set_ids in
  let B := length data_set_ids in
  ((n = 0 \/ n = 1 \/ n = B)%nat ->
   exists v,
     compute_discriminator_loss disc classes hidden_states data_set_ids full
     = Ok v)
  /\ ((2 <= n < B)%nat ->
      compute_discriminator_loss disc classes hidden_states data_set_ids full
      = Raise RuntimeError).
Proof.
  intros Hlen Hne Hcl Hdisc n B.
  destruct (embedding_of_ok Hne) as [emb [Hemb Hel]].
  rewrite (@compute_discriminator_loss_cases disc classes C hidden_states
             data_set_ids full emb Hemb ltac:(lia) Hcl Hdisc).
  set (selected := map snd (filter fst
                     (combine (map (fun d : Z => (d <? 3)%Z) data_set_ids)
                              (map disc emb)))).
  assert (Hn : length selected = n).
  { unfold selected, n. apply selected_count. rewrite length_map. lia. }
  assert (Hrows : Forall (fun r => length r = C) selected).
  { apply Forall_forall. intros r Hr. apply selected_sub, in_map_iff in Hr.
    destruct Hr as [x [<- _]]. apply Hdisc. }
  rewrite Hn. split.
  - intros [H0|[H1|HB]].
    + rewrite H0. simpl. eexists. reflexivity.
    + rewrite H1. simpl.
      destruct selected as [|x [|x' rest]]; simpl in Hn; try lia.
      inversion Hrows; subst.
      rewrite kl_div_single_row. eexists. reflexivity.
    + destruct (Nat.eqb_spec n 0); [eexists; reflexivity|].
      replace (length emb) with (length selected) by (unfold B in HB; lia).
      rewrite kl_div_full_batch_value by exact Hrows.
      eexists. reflexivity.
  - intros Hpartial.
    destruct (Nat.eqb_spec n 0); [lia|].
    apply kl_div_raises. unfold B in Hpartial. lia.
Qed.

Lemma adversarial_loss_raises_on_partial_batches_witness :
  let n := indomain_count [0%Z; 1%Z; 4%Z] in
  let B := length [0%Z; 1%Z; 4%Z] in
  ((n = 0 \/ n = 1 \/ n = B)%nat ->
   exists v,
     compute_discriminator_loss (uniform_discriminator 0) 2
       (last_hidden_states mixed_outputs) [0%Z; 1%Z; 4%Z] false = Ok v)
  /\ ((2 <= n < B)%nat ->
      compute_discriminator_loss (uniform_discriminator 0) 2
        (last_hidden_states mixed_outputs) [0%Z; 1%Z; 4%Z] false
      = Raise RuntimeError).
Proof.
  apply (@adversarial_loss_raises_on_partial_batches (uniform_discriminator 0)
           2 2 (last_hidden_states mixed_outputs) [0%Z; 1%Z; 4%Z] false).
  - reflexivity.
  - intros _. unfold mixed_outputs. cbn [last_hidden_states].
    repeat (apply Forall_cons; [discriminate|]). apply Forall_nil.
  - discriminate.
  - reflexivity.
Defined.

(** X12.  With every example in-domain the encoder-adversarial loss is the
    mean over the batch of the divergences of the discriminator's answers
    from the uniform distribution. *)
Theorem all_indomain_loss_is_mean_divergence (disc : list R -> list R)
        (classes : Z) (C : nat) (hidden_states : list (list (list R)))
        (data_set_ids : list Z) (full : bool) :
  length hidden_states = length data_set_ids ->
  (full = false -> Forall (fun h => h <> []) hidden_states) ->
  classes <> 0%Z ->
  (forall x, length (disc x) = C) ->
  data_set_ids <> [] ->
  Forall (fun d => (d < 3)%Z) data_set_ids ->
  exists embedding,
    embedding_of hidden_states full = Ok embedding
    /\ compute_discriminator_loss disc classes hidden_states data_set_ids full
       = Ok (tsum (map (fun x => kl_to_uniform classes (disc x)) embedding)
             / INR (length data_set_ids)).
Proof.
  intros Hlen Hne Hcl Hdisc Hnonempty Hids.
  destruct (embedding_of_ok Hne) as [emb [Hemb Hel]].
  exists emb. split; [exact Hemb|].
  rewrite (@compute_discriminator_loss_cases disc classes C hidden_states
             data_set_ids full emb Hemb ltac:(lia) Hcl Hdisc).
  rewrite all_selected_below by (rewrite ?length_map; try assumption; lia).
  rewrite length_map.
  destruct (Nat.eqb_spec (length emb) 0) as [H0|_].
  { destruct data_set_ids; [contradiction | simpl in *; lia]. }
  replace (length emb) with (length (map disc emb)) at 1
    by apply length_map.
  rewrite kl_div_full_batch_value.
  - rewrite map_map, length_map. unfold kl_to_uniform.
    do 3 f_equal. lia.
  - apply Forall_forall. intros r Hr. apply in_map_iff in Hr.
    destruct Hr as [x [<- _]]. apply Hdisc.
Qed.

Lemma all_indomain_loss_is_mean_divergence_witness :
  exists embedding,
    embedding_of (last_hidden_states mixed_outputs) false = Ok embedding
    /\ compute_discriminator_loss (uniform_discriminator 0) 2
         (last_hidden_states mixed_outputs) [0%Z; 1%Z; 2%Z] false
       = Ok (tsum (map (fun x => kl_to_uniform 2 (uniform_discriminator 0 x))
                       embedding)
             / INR (length [0%Z; 1%Z; 2%Z])).
Proof.
  apply (@all_indomain_loss_is_mean_divergence (uniform_discriminator 0) 2 2
           (last_hidden_states mixed_outputs) [0%Z; 1%Z; 2%Z] false).
  - reflexivity.
  - intros _. unfold mixed_outputs. cbn [last_hidden_states].
    repeat (apply Forall_cons; [discriminate|]). apply Forall_nil.
  - discriminate.
  - reflexivity.
  - discriminate.
  - repeat (apply Forall_cons; [lia|]). apply Forall_nil.
Defined.

(** X13.  With exactly one in-domain example in a batch of [B] the loss is
    not the divergence of that example but [B] times it: its row of
    log-probabilities is repeated against the [B] rows of targets, and
    the sum is divided by the one selected row. *)
Theorem single_indomain_loss_is_scaled_by_batch (disc : list R -> list R)
        (classes : Z) (C : nat) (hidden_states : list (list (list R)))
        (data_set_ids : list Z) (full : bool) (b0 : nat) :
  length hidden_states = length data_set_ids ->
  (full = false -> Forall (fun h => h <> []) hidden_states) ->
  classes <> 0%Z ->
  (forall x, length (disc x) = C) ->
  indomain_count data_set_ids = 1%nat ->
  (b0 < length data_set_ids)%nat -> (nth b0 data_set_ids 0%Z < 3)%Z ->
  exists embedding,
    embedding_of hidden_states full = Ok embedding
    /\ compute_discriminator_loss disc classes hidden_states data_set_ids full
       = Ok (INR (length data_set_ids)
             * kl_to_uniform classes (disc (nth b0 embedding [])) / 1).
Proof.
  intros Hlen Hne Hcl Hdisc Hone Hb0 Hdom.
  destruct (embedding_of_ok Hne) as [emb [Hemb Hel]].
  exists emb. split; [exact Hemb|].
  rewrite (@compute_discriminator_loss_cases disc classes C hidden_states
             data_set_ids full emb Hemb ltac:(lia) Hcl Hdisc).
  set (selected := map snd (filter fst
                     (combine (map (fun d : Z => (d <? 3)%Z) data_set_ids)
                              (map disc emb)))).
  assert (Hn : length selected = 1%nat).
  { unfold selected. rewrite selected_count by (rewrite length_map; lia).
    exact Hone. }
  assert (Hsel : In (disc (nth b0 emb [])) selected).
  { rewrite <- (nth_map_lt disc emb [] []) by lia.
    apply selected_in; [rewrite length_map; lia | exact Hb0 | exact Hdom]. }
  destruct selected as [|x [|x' rest]]; simpl in Hn; try lia.
  destruct Hsel as [->|[]]. simpl Nat.eqb. cbv iota.
  rewrite <- (Hdisc (nth b0 emb [])).
  replace (length emb) with (length data_set_ids) by lia.
  rewrite kl_div_single_row. reflexivity.
Qed.

Lemma single_indomain_loss_is_scaled_by_batch_witness :
  exists embedding,
    embedding_of (last_hidden_states mixed_outputs) false = Ok embedding
    /\ compute_discriminator_loss (uniform_discriminator 0) 2
         (last_hidden_states mixed_outputs) [5%Z; 1%Z; 4%Z] false
       = Ok (INR (length [5%Z; 1%Z; 4%Z])
             * kl_to_uniform 2 (uniform_discriminator 0 (nth 1 embedding []))
             / 1).
Proof.
  apply (@single_indomain_loss_is_scaled_by_batch (uniform_discriminator 0)
           2 2 (last_hidden_states mixed_outputs) [5%Z; 1%Z; 4%Z] false 1%nat).
  - reflexivity.
  - intros _. unfold mixed_outputs. cbn [last_hidden_states].
    repeat (apply Forall_cons; [discriminate|]). apply Forall_nil.
  - discriminate.
  - reflexivity.
  - reflexivity.
  - simpl. lia.
  - simpl. lia.
Defined.

(** A computed loss went through the extraction and the masked selection. *)
Lemma compute_discriminator_loss_ok_inv (disc : list R -> list R) (classes : Z)
      (hidden_states : list (list (list R))) (data_set_ids : list Z)
      (full : bool) (v : R) :
  compute_discriminator_loss disc classes hidden_states data_set_ids full
  = Ok v ->
  classes <> 0%Z
  /\ exists emb,
       embedding_of hidden_states full = Ok emb
       /\ length emb = length data_set_ids.
Proof.
  unfold compute_discriminator_loss.
  destruct (embedding_of hidden_states full) as [emb|e]; [|discriminate].
  simpl rbind.
  destruct (Z.eqb_spec classes 0) as [H0|H0]; [discriminate|].
  unfold mask_select. rewrite !length_map.
  destruct (Nat.eqb_spec (length data_set_ids) (length emb)) as [Hl|Hl];
    [|discriminate].
  intros _. split; [exact H0|]. exists emb. split; [reflexivity | lia].
Qed.

(** The value of a computed loss: a positive multiple of the sum of the
    divergences of the selected rows. *)
Lemma compute_discriminator_loss_value (disc : list R -> list R) (classes : Z)
      (C : nat) (hidden_states : list (list (list R))) (data_set_ids : list Z)
      (full : bool) (v : R) :
  (forall x, length (disc x) = C) ->
  compute_discriminator_loss disc classes hidden_states data_set_ids full
  = Ok v ->
  exists emb m,
    embedding_of hidden_states full = Ok emb
    /\ length emb = length data_set_ids
    /\ 0 < m
    /\ v = m * tsum (map (kl_to_uniform classes)
                         (map snd (filter fst
                            (combine (map (fun d => (d <? 3)%Z) data_set_ids)
                                     (map disc emb))))).
Proof.
  intros Hdisc Hv.
  destruct (compute_discriminator_loss_ok_inv _ _ _ _ _ Hv)
    as [Hcl [emb [Hemb Hlen]]].
  exists emb.
  rewrite (@compute_discriminator_loss_cases disc classes C hidden_states
             data_set_ids full emb Hemb Hlen Hcl Hdisc) in Hv.
  set (selected := map snd (filter fst
                     (combine (map (fun d : Z => (d <? 3)%Z) data_set_ids)
                              (map disc emb)))) in *.
  destruct (Nat.eqb_spec (length selected) 0) as [H0|H0].
  - exists 1. destruct selected; [|discriminate].
    inversion Hv. simpl. rewrite tsum_nil.
    repeat split; try assumption; lra.
  - destruct (@kl_div_uniform_targets selected (length emb) C
                (1 * (1 / IZR classes)) v) as [m [Hm Hval]].
    + apply Forall_forall. intros r Hr. apply selected_sub, in_map_iff in Hr.
      destruct Hr as [x [<- _]]. apply Hdisc.
    + intros Hnil. rewrite Hnil in H0. simpl in H0. lia.
    + unfold selected. rewrite <- (length_map disc emb).
      apply selected_length.
    + exact Hv.
    + exists m. repeat split; assumption.
Qed.

(** X14.  For a discriminator that answers log-probability vectors over
    its classes, an encoder-adversarial loss that is computed is never
    negative. *)
Theorem adversarial_loss_never_negative (disc : list R -> list R)
        (classes : Z) (hidden_states : list (list (list R)))
        (data_set_ids : list Z) (full : bool) (v : R) :
  (forall x, length (disc x) = Z.to_nat classes
             /\ tsum (map exp (disc x)) = 1) ->
  compute_discriminator_loss disc classes hidden_states data_set_ids full
  = Ok v ->
  0 <= v.
Proof.
  intros Hvalid Hv.
  destruct (@compute_discriminator_loss_value disc classes (Z.to_nat classes)
              hidden_states data_set_ids full v (fun x => proj1 (Hvalid x)) Hv)
    as [emb [m [_ [_ [Hm ->]]]]].
  apply Rmult_le_pos; [lra|].
  apply tsum_map_nonneg. intros r Hr.
  apply selected_sub, in_map_iff in Hr. destruct Hr as [x [<- _]].
  destruct (Hvalid x) as [Hl Hs].
  assert (Hne : disc x <> []).
  { intros Hnil. rewrite Hnil in Hs. simpl in Hs. rewrite tsum_nil in Hs. lra. }
  assert (HC : (0 < Z.to_nat classes)%nat).
  { destruct (disc x); [contradiction | simpl in Hl; lia]. }
  unfold kl_to_uniform. apply kl_to_uniform_row; try assumption.
  rewrite Hl, INR_IZR_INZ, Z2Nat.id by lia. unfold Rdiv. ring.
Qed.

Lemma adversarial_loss_never_negative_witness :
  0 <= tsum [kl_point (ln (1 / 2)) (1 * (1 / 2));
             kl_point (ln (1 / 2)) (1 * (1 / 2))] / 1.
Proof.
  apply (@adversarial_loss_never_negative (uniform_discriminator 0) 2
           (last_hidden_states flat_outputs) [0%Z] false).
  - exact uniform_discriminator_valid.
  - reflexivity.
Defined.

(** X15.  The converse of C8: when the discriminator answers exactly the
    uniform distribution for every in-domain example, an
    encoder-adversarial loss that is computed is 0. *)
Theorem uniform_answers_give_zero_loss (disc : list R -> list R)
        (classes : Z) (C : nat) (hidden_states : list (list (list R)))
        (data_set_ids : list Z) (full : bool) (embedding : list (list R))
        (v : R) :
  (forall x, length (disc x) = C) ->
  embedding_of hidden_states full = Ok embedding ->
  (forall b, (b < length data_set_ids)%nat ->
     (nth b data_set_ids 0%Z < 3)%Z ->
     Forall (fun lp => exp lp = 1 / IZR classes)
            (disc (nth b embedding []))) ->
  compute_discriminator_loss disc classes hidden_states data_set_ids full
  = Ok v ->
  v = 0.
Proof.
  intros Hdisc Hemb Hunif Hv.
  destruct (@compute_discriminator_loss_value disc classes C hidden_states
              data_set_ids full v Hdisc Hv)
    as [emb [m [Hemb' [Hlen [Hm ->]]]]].
  rewrite Hemb in Hemb'. inversion Hemb'; subst emb.
  rewrite (@tsum_map_all_equal _ _ 0); [ring|].
  intros r Hr.
  destruct (@selected_from _ data_set_ids (map disc embedding) [] r)
    as [b [Hb [Hd ->]]]; [rewrite length_map; lia | exact Hr |].
  rewrite (nth_map_lt disc embedding [] []) by lia.
  specialize (Hunif b Hb Hd). rewrite Forall_forall in Hunif.
  unfold kl_to_uniform. rewrite (@tsum_map_all_equal _ _ 0); [ring|].
  intros x Hx. specialize (Hunif x Hx).
  unfold kl_point. cbn [tgtb tzero tmul tsub tlog RealScalar].
  destruct (Rlt_dec 0 (1 * (1 / IZR classes))) as [Hpos|_]; [|reflexivity].
  replace (1 * (1 / IZR classes)) with (exp x) by (rewrite Hunif; ring).
  rewrite ln_exp. ring.
Qed.

Lemma uniform_answers_give_zero_loss_witness :
  (tsum [kl_point (ln (1 / 2)) (1 * (1 / 2));
         kl_point (ln (1 / 2)) (1 * (1 / 2))] / 1) = 0.
Proof.
  apply (@uniform_answers_give_zero_loss (uniform_discriminator 0) 2 2
           (last_hidden_states flat_outputs) [0%Z] false
           [[0]]).
  - reflexivity.
  - reflexivity.
  - intros b Hb Hd. unfold uniform_discriminator.
    repeat (apply Forall_cons; [apply exp_ln; lra|]). apply Forall_nil.
  - reflexivity.
Defined.

(** ** The discriminator loss of lines 257-267 *)

Lemma rmap_raises (A B : Type) (f : A -> result B) (e : error) (l : list A)
      (x0 : A) :
  (forall x, In x l -> f x = Raise e \/ exists y, f x = Ok y) ->
  In x0 l -> f x0 = Raise e -> rmap f l = Raise e.
Proof.
  induction l as [|x l IH]; intros Hf Hin Hx0; [contradiction|].
  simpl. destruct (Hf x (or_introl eq_refl)) as [Hr|[y Hy]].
  - now rewrite Hr.
  - rewrite Hy. simpl. destruct Hin as [->|Hin].
    + rewrite Hy in Hx0. discriminate.
    + rewrite IH; try assumption; [reflexivity|].
      intros; apply Hf; now right.
Qed.

(** X16.  The discriminator loss has no in-domain restriction and takes
    the domain id as a class index: a domain id that is negative (other
    than the ignored -100) or not below the number of log-probabilities the
    discriminator answers raises [IndexError]. *)
Theorem domain_id_out_of_classes_raises (disc : list R -> list R) (C : nat)
        (hidden_states : list (list (list R))) (data_set_ids : list Z)
        (full : bool) (b : nat) :
  length hidden_states = length data_set_ids ->
  (full = false -> Forall (fun h => h <> []) hidden_states) ->
  (forall x, length (disc x) = C) ->
  (b < length data_set_ids)%nat ->
  nth b data_set_ids 0%Z <> (-100)%Z ->
  (nth b data_set_ids 0 < 0 \/ Z.of_nat C <= nth b data_set_ids 0)%Z ->
  forward_discriminator disc hidden_states data_set_ids full
  = Raise IndexError.
Proof.
  intros Hlen Hne Hdisc Hb Hnot Hout. unfold forward_discriminator.
  destruct (embedding_of_ok Hne) as [emb [-> Hemb]].
  simpl rbind. unfold nll_loss_mean. rewrite length_map.
  replace (length emb =? length data_set_ids)%nat with true
    by (symmetry; apply Nat.eqb_eq; lia).
  rewrite (@rmap_raises _ _ _ IndexError _
             (nth b (map disc emb) [], nth b data_set_ids 0%Z)).
  - reflexivity.
  - intros [row d] _. cbn [fst snd]. unfold nll_example.
    destruct (d =? -100)%Z; [right; eexists; reflexivity|].
    destruct ((0 <=? d)%Z && (d <? Z.of_nat (length row))%Z);
      [right; eexists; reflexivity | now left].
  - rewrite <- combine_nth_lt by (rewrite ?length_map; lia).
    apply nth_In. rewrite length_combine, length_map. lia.
  - cbn [fst snd]. unfold nll_example.
    rewrite (nth_map_lt disc emb [] []) by lia. rewrite Hdisc.
    replace (nth b data_set_ids 0 =? -100)%Z with false
      by (symmetry; now apply Z.eqb_neq).
    destruct (Z.leb_spec 0 (nth b data_set_ids 0%Z)) as [H0|H0];
      destruct (Z.ltb_spec (nth b data_set_ids 0%Z) (Z.of_nat C)) as [H1|H1];
      try reflexivity; lia.
Qed.

Lemma domain_id_out_of_classes_raises_witness :
  forward_discriminator (uniform_discriminator 1)
    (last_hidden_states mixed_outputs) [0%Z; 1%Z; 4%Z] false
  = Raise IndexError.
Proof.
  apply (@domain_id_out_of_classes_raises (uniform_discriminator 1) 2
           (last_hidden_states mixed_outputs) [0%Z; 1%Z; 4%Z] false 2%nat).
  - reflexivity.
  - intros _. unfold mixed_outputs. cbn [last_hidden_states].
    repeat (apply Forall_cons; [discriminate|]). apply Forall_nil.
  - reflexivity.
  - simpl. lia.
  - simpl. lia.
  - simpl. lia.
Defined.

Lemma nll_terms_in_range (C : nat) (rows : list (list R)) (ds : list Z) :
  Forall (fun r => length r = C) rows ->
  Forall (fun d => (0 <= d < Z.of_nat C)%Z) ds ->
  rmap (fun lt : list R * Z => nll_example (fst lt) (snd lt)) (combine rows ds)
  = Ok (map (fun lt : list R * Z =>
               Some (- nth (Z.to_nat (snd lt)) (fst lt) 0))
            (combine rows ds)).
Proof.
  revert ds; induction rows as [|r rows IH]; intros [|d ds] Hr Hd;
    try reflexivity.
  inversion_clear Hr as [|? ? Hr1 Hr2]. inversion_clear Hd as [|? ? Hd1 Hd2].
  cbn [combine map rmap fst snd]. rewrite (IH ds Hr2 Hd2).
  unfold nll_example at 1. rewrite Hr1.
  replace (d =? -100)%Z with false by (symmetry; apply Z.eqb_neq; lia).
  replace (0 <=? d)%Z with true by (symmetry; apply Z.leb_le; lia).
  replace (d <? Z.of_nat C)%Z with true by (symmetry; apply Z.ltb_lt; lia).
  cbn [andb rbind]. unfold tneg. cbn [tsub tzero RealScalar].
  do 3 f_equal. unfold Rminus. apply Rplus_0_l.
Qed.

Lemma keep_some_all (A : Type) (g : A -> R) (l : list A) :
  flat_map (@keep_some R) (map (fun x => Some (g x)) l) = map g l.
Proof. induction l as [|x l IH]; simpl; [reflexivity | now rewrite IH]. Qed.

(** The negative log-likelihoods the discriminator loss averages: for each
    example the negated log-probability its discriminator answer gives to
    its own domain. *)
Lemma forward_discriminator_value (disc : list R -> list R) (C : nat)
      (hidden_states : list (list (list R))) (data_set_ids : list Z)
      (full : bool) (emb : list (list R)) :
  length hidden_states = length data_set_ids ->
  embedding_of hidden_states full = Ok emb ->
  length emb = length hidden_states ->
  (forall x, length (disc x) = C) ->
  Forall (fun d => (0 <= d < Z.of_nat C)%Z) data_set_ids ->
  forward_discriminator disc hidden_states data_set_ids full
  = Ok (tsum (map (fun ed : list R * Z =>
                     - nth (Z.to_nat (snd ed)) (disc (fst ed)) 0)
                  (combine emb data_set_ids))
        / INR (length data_set_ids),
        map disc emb).
Proof.
  intros Hlen Hemb Hl Hdisc Hids. unfold forward_discriminator.
  rewrite Hemb. simpl rbind. unfold nll_loss_mean. rewrite length_map.
  replace (length emb =? length data_set_ids)%nat with true
    by (symmetry; apply Nat.eqb_eq; lia).
  rewrite (@nll_terms_in_range C).
  - simpl rbind. rewrite keep_some_all, length_map, length_combine, length_map.
    rewrite Hl, Hlen, Nat.min_id.
    assert (Hterms :
              map (fun lt : list R * Z => - nth (Z.to_nat (snd lt)) (fst lt) 0)
                  (combine (map disc emb) data_set_ids)
              = map (fun ed : list R * Z =>
                       - nth (Z.to_nat (snd ed)) (disc (fst ed)) 0)
                    (combine emb data_set_ids)).
    { clear. revert data_set_ids.
      induction emb as [|e emb IH]; intros [|d ds]; try reflexivity.
      simpl. now rewrite IH. }
    rewrite Hterms. cbn [of_int RealScalar]. now rewrite <- INR_IZR_INZ.
  - apply Forall_forall. intros r Hr. apply in_map_iff in Hr.
    destruct Hr as [x [<- _]]. apply Hdisc.
  - exact Hids.
Qed.

(** A log-probability of a distribution is not positive. *)
Lemma log_probability_nonpos (row : list R) (i : nat) :
  tsum (map exp row) = 1 -> (i < length row)%nat -> nth i row 0 <= 0.
Proof.
  intros Hsum Hi.
  assert (Hle : exp (nth i row 0) <= 1).
  { rewrite <- Hsum. apply (tsum_map_ge_term exp row).
    - intros x _. left. apply exp_pos.
    - now apply nth_In. }
  destruct (Rle_or_lt (nth i row 0) 0) as [Hn|Hp]; [exact Hn|].
  apply exp_increasing in Hp. rewrite exp_0 in Hp. lra.
Qed.

(** X17.  The discriminator loss of lines 257-267 averages over the whole
    batch, in-domain or not: with every domain id a class index, it is the
    mean over all the examples of the negated log-probability the
    discriminator gives to the example's own domain, and the
    log-probabilities it hands back have one row for each example. *)
Theorem discriminator_loss_is_mean_over_batch (disc : list R -> list R)
        (C : nat) (hidden_states : list (list (list R)))
        (data_set_ids : list Z) (full : bool) :
  data_set_ids <> [] ->
  length hidden_states = length data_set_ids ->
  (full = false -> Forall (fun h => h <> []) hidden_states) ->
  (forall x, length (disc x) = C) ->
  Forall (fun d => (0 <= d < Z.of_nat C)%Z) data_set_ids ->
  exists emb,
    embedding_of hidden_states full = Ok emb
    /\ forward_discriminator disc hidden_states data_set_ids full
       = Ok (tsum (map (fun ed : list R * Z =>
                          - nth (Z.to_nat (snd ed)) (disc (fst ed)) 0)
                       (combine emb data_set_ids))
             / INR (length data_set_ids),
             map disc emb)
    /\ length (map disc emb) = length data_set_ids.
Proof.
  intros _ Hlen Hne Hdisc Hids.
  destruct (embedding_of_ok Hne) as [emb [Hemb Hl]].
  exists emb. split; [exact Hemb|]. split.
  - now apply forward_discriminator_value with (C := C).
  - rewrite length_map. lia.
Qed.

Lemma discriminator_loss_is_mean_over_batch_witness :
  exists emb,
    embedding_of (last_hidden_states mixed_outputs) false = Ok emb
    /\ forward_discriminator (uniform_discriminator 1)
         (last_hidden_states mixed_outputs) [0%Z; 1%Z; 1%Z] false
       = Ok (tsum (map (fun ed : list R * Z =>
                          - nth (Z.to_nat (snd ed))
                                (uniform_discriminator 1 (fst ed)) 0)
                       (combine emb [0%Z; 1%Z; 1%Z]))
             / INR (length [0%Z; 1%Z; 1%Z]),
             map (uniform_discriminator 1) emb)
    /\ length (map (uniform_discriminator 1) emb) = length [0%Z; 1%Z; 1%Z].
Proof.
  apply (@discriminator_loss_is_mean_over_batch (uniform_discriminator 1) 2
           (last_hidden_states mixed_outputs) [0%Z; 1%Z; 1%Z] false).
  - discriminate.
  - reflexivity.
  - intros _. unfold mixed_outputs. cbn [last_hidden_states].
    repeat (apply Forall_cons; [discriminate|]). apply Forall_nil.
  - reflexivity.
  - repeat (apply Forall_cons; [simpl; lia|]). apply Forall_nil.
Defined.

(** X18.  When the discriminator answers log-probabilities of a
    distribution over the classes and every domain id is a class index, the
    discriminator loss of a non-empty batch is computed without an
    exception and is not negative. *)
Theorem discriminator_loss_never_negative (disc : list R -> list R)
        (C : nat) (hidden_states : list (list (list R)))
        (data_set_ids : list Z) (full : bool) :
  data_set_ids <> [] ->
  length hidden_states = length data_set_ids ->
  (full = false -> Forall (fun h => h <> []) hidden_states) ->
  (forall x, length (disc x) = C /\ tsum (map exp (disc x)) = 1) ->
  Forall (fun d => (0 <= d < Z.of_nat C)%Z) data_set_ids ->
  exists loss log_prob,
    forward_discriminator disc hidden_states data_set_ids full
    = Ok (loss, log_prob)
    /\ 0 <= loss.
Proof.
  intros Hnil Hlen Hne Hdisc Hids.
  destruct (embedding_of_ok Hne) as [emb [Hemb Hl]].
  eexists. eexists. split.
  - exact (@forward_discriminator_value disc C _ _ full emb Hlen Hemb Hl
             (fun x => proj1 (Hdisc x)) Hids).
  - apply Rmult_le_pos.
    + apply tsum_map_nonneg. intros [e d] Hin. cbn [fst snd].
      apply in_combine_r in Hin. rewrite Forall_forall in Hids.
      specialize (Hids d Hin). destruct (Hdisc e) as [Hc Hs].
      assert (nth (Z.to_nat d) (disc e) 0 <= 0).
      { apply log_probability_nonpos; [exact Hs | lia]. }
      lra.
    + left. apply Rinv_0_lt_compat. apply lt_0_INR.
      destruct data_set_ids; [congruence | simpl; lia].
Qed.

Lemma discriminator_loss_never_negative_witness :
  exists loss log_prob,
    forward_discriminator (uniform_discriminator 1)
      (last_hidden_states mixed_outputs) [0%Z; 1%Z; 1%Z] false
    = Ok (loss, log_prob)
    /\ 0 <= loss.
Proof.
  apply (@discriminator_loss_never_negative (uniform_discriminator 1) 2
           (last_hidden_states mixed_outputs) [0%Z; 1%Z; 1%Z] false).
  - discriminate.
  - reflexivity.
  - intros _. unfold mixed_outputs. cbn [last_hidden_states].
    repeat (apply Forall_cons; [discriminate|]). apply Forall_nil.
  - intros x. split; [reflexivity|].
    exact (proj2 (uniform_discriminator_valid x)).
  - repeat (apply Forall_cons; [simpl; lia|]). apply Forall_nil.
Defined.

(** ** One pass of the batch loop, lines 284-393 *)

Section PassFacts.
Context {T : Type} `{Scalar T}.

Lemma logged_app (tag : string) (a b : list (event T)) :
  logged tag (a ++ b) = logged tag a ++ logged tag b.
Proof. unfold logged. apply flat_map_app. Qed.

Lemma loop_events_silent (tag : string) (es : list (event T)) :
  forallb is_loop_event es = true ->
  logged tag es = [] /\ backpropagated es = [] /\ filter is_print es = []
  /\ filter (fun e => match e with qa_optim_step => true | _ => false end) es
     = [].
Proof.
  induction es as [|e es IH]; intros Hall; [repeat split|].
  simpl in Hall. apply andb_prop in Hall. destruct Hall as [He Hes].
  destruct (IH Hes) as [H1 [H2 [H3 H4]]].
  destruct e; try discriminate He; simpl; auto.
Qed.

(** The loop of lines 378-384 leaves nothing but updates and gradient
    resets of the discriminator and backward passes of its loss. *)
Lemma for_range_loop_events (self : Trainer T) (batch : Batch)
      (outputs : Outputs T) (n : nat) (acc : T) (st : TrainState T) :
  exists es k,
    fst (for_range n (adversarial_turn self batch outputs) acc st)
    = after st es k
    /\ forallb is_loop_event es = true.
Proof.
  revert acc st; induction n as [|n IH]; intros acc st.
  - exists [], 0%nat. simpl. rewrite after_nothing. split; reflexivity.
  - simpl for_range. unfold bind. rewrite adversarial_turn_run.
    destruct (forward_discriminator _ _ _ _) as [fwd|e].
    + destruct (IH (fst fwd)
                   (after st [dis_optim_step; dis_optim_zero_grad;
                              discriminator_loss_backward (fst fwd);
                              dis_optim_step] 2))
        as [es [k [Hst Hall]]].
      eexists. exists (k + 2)%nat. rewrite Hst, after_after.
      split; [reflexivity|]. rewrite forallb_app, Hall. reflexivity.
    + exists [dis_optim_step; dis_optim_zero_grad], 1%nat.
      split; reflexivity.
Qed.

Lemma span_outcome_not_logged (tag : string) (self : Trainer T)
      (batch : Batch) (outputs : Outputs T) (loss : T)
      (es : list (event T)) :
  span_outcome self batch outputs = Ok (loss, es) -> logged tag es = [].
Proof.
  unfold span_outcome. destruct (enable_length_bp_penalty self).
  - destruct (reweighted_span_loss _ _ _ _ _ _) as [sl|e]; simpl;
      [|discriminate].
    intros Heq. inversion Heq; subst.
    destruct (isnan (span_loss sl)); reflexivity.
  - intros Heq. inversion Heq; subst. reflexivity.
Qed.

(** A pass with the adversarial term that ends without an exception: the
    whole trace. *)
Lemma train_batch_adversarial_trace (self : Trainer T) (batch : Batch)
      (outputs : Outputs T) (loss dl : T) (printed_events : list (event T)) :
  enable_discriminator self = true ->
  span_outcome self batch outputs = Ok (loss, printed_events) ->
  compute_discriminator_loss (discriminator self 0) (num_classes self)
    (last_hidden_states outputs) (data_set_id batch) (full_adv self) = Ok dl ->
  snd (train_batch self batch outputs initial_state) = Ok tt ->
  let ls := length_stage self batch outputs loss in
  let total := tadd (fst ls) (tmul (discriminator_lambda self) dl) in
  exists es sdl,
    trace (fst (train_batch self batch outputs initial_state))
    = prelude ++ printed_events ++ [loss_backward total; qa_optim_step]
        ++ es
        ++ log_events batch total sdl (tmul (discriminator_lambda self) dl)
             (snd ls)
    /\ forallb is_loop_event es = true.
Proof.
  intros Hadv Hspan Hdl Hok ls total. revert Hok. unfold train_batch, bind.
  rewrite emit_all_run, span_stage_run, Hspan, Hadv.
  unfold current_discriminator, lift. simpl dis_updates.
  rewrite Hdl. fold ls. fold total.
  rewrite !emit_run, !after_after. simpl Nat.add.
  set (st1 := after initial_state _ 0).
  destruct (for_range_loop_events self batch outputs
              (Z.to_nat (num_adv_steps self)) (of_int 0) st1)
    as [es [k [Hst Hall]]].
  destruct (for_range _ _ _ st1) as [st2 [sdl|e]] eqn:Hfor; simpl in Hst;
    [|simpl; discriminate].
  intros _. unfold log_stage. rewrite emit_all_run. subst st2.
  exists es, sdl. split; [|exact Hall].
  unfold st1, after. cbn [trace fst initial_state app].
  rewrite <- !app_assoc. reflexivity.
Qed.

End PassFacts.

(** X19.  Whatever is enabled, a pass that ends without an exception has
    made exactly one backward pass of the base model's loss, and the scalar
    it writes under [train/NLL] is that backpropagated total, written
    once. *)
Theorem logged_loss_is_backpropagated_total {T : Type} {S : Scalar T}
        (self : Trainer T) (batch : Batch) (outputs : Outputs T) :
  snd (train_batch self batch outputs initial_state) = Ok tt ->
  exists total,
    backpropagated (trace (fst (train_batch self batch outputs initial_state)))
    = [total]
    /\ logged "train/NLL"
         (trace (fst (train_batch self batch outputs initial_state)))
       = [total].
Proof.
  intros Hok.
  destruct (train_batch_ok_stages self batch outputs Hok)
    as [loss [pe [Hspan Hdl]]].
  destruct (span_outcome_prints _ _ _ Hspan) as [_ [Hbp _]].
  pose proof (span_outcome_not_logged "train/NLL" _ _ _ Hspan) as Hlog.
  destruct (enable_discriminator self) eqn:Hadv.
  - destruct (Hdl eq_refl) as [dl Hdl'].
    destruct (train_batch_adversarial_trace self batch outputs Hadv Hspan
                Hdl' Hok) as [es [sdl [Htr Hall]]].
    destruct (loop_events_silent "train/NLL" es Hall) as [Hl [Hb _]].
    eexists. rewrite Htr.
    rewrite !backpropagated_app, !logged_app, Hbp, Hlog, Hl, Hb.
    split; reflexivity.
  - rewrite (train_batch_plain self batch outputs Hadv Hspan).
    eexists. cbn [fst]. rewrite trace_after_initial.
    rewrite !backpropagated_app, !logged_app, Hbp, Hlog.
    split; reflexivity.
Qed.

Lemma logged_loss_is_backpropagated_total_witness :
  exists total,
    backpropagated
      (trace (fst (train_batch adversarial_trainer one_example flat_outputs
                               initial_state)))
    = [total]
    /\ logged "train/NLL"
         (trace (fst (train_batch adversarial_trainer one_example flat_outputs
                                  initial_state)))
       = [total].
Proof.
  apply (@logged_loss_is_backpropagated_total R RealScalar
           adversarial_trainer one_example flat_outputs).
  reflexivity.
Defined.

(** X20.  An exception of the span stage or of the encoder-adversarial
    loss ends the pass before anything is learnt: the pass raises that
    exception, and no backward pass was run, no optimizer stepped and
    nothing was written to TensorBoard. *)
Theorem early_exception_leaves_models_untouched {T : Type} {S : Scalar T}
        (self : Trainer T) (batch : Batch) (outputs : Outputs T) (e : error) :
  span_outcome self batch outputs = Raise e
  \/ (enable_discriminator self = true
      /\ (exists loss printed_events,
             span_outcome self batch outputs = Ok (loss, printed_events))
      /\ compute_discriminator_loss (discriminator self 0) (num_classes self)
           (last_hidden_states outputs) (data_set_id batch) (full_adv self)
         = Raise e) ->
  let run := train_batch self batch outputs initial_state in
  snd run = Raise e
  /\ optimizer_steps (trace (fst run)) = []
  /\ backpropagated (trace (fst run)) = []
  /\ dis_updates (fst run) = 0%nat
  /\ forall tag, logged tag (trace (fst run)) = [].
Proof.
  intros Hcase run. unfold run, train_batch, bind.
  rewrite emit_all_run, span_stage_run.
  destruct Hcase as [Hspan | [Hadv [[loss [pe Hspan]] Hdl]]].
  - rewrite Hspan. repeat split.
  - rewrite Hspan, Hadv. unfold current_discriminator, lift.
    simpl dis_updates. rewrite Hdl.
    destruct (span_outcome_prints _ _ _ Hspan) as [Hsteps [Hbp _]].
    cbn [fst snd]. rewrite after_after, trace_after_initial.
    split; [reflexivity|].
    split; [rewrite optimizer_steps_app, Hsteps; reflexivity|].
    split; [rewrite backpropagated_app, Hbp; reflexivity|].
    split; [reflexivity|].
    intros tag. rewrite logged_app.
    rewrite (span_outcome_not_logged tag _ _ _ Hspan). reflexivity.
Qed.

Lemma early_exception_leaves_models_untouched_witness :
  let run := train_batch adversarial_trainer mixed_batch mixed_outputs
                         initial_state in
  snd run = Raise RuntimeError
  /\ optimizer_steps (trace (fst run)) = []
  /\ backpropagated (trace (fst run)) = []
  /\ dis_updates (fst run) = 0%nat
  /\ forall tag, logged tag (trace (fst run)) = [].
Proof.
  apply (@early_exception_leaves_models_untouched R RealScalar
           adversarial_trainer mixed_batch mixed_outputs RuntimeError).
  right. split; [reflexivity|]. split; [|reflexivity].
  exists 0, []. reflexivity.
Defined.




(** ** The loop over epochs and batches, lines 276-416 *)

Lemma rbind_assoc (A B C : Type) (r : result A) (f : A -> result B)
      (g : B -> result C) :
  rbind (rbind r f) g = rbind r (fun a => rbind (f a) g).
Proof. destruct r; reflexivity. Qed.

Lemma run_batches_app (eval_every : Z) (evaluate : Z -> result Scores)
      (a b : list Step) (st : LoopState) :
  run_batches eval_every evaluate (a ++ b) st
  = rbind (run_batches eval_every evaluate a st)
          (run_batches eval_every evaluate b).
Proof.
  revert st; induction a as [|s a IH]; intros st; [reflexivity|].
  cbn [app run_batches]. destruct (pass_outcome s); [|reflexivity].
  cbn [rbind]. destruct (after_batch eval_every evaluate st); [|reflexivity].
  cbn [rbind]. apply IH.
Qed.

(** The epochs only chain their batches: the step counter, the best scores
    and the test of line 395 run through. *)
Lemma run_epochs_concat (eval_every : Z) (evaluate : Z -> result Scores)
      (epochs : list (list Step)) (st : LoopState) :
  run_epochs eval_every evaluate epochs st
  = run_batches eval_every evaluate (concat epochs) st.
Proof.
  revert st; induction epochs as [|ep epochs IH]; intros st; [reflexivity|].
  cbn [run_epochs concat]. rewrite run_batches_app.
  destruct (run_batches eval_every evaluate ep st); [|reflexivity].
  cbn [rbind]. apply IH.
Qed.

Lemma completing_step_completes : pass_outcome completing_step = Ok tt.
Proof. reflexivity. Qed.

Lemma raising_step_raises : pass_outcome raising_step = Raise RuntimeError.
Proof. reflexivity. Qed.

(** Lines 395-415 when no evaluation is due. *)
Lemma after_batch_not_due (eval_every : Z) (evaluate : Z -> result Scores)
      (st : LoopState) :
  eval_every <> 0%Z ->
  evaluation_due eval_every (global_idx st) = false ->
  after_batch eval_every evaluate st
  = Ok {| global_idx := global_idx st + 1; best_scores := best_scores st;
          loop_trace := loop_trace st |}.
Proof.
  intros He Hdue. unfold after_batch.
  replace (eval_every =? 0)%Z with false by (symmetry; now apply Z.eqb_neq).
  rewrite Hdue. reflexivity.
Qed.

(** Lines 395-415 when an evaluation is due and scores at least the best
    [F1] so far, and when it scores below it. *)
Lemma after_batch_improved (eval_every : Z) (evaluate : Z -> result Scores)
      (st : LoopState) (curr_score : Scores) :
  eval_every <> 0%Z ->
  evaluation_due eval_every (global_idx st) = true ->
  evaluate (global_idx st) = Ok curr_score ->
  F1 (best_scores st) <= F1 curr_score ->
  after_batch eval_every evaluate st
  = Ok {| global_idx := global_idx st + 1; best_scores := curr_score;
          loop_trace := loop_trace st
                          ++ [evaluated (global_idx st) curr_score;
                              saved (global_idx st)] |}.
Proof.
  intros He Hdue Hev Hle. unfold after_batch.
  replace (eval_every =? 0)%Z with false by (symmetry; now apply Z.eqb_neq).
  rewrite Hdue, Hev. cbn [rbind].
  destruct (Rle_dec _ _) as [_|Hn]; [reflexivity | contradiction].
Qed.

Lemma after_batch_not_improved (eval_every : Z)
      (evaluate : Z -> result Scores) (st : LoopState) (curr_score : Scores) :
  eval_every <> 0%Z ->
  evaluation_due eval_every (global_idx st) = true ->
  evaluate (global_idx st) = Ok curr_score ->
  F1 curr_score < F1 (best_scores st) ->
  after_batch eval_every evaluate st
  = Ok {| global_idx := global_idx st + 1; best_scores := best_scores st;
          loop_trace := loop_trace st
                          ++ [evaluated (global_idx st) curr_score] |}.
Proof.
  intros He Hdue Hev Hlt. unfold after_batch.
  replace (eval_every =? 0)%Z with false by (symmetry; now apply Z.eqb_neq).
  rewrite Hdue, Hev. cbn [rbind].
  destruct (Rle_dec _ _) as [Hle|_]; [lra | reflexivity].
Qed.

(** The outcomes of lines 395-415. *)
Lemma after_batch_cases (eval_every : Z) (evaluate : Z -> result Scores)
      (st st' : LoopState) :
  after_batch eval_every evaluate st = Ok st' ->
  eval_every <> 0%Z
  /\ global_idx st' = (global_idx st + 1)%Z
  /\ ((evaluation_due eval_every (global_idx st) = false
       /\ best_scores st' = best_scores st
       /\ loop_trace st' = loop_trace st)
      \/ (exists curr_score,
            evaluation_due eval_every (global_idx st) = true
            /\ evaluate (global_idx st) = Ok curr_score
            /\ F1 (best_scores st) <= F1 curr_score
            /\ best_scores st' = curr_score
            /\ loop_trace st'
               = loop_trace st ++ [evaluated (global_idx st) curr_score;
                                   saved (global_idx st)])
      \/ (exists curr_score,
            evaluation_due eval_every (global_idx st) = true
            /\ evaluate (global_idx st) = Ok curr_score
            /\ F1 curr_score < F1 (best_scores st)
            /\ best_scores st' = best_scores st
            /\ loop_trace st'
               = loop_trace st ++ [evaluated (global_idx st) curr_score])).
Proof.
  intros Hok.
  assert (He : eval_every <> 0%Z).
  { intros ->. unfold after_batch in Hok. simpl in Hok. discriminate. }
  split; [exact He|].
  destruct (evaluation_due eval_every (global_idx st)) eqn:Hdue.
  - destruct (evaluate (global_idx st)) as [curr|e] eqn:Hev.
    + destruct (Rle_or_lt (F1 (best_scores st)) (F1 curr)) as [Hle|Hlt].
      * rewrite (after_batch_improved _ _ He Hdue Hev Hle) in Hok.
        inversion Hok; subst st'; cbn.
        split; [reflexivity|]. right; left. exists curr. repeat split.
        exact Hle.
      * rewrite (after_batch_not_improved _ _ He Hdue Hev Hlt) in Hok.
        inversion Hok; subst st'; cbn.
        split; [reflexivity|]. right; right. exists curr. repeat split.
        exact Hlt.
    + unfold after_batch in Hok.
      replace (eval_every =? 0)%Z with false in Hok
        by (symmetry; now apply Z.eqb_neq).
      rewrite Hdue, Hev in Hok. discriminate.
  - rewrite (after_batch_not_due _ _ He Hdue) in Hok.
    inversion Hok; subst st'; cbn.
    split; [reflexivity|]. left. repeat split.
Qed.

(** X22.  With [eval_every] zero the test of line 395 divides by zero: a
    run whose first batch passes without an exception ends there with
    [ZeroDivisionError], whatever the evaluation would have returned. *)
Theorem zero_eval_every_raises (evaluate : Z -> result Scores)
        (epochs : list (list Step)) (s : Step) (rest : list Step) :
  concat epochs = s :: rest ->
  pass_outcome s = Ok tt ->
  train 0 evaluate epochs = Raise ZeroDivisionError.
Proof.
  intros Hc Hpass. unfold train, train_state.
  rewrite run_epochs_concat, Hc. cbn [run_batches]. rewrite Hpass.
  reflexivity.
Qed.

Lemma zero_eval_every_raises_witness :
  train 0 (fun _ => Ok initial_best_scores) [[]; [completing_step]]
  = Raise ZeroDivisionError.
Proof.
  apply (@zero_eval_every_raises (fun _ => Ok initial_best_scores)
           [[]; [completing_step]] completing_step []).
  - reflexivity.
  - reflexivity.
Defined.

Lemma evaluated_steps_app (a b : list loop_event) :
  evaluated_steps (a ++ b) = evaluated_steps a ++ evaluated_steps b.
Proof. unfold evaluated_steps. apply flat_map_app. Qed.

Lemma saved_steps_app (a b : list loop_event) :
  saved_steps (a ++ b) = saved_steps a ++ saved_steps b.
Proof. unfold saved_steps. apply flat_map_app. Qed.

(** The batches of a run whose passes and evaluations raise nothing: the
    counter advances by one a batch, and the evaluations are those the
    test of line 395 asks for. *)
Lemma run_batches_steps (eval_every : Z) (evaluate : Z -> result Scores)
      (steps : list Step) (st : LoopState) :
  eval_every <> 0%Z ->
  (forall s, In s steps -> pass_outcome s = Ok tt) ->
  (forall i, exists sc, evaluate i = Ok sc) ->
  exists st',
    run_batches eval_every evaluate steps st = Ok st'
    /\ global_idx st' = (global_idx st + Z.of_nat (length steps))%Z
    /\ evaluated_steps (loop_trace st')
       = evaluated_steps (loop_trace st)
           ++ filter (evaluation_due eval_every)
                (map (fun k => (global_idx st + Z.of_nat k)%Z)
                     (seq 0 (length steps))).
Proof.
  intros He Hpass Hev. revert st Hpass.
  induction steps as [|s steps IH]; intros st Hpass.
  - exists st. cbn. rewrite app_nil_r. repeat split. lia.
  - cbn [run_batches]. rewrite (Hpass s (or_introl eq_refl)). cbn [rbind].
    assert (Hstep : exists st1,
               after_batch eval_every evaluate st = Ok st1
               /\ global_idx st1 = (global_idx st + 1)%Z
               /\ evaluated_steps (loop_trace st1)
                  = evaluated_steps (loop_trace st)
                      ++ filter (evaluation_due eval_every) [global_idx st]).
    { destruct (evaluation_due eval_every (global_idx st)) eqn:Hdue.
      - destruct (Hev (global_idx st)) as [sc Hsc].
        destruct (Rle_or_lt (F1 (best_scores st)) (F1 sc)) as [Hle|Hlt].
        + eexists. split; [apply (after_batch_improved _ _ He Hdue Hsc Hle)|].
          cbn [global_idx loop_trace filter]. rewrite Hdue.
          split; [reflexivity|]. rewrite evaluated_steps_app. reflexivity.
        + eexists.
          split; [apply (after_batch_not_improved _ _ He Hdue Hsc Hlt)|].
          cbn [global_idx loop_trace filter]. rewrite Hdue.
          split; [reflexivity|]. rewrite evaluated_steps_app. reflexivity.
      - eexists. split; [apply (after_batch_not_due _ _ He Hdue)|].
        cbn [global_idx loop_trace filter]. rewrite Hdue.
        split; [reflexivity|]. now rewrite app_nil_r. }
    destruct Hstep as [st1 [Hst1 [Hidx Htr]]]. rewrite Hst1. cbn [rbind].
    destruct (IH st1) as [st' [Hrun [Hidx' Htr']]].
    { intros; apply Hpass; now right. }
    exists st'. split; [exact Hrun|]. split.
    + rewrite Hidx', Hidx. cbn [length]. lia.
    + rewrite Htr', Htr, Hidx, <- app_assoc. f_equal.
      cbn [length seq map]. rewrite <- seq_shift, map_map.
      rewrite Z.add_0_r. cbn [filter].
      replace (map (fun x : nat => (global_idx st + Z.of_nat (S x))%Z)
                   (seq 0 (length steps)))
        with (map (fun k : nat => (global_idx st + 1 + Z.of_nat k)%Z)
                  (seq 0 (length steps)))
        by (apply map_ext; intros k; lia).
      destruct (evaluation_due eval_every (global_idx st)); reflexivity.
Qed.

(** X23.  With [eval_every] not zero, a run whose passes and evaluations
    raise nothing evaluates exactly at the steps that are positive
    multiples of [eval_every] (of its absolute value when it is negative),
    in order and once each, the steps being counted from zero across the
    epochs; step 0 is never evaluated. *)
Theorem evaluations_at_positive_multiples (eval_every : Z)
        (evaluate : Z -> result Scores) (epochs : list (list Step)) :
  eval_every <> 0%Z ->
  (forall s, In s (concat epochs) -> pass_outcome s = Ok tt) ->
  (forall i, exists sc, evaluate i = Ok sc) ->
  exists st,
    train_state eval_every evaluate epochs = Ok st
    /\ global_idx st = Z.of_nat (length (concat epochs))
    /\ evaluated_steps (loop_trace st)
       = filter (fun i => (i mod eval_every =? 0)%Z && (i >? 0)%Z)
           (map Z.of_nat (seq 0 (length (concat epochs)))).
Proof.
  intros He Hpass Hev. unfold train_state. rewrite run_epochs_concat.
  destruct (run_batches_steps evaluate (concat epochs) initial_loop_state
              He Hpass Hev) as [st [Hrun [Hidx Htr]]].
  exists st. split; [exact Hrun|]. split; [exact Hidx|].
  rewrite Htr. reflexivity.
Qed.

Lemma evaluations_at_positive_multiples_witness :
  exists st,
    train_state 2 (fun _ => Ok initial_best_scores)
      [[completing_step; completing_step; completing_step];
       [completing_step; completing_step]] = Ok st
    /\ global_idx st
       = Z.of_nat (length (concat [[completing_step; completing_step;
                                    completing_step];
                                   [completing_step; completing_step]]))
    /\ evaluated_steps (loop_trace st)
       = filter (fun i => (i mod 2 =? 0)%Z && (i >? 0)%Z)
           (map Z.of_nat
              (seq 0 (length (concat [[completing_step; completing_step;
                                       completing_step];
                                      [completing_step; completing_step]])))).
Proof.
  apply (@evaluations_at_positive_multiples 2
           (fun _ => Ok initial_best_scores)
           [[completing_step; completing_step; completing_step];
            [completing_step; completing_step]]).
  - discriminate.
  - intros s Hin. cbn [concat app] in Hin.
    repeat (destruct Hin as [<-|Hin]; [reflexivity|]). contradiction.
  - intros i. eexists. reflexivity.
Defined.

(** Lines 412-414 keep [last_best]. *)
Lemma after_batch_last_best (eval_every : Z) (evaluate : Z -> result Scores)
      (st st' : LoopState) :
  after_batch eval_every evaluate st = Ok st' ->
  last_best (best_scores st) (loop_trace st) ->
  last_best (best_scores st') (loop_trace st').
Proof.
  intros Hok Hinv.
  destruct (after_batch_cases _ _ _ Hok)
    as [_ [_ [[_ [Hb Ht]] | [[curr [_ [_ [Hle [Hb Ht]]]]]
                            | [curr [_ [_ [Hlt [Hb Ht]]]]]]]]];
    rewrite Hb, Ht; clear Hb Ht Hok.
  - exact Hinv.
  - right. exists (loop_trace st), [], (global_idx st).
    split; [reflexivity|].
    split; [|split; [reflexivity | intros j sc []]].
    intros j sc Hin.
    destruct Hinv as [[Hb [_ Hall]] | [pre [post [i [Htr [Hpre [_ Hpost]]]]]]].
    + specialize (Hall j sc Hin). rewrite Hb in Hle. cbn in Hle. lra.
    + rewrite Htr in Hin. apply in_app_or in Hin. destruct Hin as [Hin|Hin].
      * specialize (Hpre j sc Hin). lra.
      * cbn [app] in Hin. destruct Hin as [Heq|[Heq|Hin]].
        -- inversion Heq; subst. exact Hle.
        -- discriminate.
        -- specialize (Hpost j sc Hin). lra.
  - destruct Hinv as [[Hb [Hs Hall]] | [pre [post [i [Htr [Hpre [Hs Hpost]]]]]]].
    + left. split; [exact Hb|]. split.
      * rewrite saved_steps_app, Hs. reflexivity.
      * intros j sc Hin. apply in_app_or in Hin. destruct Hin as [Hin|Hin].
        -- now apply (Hall j).
        -- destruct Hin as [Heq|[]]. inversion Heq; subst.
           rewrite Hb in Hlt. exact Hlt.
    + right. exists pre, (post ++ [evaluated (global_idx st) curr]), i.
      split; [rewrite Htr, <- !app_assoc; reflexivity|].
      split; [exact Hpre|]. split.
      * rewrite saved_steps_app, Hs. reflexivity.
      * intros j sc Hin. apply in_app_or in Hin. destruct Hin as [Hin|Hin].
        -- now apply (Hpost j).
        -- destruct Hin as [Heq|[]]. inversion Heq; subst. exact Hlt.
Qed.

Lemma run_batches_last_best (eval_every : Z) (evaluate : Z -> result Scores)
      (steps : list Step) (st st' : LoopState) :
  run_batches eval_every evaluate steps st = Ok st' ->
  last_best (best_scores st) (loop_trace st) ->
  last_best (best_scores st') (loop_trace st').
Proof.
  revert st; induction steps as [|s steps IH]; intros st Hok Hinv.
  - inversion Hok; subst. exact Hinv.
  - cbn [run_batches] in Hok.
    destruct (pass_outcome s); [|discriminate]. cbn [rbind] in Hok.
    destruct (after_batch eval_every evaluate st) as [st1|e] eqn:Hst1;
      [|discriminate].
    cbn [rbind] in Hok. apply (IH st1 Hok).
    exact (after_batch_last_best _ _ _ Hst1 Hinv).
Qed.

(** X24.  What [train] returns when it returns: the scores of the last
    evaluation among those with the highest [F1], provided that [F1] is at
    least -1, and it is that evaluation's checkpoint that was saved last;
    an evaluation that ties the best [F1] replaces the checkpoint.  When
    no evaluation has reached -1 nothing is saved and the initial scores
    are returned. *)
Theorem best_scores_are_last_maximum (eval_every : Z)
        (evaluate : Z -> result Scores) (epochs : list (list Step))
        (st : LoopState) :
  train_state eval_every evaluate epochs = Ok st ->
  train eval_every evaluate epochs = Ok (best_scores st)
  /\ last_best (best_scores st) (loop_trace st).
Proof.
  intros Hok. split.
  - unfold train. rewrite Hok. reflexivity.
  - unfold train_state in Hok. rewrite run_epochs_concat in Hok.
    apply (run_batches_last_best _ _ _ _ Hok).
    left. repeat split. intros i sc [].
Qed.

Lemma best_scores_are_last_maximum_witness :
  train 1 (fun _ => Ok (evaluation_results true 50 40 90))
        [[completing_step; completing_step]]
  = Ok (evaluation_results true 50 40 90)
  /\ last_best (evaluation_results true 50 40 90)
               [evaluated 1 (evaluation_results true 50 40 90); saved 1].
Proof.
  apply (@best_scores_are_last_maximum 1
           (fun _ => Ok (evaluation_results true 50 40 90))
           [[completing_step; completing_step]]
           {| global_idx := 2;
              best_scores := evaluation_results true 50 40 90;
              loop_trace := [evaluated 1 (evaluation_results true 50 40 90);
                             saved 1] |}).
  unfold train_state. cbn [run_epochs run_batches].
  rewrite completing_step_completes. cbn [rbind].
  rewrite after_batch_not_due by (discriminate || reflexivity).
  cbn [rbind run_batches].
  rewrite after_batch_improved
    with (curr_score := evaluation_results true 50 40 90)
    by (discriminate || reflexivity || (cbn; lra)).
  reflexivity.
Defined.

(** X25.  No exception of a pass is caught: when the passes and the
    evaluations before a batch raise nothing and the pass of that batch
    raises, [train] ends with that exception and returns no scores,
    whatever batches and epochs were still to come. *)
Theorem pass_exception_ends_training (eval_every : Z)
        (evaluate : Z -> result Scores) (epochs : list (list Step))
        (before : list Step) (s : Step) (rest : list Step) (e : error) :
  eval_every <> 0%Z ->
  concat epochs = before ++ s :: rest ->
  (forall s', In s' before -> pass_outcome s' = Ok tt) ->
  (forall i, exists sc, evaluate i = Ok sc) ->
  pass_outcome s = Raise e ->
  train eval_every evaluate epochs = Raise e.
Proof.
  intros He Hc Hbefore Hev Hs. unfold train, train_state.
  rewrite run_epochs_concat, Hc, run_batches_app.
  destruct (run_batches_steps evaluate before initial_loop_state
              He Hbefore Hev) as [st [Hrun _]].
  rewrite Hrun. cbn [rbind run_batches]. rewrite Hs. reflexivity.
Qed.

Lemma pass_exception_ends_training_witness :
  train 2 (fun _ => Ok initial_best_scores)
        [[completing_step; raising_step]; [completing_step]]
  = Raise RuntimeError.
Proof.
  apply (@pass_exception_ends_training 2 (fun _ => Ok initial_best_scores)
           [[completing_step; raising_step]; [completing_step]]
           [completing_step] raising_step [completing_step] RuntimeError).
  - discriminate.
  - reflexivity.
  - intros s' [<-|[]]. reflexivity.
  - intros i. eexists. reflexivity.
  - reflexivity.
Defined.

(** ** Labelling one training feature: [prepare_train_data], lines 72-117 *)

Section Loops.
Variable cond : Z -> result bool.

(** A loop that counts down: where it ends, and what it met on the way. *)
Lemma while_down_spec (fuel : nat) (i0 : Z) (r : result Z) :
  while_loop fuel cond (fun k => (k - 1)%Z) i0 = Some r ->
  exists i',
    (i' <= i0)%Z
    /\ (forall j, (i' < j <= i0)%Z -> cond j = Ok true)
    /\ match r with
       | Ok i => i = i' /\ cond i' = Ok false
       | Raise e => cond i' = Raise e
       end.
Proof.
  revert i0; induction fuel as [|fuel IH]; intros i0 Hrun; [discriminate|].
  cbn [while_loop] in Hrun.
  destruct (cond i0) as [[|]|e] eqn:Hc.
  - destruct (IH _ Hrun) as [i' [Hle [Hall Hr]]].
    exists i'. split; [lia|]. split; [|exact Hr].
    intros j Hj. destruct (Z.eq_dec j i0) as [->|Hne]; [exact Hc|].
    apply Hall. lia.
  - inversion Hrun; subst. exists i0. split; [lia|].
    split; [intros; lia | now split].
  - inversion Hrun; subst. exists i0. split; [lia|].
    split; [intros; lia | exact Hc].
Qed.

(** A loop that counts up. *)
Lemma while_up_spec (fuel : nat) (i0 : Z) (r : result Z) :
  while_loop fuel cond (fun k => (k + 1)%Z) i0 = Some r ->
  exists i',
    (i0 <= i')%Z
    /\ (forall j, (i0 <= j < i')%Z -> cond j = Ok true)
    /\ match r with
       | Ok i => i = i' /\ cond i' = Ok false
       | Raise e => cond i' = Raise e
       end.
Proof.
  revert i0; induction fuel as [|fuel IH]; intros i0 Hrun; [discriminate|].
  cbn [while_loop] in Hrun.
  destruct (cond i0) as [[|]|e] eqn:Hc.
  - destruct (IH _ Hrun) as [i' [Hle [Hall Hr]]].
    exists i'. split; [lia|]. split; [|exact Hr].
    intros j Hj. destruct (Z.eq_dec j i0) as [->|Hne]; [exact Hc|].
    apply Hall. lia.
  - inversion Hrun; subst. exists i0. split; [lia|].
    split; [intros; lia | now split].
  - inversion Hrun; subst. exists i0. split; [lia|].
    split; [intros; lia | exact Hc].
Qed.

(** A loop that counts down to a place where its test fails or raises ends
    there, when it has the fuel for the way. *)
Lemma while_down_reaches (fuel : nat) (i0 i' : Z) :
  (i' <= i0)%Z ->
  (forall j, (i' < j <= i0)%Z -> cond j = Ok true) ->
  cond i' <> Ok true ->
  (Z.to_nat (i0 - i') < fuel)%nat ->
  while_loop fuel cond (fun k => (k - 1)%Z) i0
  = Some (match cond i' with Ok _ => Ok i' | Raise e => Raise e end).
Proof.
  revert i0; induction fuel as [|fuel IH]; intros i0 Hle Hall Hstop Hfuel;
    [lia|].
  cbn [while_loop]. destruct (Z.eq_dec i0 i') as [->|Hne].
  - destruct (cond i') as [[|]|e]; [congruence | reflexivity | reflexivity].
  - rewrite (Hall i0) by lia. apply IH; try assumption; try lia.
    intros j Hj. apply Hall. lia.
Qed.

Lemma while_up_reaches (fuel : nat) (i0 i' : Z) :
  (i0 <= i')%Z ->
  (forall j, (i0 <= j < i')%Z -> cond j = Ok true) ->
  cond i' <> Ok true ->
  (Z.to_nat (i' - i0) < fuel)%nat ->
  while_loop fuel cond (fun k => (k + 1)%Z) i0
  = Some (match cond i' with Ok _ => Ok i' | Raise e => Raise e end).
Proof.
  revert i0; induction fuel as [|fuel IH]; intros i0 Hle Hall Hstop Hfuel;
    [lia|].
  cbn [while_loop]. destruct (Z.eq_dec i0 i') as [->|Hne].
  - destruct (cond i') as [[|]|e]; [congruence | reflexivity | reflexivity].
  - rewrite (Hall i0) by lia. apply IH; try assumption; try lia.
    intros j Hj. apply Hall. lia.
Qed.

(** A loop that counts down and cannot go on below [lo] ends within
    [i0 - lo + 1] tests; likewise upwards. *)
Lemma while_down_ends (fuel : nat) (i0 lo : Z) :
  (forall j, (j < lo)%Z -> cond j <> Ok true) ->
  (Z.to_nat (i0 - lo + 1) < fuel)%nat ->
  exists r, while_loop fuel cond (fun k => (k - 1)%Z) i0 = Some r.
Proof.
  revert i0; induction fuel as [|fuel IH]; intros i0 Hlo Hfuel; [lia|].
  cbn [while_loop]. destruct (cond i0) as [[|]|e] eqn:Hc;
    try (eexists; reflexivity).
  apply IH; [exact Hlo|].
  assert (lo <= i0)%Z.
  { destruct (Z_lt_le_dec i0 lo) as [Hlt|Hge]; [|exact Hge].
    exfalso. now apply (Hlo i0 Hlt). }
  lia.
Qed.

Lemma while_up_ends (fuel : nat) (i0 hi : Z) :
  (forall j, (hi < j)%Z -> cond j <> Ok true) ->
  (Z.to_nat (hi - i0 + 1) < fuel)%nat ->
  exists r, while_loop fuel cond (fun k => (k + 1)%Z) i0 = Some r.
Proof.
  revert i0; induction fuel as [|fuel IH]; intros i0 Hhi Hfuel; [lia|].
  cbn [while_loop]. destruct (cond i0) as [[|]|e] eqn:Hc;
    try (eexists; reflexivity).
  apply IH; [exact Hhi|].
  assert (i0 <= hi)%Z.
  { destruct (Z_lt_le_dec hi i0) as [Hlt|Hge]; [|exact Hge].
    exfalso. now apply (Hhi i0 Hlt). }
  lia.
Qed.

End Loops.

Lemma py_index_range (A : Type) (l : list A) (i : Z) (x : A) :
  py_index l i = Ok x ->
  (- Z.of_nat (length l) <= i < Z.of_nat (length l))%Z.
Proof.
  unfold py_index. destruct (Z.ltb_spec i 0) as [Hneg|Hpos].
  - destruct (Z.leb_spec 0 (i + Z.of_nat (length l))) as [H0|H0];
      [|discriminate].
    intros _. lia.
  - destruct (Z.leb_spec 0 i) as [H0|H0]; [|discriminate].
    destruct (Z.ltb_spec i (Z.of_nat (length l))) as [H1|H1]; [|discriminate].
    intros _. lia.
Qed.

Lemma py_index_outside (A : Type) (l : list A) (i : Z) :
  (i < - Z.of_nat (length l) \/ Z.of_nat (length l) <= i)%Z ->
  py_index l i = Raise IndexError.
Proof.
  intros Hout. destruct (py_index l i) as [x|e] eqn:Hi.
  - apply py_index_range in Hi. lia.
  - unfold py_index in Hi.
    destruct ((0 <=? _) && _)%Z; [|congruence].
    destruct (nth_error l _); congruence.
Qed.

Lemma py_index_inside (A : Type) (l : list A) (i : Z) :
  (- Z.of_nat (length l) <= i < Z.of_nat (length l))%Z ->
  exists x, py_index l i = Ok x /\ In x l.
Proof.
  intros Hin. unfold py_index.
  set (j := if (i <? 0)%Z then (i + Z.of_nat (length l))%Z else i).
  assert (Hj : (0 <= j < Z.of_nat (length l))%Z).
  { unfold j. destruct (Z.ltb_spec i 0); lia. }
  replace (0 <=? j)%Z with true by (symmetry; apply Z.leb_le; lia).
  replace (j <? Z.of_nat (length l))%Z with true
    by (symmetry; apply Z.ltb_lt; lia).
  cbn [andb]. destruct (nth_error l (Z.to_nat j)) as [x|] eqn:Hn.
  - exists x. split; [reflexivity|]. now apply nth_error_In in Hn.
  - apply nth_error_None in Hn. lia.
Qed.

Lemma py_index_nonneg (A : Type) (l : list A) (i : nat) (x : A) :
  nth_error l i = Some x -> py_index l (Z.of_nat i) = Ok x.
Proof.
  intros Hn. unfold py_index.
  assert (i < length l)%nat by (apply nth_error_Some; congruence).
  replace (Z.of_nat i <? 0)%Z with false by (symmetry; apply Z.ltb_ge; lia).
  replace (0 <=? Z.of_nat i)%Z with true by (symmetry; apply Z.leb_le; lia).
  replace (Z.of_nat i <? Z.of_nat (length l))%Z with true
    by (symmetry; apply Z.ltb_lt; lia).
  cbn [andb]. now rewrite Nat2Z.id, Hn.
Qed.

(** The tests of the four loops can only go on inside the lists. *)
Lemma not_context_range (sequence_ids : list (option Z)) (k : Z) :
  not_context sequence_ids k = Ok true ->
  (- Z.of_nat (length sequence_ids) <= k < Z.of_nat (length sequence_ids))%Z.
Proof.
  unfold not_context. destruct (py_index sequence_ids k) as [s|e] eqn:Hi;
    [|discriminate].
  intros _. now apply py_index_range in Hi.
Qed.

Lemma ends_from_range (offsets : list (Z * Z)) (end_char k : Z) (b : bool) :
  ends_from offsets end_char k = Ok b ->
  (- Z.of_nat (length offsets) <= k < Z.of_nat (length offsets))%Z.
Proof.
  unfold ends_from. destruct (py_index offsets k) as [s|e] eqn:Hi;
    [|discriminate].
  intros _. now apply py_index_range in Hi.
Qed.

Lemma starts_by_range (offsets : list (Z * Z)) (start_char k : Z) :
  starts_by offsets start_char k = Ok true ->
  (k < Z.of_nat (length offsets))%Z.
Proof.
  unfold starts_by. destruct (Z.ltb_spec k (Z.of_nat (length offsets)));
    [intros; lia | discriminate].
Qed.

Lemma lbind_ok_inv (A B : Type) (m : option (result A))
      (k : A -> option (result B)) (b : B) :
  lbind m k = Some (Ok b) ->
  exists a, m = Some (Ok a) /\ k a = Some (Ok b).
Proof.
  destruct m as [[a|e]|]; cbn [lbind]; try discriminate.
  intros Hk. now exists a.
Qed.

(** Line 91: the search for the first context token ends, at a token if
    it ends without an exception. *)
Lemma first_context_search (fuel : nat) (sequence_ids : list (option Z)) :
  (length sequence_ids < fuel)%nat ->
  exists r,
    while_loop fuel (not_context sequence_ids) (fun k => (k + 1)%Z) 0%Z
    = Some r
    /\ forall t, r = Ok t ->
         (0 <= t < Z.of_nat (length sequence_ids))%Z
         /\ not_context sequence_ids t = Ok false
         /\ forall j, (0 <= j < t)%Z -> not_context sequence_ids j = Ok true.
Proof.
  intros Hfuel.
  destruct (@while_up_ends (not_context sequence_ids) fuel 0
              (Z.of_nat (length sequence_ids) - 1)) as [r Hr].
  - intros j Hj Hc. apply not_context_range in Hc. lia.
  - lia.
  - exists r. split; [exact Hr|]. intros t ->.
    destruct (while_up_spec _ _ _ Hr) as [i' [Hle [Hall [<- Hstop]]]].
    split; [|split; assumption].
    unfold not_context in Hstop.
    destruct (py_index sequence_ids t) as [s|e] eqn:Hi; [|discriminate].
    apply py_index_range in Hi. lia.
Qed.

(** Line 96: the search for the last context token ends. *)
Lemma last_context_search (fuel : nat) (sequence_ids : list (option Z))
      (i0 : Z) :
  (Z.to_nat (i0 + Z.of_nat (length sequence_ids) + 1) < fuel)%nat ->
  exists r,
    while_loop fuel (not_context sequence_ids) (fun k => (k - 1)%Z) i0 = Some r
    /\ forall t, r = Ok t ->
         (t <= i0)%Z
         /\ (- Z.of_nat (length sequence_ids) <= t
             < Z.of_nat (length sequence_ids))%Z
         /\ not_context sequence_ids t = Ok false
         /\ forall j, (t < j <= i0)%Z -> not_context sequence_ids j = Ok true.
Proof.
  intros Hfuel.
  destruct (@while_down_ends (not_context sequence_ids) fuel i0
              (- Z.of_nat (length sequence_ids))) as [r Hr].
  - intros j Hj Hc. apply not_context_range in Hc. lia.
  - replace (i0 - - Z.of_nat (length sequence_ids) + 1)%Z
      with (i0 + Z.of_nat (length sequence_ids) + 1)%Z by lia.
    exact Hfuel.
  - exists r. split; [exact Hr|]. intros t ->.
    destruct (while_down_spec _ _ _ Hr) as [i' [Hle [Hall [<- Hstop]]]].
    split; [exact Hle|]. split; [|split; assumption].
    unfold not_context in Hstop.
    destruct (py_index sequence_ids t) as [s|e] eqn:Hi; [|discriminate].
    now apply py_index_range in Hi.
Qed.

(** X26.  The four loops that label a feature always end, whatever the
    tokenizer gave: within the fuel [label_fuel] allows, the labelling
    either appends its labels or raises. *)
Theorem labelling_always_ends (fuel : nat) (cls_token_id : Z)
        (input_ids : list Z) (sequence_ids : list (option Z))
        (offsets : list (Z * Z)) (start_char : Z) (answer_length : nat) :
  (label_fuel input_ids sequence_ids offsets <= fuel)%nat ->
  exists r,
    label_feature fuel cls_token_id input_ids sequence_ids offsets
                  start_char answer_length = Some r.
Proof.
  unfold label_fuel. intros Hfuel. unfold label_feature.
  destruct (list_index cls_token_id input_ids) as [cls|e];
    [|eexists; reflexivity].
  cbn [lbind].
  destruct (@first_context_search fuel sequence_ids) as [r1 [Hr1 Ht1]];
    [lia|].
  rewrite Hr1. destruct r1 as [t1|e]; [|eexists; reflexivity].
  destruct (Ht1 t1 eq_refl) as [Hrange1 _]. cbn [lbind].
  destruct (@last_context_search fuel sequence_ids
              (Z.of_nat (length input_ids) - 1)) as [r2 [Hr2 Ht2]]; [lia|].
  rewrite Hr2. destruct r2 as [t2|e]; [|eexists; reflexivity].
  destruct (Ht2 t2 eq_refl) as [Hle2 _]. cbn [lbind].
  destruct (answer_in_span _ _ _ _ _) as [[|]|e];
    cbn [lbind negb]; try (eexists; reflexivity).
  destruct (@while_up_ends (starts_by offsets start_char) fuel t1
              (Z.of_nat (length offsets) - 1)) as [r3 Hr3].
  { intros j Hj Hc. apply starts_by_range in Hc. lia. }
  { lia. }
  rewrite Hr3. destruct r3 as [t3|e]; [|eexists; reflexivity].
  cbn [lbind].
  destruct (@while_down_ends
              (ends_from offsets (start_char + Z.of_nat answer_length))
              fuel t2 (- Z.of_nat (length offsets))) as [r4 Hr4].
  { intros j Hj Hc. apply ends_from_range in Hc. lia. }
  { lia. }
  rewrite Hr4. destruct r4 as [t4|e]; [|eexists; reflexivity].
  cbn [lbind].
  destruct (py_index offsets (t3 - 1)) as [o1|e]; [|eexists; reflexivity].
  cbn [lbind].
  destruct (py_index offsets (t4 + 1)) as [o2|e]; eexists; reflexivity.
Qed.

Lemma labelling_always_ends_witness :
  exists r,
    label_feature 39 101 small_input_ids small_sequence_ids small_offsets
                  0 3 = Some r.
Proof.
  apply (@labelling_always_ends 39 101 small_input_ids small_sequence_ids
           small_offsets 0 3).
  unfold label_fuel. simpl. lia.
Defined.

(** What a labelling inside the span went through. *)
Lemma in_span_stages (fuel : nat) (cls_token_id : Z) (input_ids : list Z)
      (sequence_ids : list (option Z)) (offsets : list (Z * Z))
      (start_char : Z) (answer_length : nat)
      (start_position end_position offset_st offset_en : Z) :
  label_feature fuel cls_token_id input_ids sequence_ids offsets
                start_char answer_length
  = Some (Ok (InSpan start_position end_position offset_st offset_en)) ->
  let end_char := (start_char + Z.of_nat answer_length)%Z in
  exists t1 t2 o_st o_en,
    while_loop fuel (not_context sequence_ids) (fun k => (k + 1)%Z) 0%Z
    = Some (Ok t1)
    /\ while_loop fuel (not_context sequence_ids) (fun k => (k - 1)%Z)
                  (Z.of_nat (length input_ids) - 1)%Z = Some (Ok t2)
    /\ answer_in_span offsets start_char end_char t1 t2 = Ok true
    /\ while_loop fuel (starts_by offsets start_char) (fun k => (k + 1)%Z) t1
       = Some (Ok (start_position + 1)%Z)
    /\ while_loop fuel (ends_from offsets end_char) (fun k => (k - 1)%Z) t2
       = Some (Ok (end_position - 1)%Z)
    /\ py_index offsets start_position = Ok o_st
    /\ py_index offsets end_position = Ok o_en
    /\ offset_st = fst o_st /\ offset_en = snd o_en.
Proof.
  intros Hrun end_char. unfold label_feature in Hrun. fold end_char in Hrun.
  apply lbind_ok_inv in Hrun. destruct Hrun as [cls [_ Hrun]].
  apply lbind_ok_inv in Hrun. destruct Hrun as [t1 [H1 Hrun]].
  apply lbind_ok_inv in Hrun. destruct Hrun as [t2 [H2 Hrun]].
  apply lbind_ok_inv in Hrun. destruct Hrun as [inside [Hin Hrun]].
  destruct inside; cbn [negb] in Hrun; [|discriminate].
  apply lbind_ok_inv in Hrun. destruct Hrun as [t3 [H3 Hrun]].
  apply lbind_ok_inv in Hrun. destruct Hrun as [t4 [H4 Hrun]].
  apply lbind_ok_inv in Hrun. destruct Hrun as [o_st [Hst Hrun]].
  apply lbind_ok_inv in Hrun. destruct Hrun as [o_en [Hen Hrun]].
  inversion Hrun; subst.
  inversion Hin as [Hin']. inversion Hst as [Hst']. inversion Hen as [Hen'].
  exists t1, t2, o_st, o_en.
  replace (t3 - 1 + 1)%Z with t3 by lia.
  replace (t4 + 1 - 1)%Z with t4 by lia.
  repeat split; assumption.
Qed.

(** X27.  When a feature is labelled with the two ends of the answer, the
    characters from the start of the start token to the end of the end
    token cover the answer; the start token is a token of the feature,
    the last of a run of tokens that start at or before the answer; the
    end token is at or before the last token of [input_ids], and the token
    before it ends before the answer does. *)
Theorem labelled_span_covers_answer (fuel : nat) (cls_token_id : Z)
        (input_ids : list Z) (sequence_ids : list (option Z))
        (offsets : list (Z * Z)) (start_char : Z) (answer_length : nat)
        (start_position end_position offset_st offset_en : Z) :
  label_feature fuel cls_token_id input_ids sequence_ids offsets
                start_char answer_length
  = Some (Ok (InSpan start_position end_position offset_st offset_en)) ->
  let end_char := (start_char + Z.of_nat answer_length)%Z in
  (offset_st <= start_char /\ end_char <= offset_en)%Z
  /\ (0 <= start_position < Z.of_nat (length offsets))%Z
  /\ (end_position <= Z.of_nat (length input_ids) - 1)%Z
  /\ (exists o, py_index offsets start_position = Ok o /\ fst o = offset_st)
  /\ (exists o, py_index offsets end_position = Ok o /\ snd o = offset_en)
  /\ ((start_position + 1)%Z = Z.of_nat (length offsets)
      \/ exists o, py_index offsets (start_position + 1) = Ok o
                   /\ (start_char < fst o)%Z)
  /\ (exists o, py_index offsets (end_position - 1) = Ok o
                /\ (snd o < end_char)%Z).
Proof.
  intros Hrun end_char.
  destruct (in_span_stages _ _ _ _ _ _ _ Hrun)
    as [t1 [t2 [o_st [o_en [H1 [H2 [Hin [H3 [H4 [Hst [Hen [-> ->]]]]]]]]]]]].
  fold end_char in Hin, H4.
  destruct (while_up_spec _ _ _ H1) as [t1' [Ht1 [_ [<- _]]]].
  destruct (while_down_spec _ _ _ H2) as [t2' [Ht2 [_ [<- _]]]].
  destruct (while_up_spec _ _ _ H3) as [t3 [Ht3 [Hall3 [<- Hstop3]]]].
  destruct (while_down_spec _ _ _ H4) as [t4 [Ht4 [Hall4 [<- Hstop4]]]].
  (* the test of line 100 held at the two context ends *)
  unfold answer_in_span in Hin.
  destruct (py_index offsets t1) as [o1|] eqn:Ho1; [|discriminate].
  cbn [rbind] in Hin.
  destruct (Z.leb_spec (fst o1) start_char) as [Hfst|]; [|discriminate].
  destruct (py_index offsets t2) as [o2|] eqn:Ho2; [|discriminate].
  cbn [rbind] in Hin.
  destruct (Z.leb_spec end_char (snd o2)) as [Hsnd|]; [|discriminate].
  assert (Ht1r : (t1 < Z.of_nat (length offsets))%Z)
    by (apply py_index_range in Ho1; lia).
  assert (Hc3 : starts_by offsets start_char t1 = Ok true).
  { unfold starts_by.
    replace (t1 <? Z.of_nat (length offsets))%Z with true
      by (symmetry; apply Z.ltb_lt; lia).
    rewrite Ho1. cbn [rbind].
    replace (fst o1 <=? start_char)%Z with true
      by (symmetry; apply Z.leb_le; lia).
    reflexivity. }
  assert (Hc4 : ends_from offsets end_char t2 = Ok true).
  { unfold ends_from. rewrite Ho2. cbn [rbind].
    replace (end_char <=? snd o2)%Z with true
      by (symmetry; apply Z.leb_le; lia).
    reflexivity. }
  assert (Hlt3 : (t1 < start_position + 1)%Z).
  { destruct (Z.eq_dec t1 (start_position + 1)) as [Heq|]; [|lia].
    rewrite <- Heq in Hstop3. congruence. }
  assert (Hlt4 : (end_position - 1 < t2)%Z).
  { destruct (Z.eq_dec t2 (end_position - 1)) as [Heq|]; [|lia].
    rewrite <- Heq in Hstop4. congruence. }
  (* the last turn of each loop *)
  assert (Hs : starts_by offsets start_char start_position = Ok true)
    by (apply Hall3; lia).
  assert (He : ends_from offsets end_char end_position = Ok true)
    by (apply Hall4; lia).
  unfold starts_by in Hs.
  destruct (Z.ltb_spec start_position (Z.of_nat (length offsets)))
    as [Hsr|]; [|discriminate].
  rewrite Hst in Hs. cbn [rbind] in Hs.
  destruct (Z.leb_spec (fst o_st) start_char) as [Hs'|]; [|discriminate].
  unfold ends_from in He. rewrite Hen in He. cbn [rbind] in He.
  destruct (Z.leb_spec end_char (snd o_en)) as [He'|]; [|discriminate].
  split; [split; assumption|].
  split; [lia|]. split; [lia|].
  split; [now exists o_st|]. split; [now exists o_en|]. split.
  - unfold starts_by in Hstop3.
    destruct (Z.ltb_spec (start_position + 1) (Z.of_nat (length offsets)))
      as [Hin3|Hout3].
    + right.
      destruct (py_index offsets (start_position + 1)) as [o|] eqn:Ho;
        [|discriminate].
      cbn [rbind] in Hstop3. exists o. split; [reflexivity|].
      destruct (Z.leb_spec (fst o) start_char); [discriminate | lia].
    + left. lia.
  - unfold ends_from in Hstop4.
    destruct (py_index offsets (end_position - 1)) as [o|] eqn:Ho;
      [|discriminate].
    cbn [rbind] in Hstop4. exists o. split; [reflexivity|].
    destruct (Z.leb_spec end_char (snd o)); [discriminate | lia].
Qed.

Lemma small_feature_first_token :
  label_feature 39 101 small_input_ids small_sequence_ids small_offsets 0 3
  = Some (Ok (InSpan 3 3 0 3)).
Proof. reflexivity. Qed.

Lemma small_feature_last_token :
  label_feature 39 101 small_input_ids small_sequence_ids small_offsets 4 5
  = Some (Ok (InSpan 5 4 0 9)).
Proof. reflexivity. Qed.

Lemma labelled_span_covers_answer_witness :
  let end_char := (0 + Z.of_nat 3)%Z in
  (0 <= 0 /\ end_char <= 3)%Z
  /\ (0 <= 3 < Z.of_nat (length small_offsets))%Z
  /\ (3 <= Z.of_nat (length small_input_ids) - 1)%Z
  /\ (exists o, py_index small_offsets 3 = Ok o /\ fst o = 0%Z)
  /\ (exists o, py_index small_offsets 3 = Ok o /\ snd o = 3%Z)
  /\ ((3 + 1)%Z = Z.of_nat (length small_offsets)
      \/ exists o, py_index small_offsets (3 + 1) = Ok o /\ (0 < fst o)%Z)
  /\ (exists o, py_index small_offsets (3 - 1) = Ok o
                /\ (snd o < end_char)%Z).
Proof.
  apply (@labelled_span_covers_answer 39 101 small_input_ids
           small_sequence_ids small_offsets 0 3 3 3 0 3).
  reflexivity.
Defined.

Lemma not_context_at (sequence_ids : list (option Z)) (t : nat) :
  nth_error sequence_ids t = Some (Some 1%Z) ->
  not_context sequence_ids (Z.of_nat t) = Ok false.
Proof.
  intros Hn. unfold not_context. now rewrite (py_index_nonneg _ _ Hn).
Qed.

(** X28.  The edge case the comment of line 105 mentions: when every token
    from the first context token on starts at or before the answer (the
    answer starts in the last context token, and the special and padding
    tokens after it have offset 0), a feature labelled inside the span
    gets as start position the last token of the feature, not the token
    of the answer. *)
Theorem answer_in_last_token_is_labelled_at_the_end (fuel : nat)
        (cls_token_id : Z) (input_ids : list Z)
        (sequence_ids : list (option Z)) (offsets : list (Z * Z))
        (start_char : Z) (answer_length : nat)
        (start_position end_position offset_st offset_en : Z) :
  label_feature fuel cls_token_id input_ids sequence_ids offsets
                start_char answer_length
  = Some (Ok (InSpan start_position end_position offset_st offset_en)) ->
  (forall t j o, (t <= j)%nat ->
     nth_error sequence_ids t = Some (Some 1%Z) ->
     nth_error offsets j = Some o -> (fst o <= start_char)%Z) ->
  start_position = (Z.of_nat (length offsets) - 1)%Z.
Proof.
  intros Hrun Hafter.
  destruct (in_span_stages _ _ _ _ _ _ _ Hrun)
    as [t1 [t2 [o_st [o_en [H1 [_ [Hin1 [H3 _]]]]]]]].
  destruct (while_up_spec _ _ _ H1) as [t1' [Ht1 [_ [<- Hstop1]]]].
  destruct (while_up_spec _ _ _ H3) as [t3 [Ht3 [_ [<- Hstop3]]]].
  assert (Ht1r : (t1 < Z.of_nat (length offsets))%Z).
  { unfold answer_in_span in Hin1.
    destruct (py_index offsets t1) as [o1|] eqn:Ho1; [|discriminate].
    apply py_index_range in Ho1. lia. }
  unfold starts_by in Hstop3.
  destruct (Z.ltb_spec (start_position + 1) (Z.of_nat (length offsets)))
    as [Hin|Hout].
  - exfalso.
    destruct (py_index offsets (start_position + 1)) as [o|] eqn:Ho;
      [|discriminate].
    cbn [rbind] in Hstop3.
    destruct (Z.leb_spec (fst o) start_char) as [|Hgt]; [discriminate|].
    (* the first context token is a context token *)
    unfold not_context in Hstop1.
    destruct (py_index sequence_ids t1) as [s|] eqn:Hs; [|discriminate].
    cbn [rbind] in Hstop1.
    assert (Hs1 : nth_error sequence_ids (Z.to_nat t1) = Some (Some 1%Z)).
    { unfold py_index in Hs.
      replace (t1 <? 0)%Z with false in Hs by (symmetry; apply Z.ltb_ge; lia).
      destruct ((0 <=? t1) && (t1 <? Z.of_nat (length sequence_ids)))%Z;
        [|discriminate].
      destruct (nth_error sequence_ids (Z.to_nat t1)) as [s'|];
        [|discriminate].
      inversion Hs; subst s'.
      destruct s as [[|[| |]|]|]; try discriminate. reflexivity. }
    assert (Ho1 : nth_error offsets (Z.to_nat (start_position + 1)) = Some o).
    { unfold py_index in Ho.
      replace (start_position + 1 <? 0)%Z with false in Ho
        by (symmetry; apply Z.ltb_ge; lia).
      destruct ((0 <=? start_position + 1)
                && (start_position + 1 <? Z.of_nat (length offsets)))%Z;
        [|discriminate].
      destruct (nth_error offsets (Z.to_nat (start_position + 1)));
        [|discriminate].
      now inversion Ho. }
    assert (Hle : (Z.to_nat t1 <= Z.to_nat (start_position + 1))%nat) by lia.
    specialize (Hafter _ _ _ Hle Hs1 Ho1). lia.
  - (* the loop of line 106 went on from the first context token *)
    destruct (while_up_spec _ _ _ H3) as [t3' [_ [Hall3 [Heq _]]]].
    subst t3'.
    destruct (Z.eq_dec (start_position + 1) (Z.of_nat (length offsets)));
      [lia|].
    exfalso.
    assert (Hc : starts_by offsets start_char (Z.of_nat (length offsets))
                 = Ok true) by (apply Hall3; lia).
    apply starts_by_range in Hc. lia.
Qed.

Lemma answer_in_last_token_is_labelled_at_the_end_witness :
  5%Z = (Z.of_nat (length small_offsets) - 1)%Z.
Proof.
  apply (@answer_in_last_token_is_labelled_at_the_end 39 101 small_input_ids
           small_sequence_ids small_offsets 4 5 5 4 0 9).
  - reflexivity.
  - intros t j o Hle Ht Ho.
    assert (Ht3 : (3 <= t)%nat).
    { destruct t as [|[|[|t]]]; try discriminate Ht. lia. }
    do 3 (destruct j as [|j]; [lia|]).
    destruct j as [|[|[|j]]]; cbn in Ho;
      [| | | destruct j; discriminate Ho];
      inversion Ho; subst; cbn; lia.
Defined.

Lemma not_context_other (sequence_ids : list (option Z)) (j : Z) :
  (0 <= j < Z.of_nat (length sequence_ids))%Z ->
  nth_error sequence_ids (Z.to_nat j) <> Some (Some 1%Z) ->
  not_context sequence_ids j = Ok true.
Proof.
  intros Hj Hne. unfold not_context.
  destruct (nth_error sequence_ids (Z.to_nat j)) as [s|] eqn:Hn.
  - rewrite <- (Z2Nat.id j) by lia. rewrite (py_index_nonneg _ _ Hn).
    cbn [rbind]. destruct s as [[|[| |]|]|]; try reflexivity. congruence.
  - apply nth_error_None in Hn. lia.
Qed.

Lemma ends_from_all (offsets : list (Z * Z)) (end_char j : Z) :
  (forall o, In o offsets -> (end_char <= snd o)%Z) ->
  (- Z.of_nat (length offsets) <= j < Z.of_nat (length offsets))%Z ->
  ends_from offsets end_char j = Ok true.
Proof.
  intros Hall Hj. unfold ends_from.
  destruct (py_index_inside offsets Hj) as [o [-> Hin]]. cbn [rbind].
  replace (end_char <=? snd o)%Z with true
    by (symmetry; apply Z.leb_le; now apply Hall).
  reflexivity.
Qed.

(** X29.  The loop of line 109 has no lower bound.  On a feature whose
    lists have the length of [input_ids], when the first context token
    starts at or before the answer and no token at all ends before the end
    of the answer (an empty answer at character 0, for one), the loop runs
    down through the whole feature, on through the negative indices, and
    the labelling raises [IndexError]. *)
Theorem no_token_ending_before_answer_raises (fuel : nat) (cls_token_id : Z)
        (input_ids : list Z) (sequence_ids : list (option Z))
        (offsets : list (Z * Z)) (start_char : Z) (answer_length : nat)
        (cls_index : Z) (t : nat) (o_t : Z * Z) :
  (label_fuel input_ids sequence_ids offsets <= fuel)%nat ->
  list_index cls_token_id input_ids = Ok cls_index ->
  length sequence_ids = length input_ids ->
  length offsets = length input_ids ->
  nth_error sequence_ids t = Some (Some 1%Z) ->
  (forall j, (j < t)%nat -> nth_error sequence_ids j <> Some (Some 1%Z)) ->
  nth_error offsets t = Some o_t ->
  (fst o_t <= start_char)%Z ->
  (forall o, In o offsets ->
     (start_char + Z.of_nat answer_length <= snd o)%Z) ->
  label_feature fuel cls_token_id input_ids sequence_ids offsets
                start_char answer_length
  = Some (Raise IndexError).
Proof.
  unfold label_fuel.
  intros Hfuel Hcls Hls Hlo Ht Hfirst Hot Hfst Hends.
  set (n := length input_ids) in *.
  assert (Htn : (t < n)%nat).
  { rewrite <- Hls. apply nth_error_Some. congruence. }
  unfold label_feature. fold n. rewrite Hcls. cbn [lbind].
  set (end_char := (start_char + Z.of_nat answer_length)%Z) in *.
  (* line 91 stops at [t] *)
  rewrite (@while_up_reaches (not_context sequence_ids) fuel 0 (Z.of_nat t)).
  2: lia.
  2: { intros j Hj. apply not_context_other; [lia|].
       apply Hfirst. lia. }
  2: { rewrite (not_context_at _ _ Ht). discriminate. }
  2: lia.
  rewrite (not_context_at _ _ Ht). cbn [lbind].
  (* line 96 stops at a context token *)
  destruct (@last_context_search fuel sequence_ids (Z.of_nat n - 1))
    as [r2 [Hr2 Ht2]]; [lia|].
  rewrite Hr2.
  destruct (while_down_spec _ _ _ Hr2) as [t2 [Hle2 [Hall2 Hstop2]]].
  assert (Hge2 : (Z.of_nat t <= t2)%Z).
  { destruct (Z_lt_le_dec t2 (Z.of_nat t)) as [Hlt|]; [|assumption].
    exfalso.
    pose proof (not_context_at _ _ Ht) as Hc.
    rewrite (Hall2 (Z.of_nat t)) in Hc by lia. discriminate. }
  destruct r2 as [t2'|e].
  2: { exfalso. unfold not_context in Hstop2.
       destruct (@py_index_inside _ sequence_ids t2) as [s [Hs _]]; [lia|].
       rewrite Hs in Hstop2. discriminate. }
  destruct Hstop2 as [-> _]. cbn [lbind].
  (* the test of line 100 holds *)
  unfold answer_in_span.
  rewrite (py_index_nonneg _ _ Hot). cbn [rbind].
  replace (fst o_t <=? start_char)%Z with true
    by (symmetry; apply Z.leb_le; lia).
  destruct (@py_index_inside _ offsets t2) as [o2 [Ho2 Hin2]]; [lia|].
  rewrite Ho2. cbn [rbind].
  replace (end_char <=? snd o2)%Z with true
    by (symmetry; apply Z.leb_le; now apply Hends).
  cbn [lbind negb].
  (* line 106 ends without an exception *)
  destruct (@while_up_ends (starts_by offsets start_char) fuel (Z.of_nat t)
              (Z.of_nat (length offsets) - 1)) as [r3 Hr3].
  { intros j Hj Hc. apply starts_by_range in Hc. lia. }
  { lia. }
  rewrite Hr3.
  destruct (while_up_spec _ _ _ Hr3) as [t3 [Hle3 [_ Hstop3]]].
  destruct r3 as [t3'|e].
  2: { exfalso. unfold starts_by in Hstop3.
       destruct (Z.ltb_spec t3 (Z.of_nat (length offsets))); [|discriminate].
       destruct (@py_index_inside _ offsets t3) as [o [Ho _]]; [lia|].
       rewrite Ho in Hstop3. discriminate. }
  cbn [lbind].
  (* line 109 runs out of the list *)
  assert (Hout : ends_from offsets end_char (- Z.of_nat (length offsets) - 1)
                 = Raise IndexError).
  { unfold ends_from. rewrite py_index_outside by lia. reflexivity. }
  rewrite (@while_down_reaches (ends_from offsets end_char) fuel t2
             (- Z.of_nat (length offsets) - 1)).
  - rewrite Hout. reflexivity.
  - lia.
  - intros j Hj. apply ends_from_all; [exact Hends | lia].
  - rewrite Hout. discriminate.
  - lia.
Qed.

Lemma no_token_ending_before_answer_raises_witness :
  label_feature 39 101 small_input_ids small_sequence_ids small_offsets 0 0
  = Some (Raise IndexError).
Proof.
  apply (@no_token_ending_before_answer_raises 39 101 small_input_ids
           small_sequence_ids small_offsets 0 0 0 3 (0, 3)%Z).
  - unfold label_fuel. simpl. lia.
  - reflexivity.
  - reflexivity.
  - reflexivity.
  - reflexivity.
  - intros j Hj. do 3 (destruct j as [|j]; [discriminate|]). lia.
  - reflexivity.
  - simpl. lia.
  - intros o Hin. simpl in Hin.
    repeat (destruct Hin as [<-|Hin]; [simpl; lia|]). contradiction.
Defined.

(** X30.  A feature without a context token cannot be labelled: the loop
    of line 91 runs off the end of [sequence_ids] and raises
    [IndexError], once the CLS token has been found. *)
Theorem no_context_token_raises (fuel : nat) (cls_token_id : Z)
        (input_ids : list Z) (sequence_ids : list (option Z))
        (offsets : list (Z * Z)) (start_char : Z) (answer_length : nat)
        (cls_index : Z) :
  (length sequence_ids < fuel)%nat ->
  list_index cls_token_id input_ids = Ok cls_index ->
  (forall s, In s sequence_ids -> s <> Some 1%Z) ->
  label_feature fuel cls_token_id input_ids sequence_ids offsets
                start_char answer_length
  = Some (Raise IndexError).
Proof.
  intros Hfuel Hcls Hnone. unfold label_feature. rewrite Hcls. cbn [lbind].
  assert (Hout : not_context sequence_ids (Z.of_nat (length sequence_ids))
                 = Raise IndexError).
  { unfold not_context. rewrite py_index_outside by lia. reflexivity. }
  rewrite (@while_up_reaches (not_context sequence_ids) fuel 0
             (Z.of_nat (length sequence_ids))).
  - rewrite Hout. reflexivity.
  - lia.
  - intros j Hj. apply not_context_other; [lia|].
    intros Hn. apply nth_error_In in Hn. now apply (Hnone _ Hn).
  - rewrite Hout. discriminate.
  - lia.
Qed.

Lemma no_context_token_raises_witness :
  label_feature 4 101 [101; 7; 102]%Z [None; Some 0%Z; None]
                [(0, 0); (0, 5); (0, 0)]%Z 0 3
  = Some (Raise IndexError).
Proof.
  apply (@no_context_token_raises 4 101 [101; 7; 102]%Z
           [None; Some 0%Z; None] [(0, 0); (0, 5); (0, 0)]%Z 0 3 0).
  - simpl. lia.
  - reflexivity.
  - intros s Hin. simpl in Hin.
    repeat (destruct Hin as [<-|Hin]; [discriminate|]). contradiction.
Defined.
